(** * ku_download_parse_app: the acquisition-and-merge pipeline

    A shallow embedding of [entities/ku_parser.py], [entities/ku_downloader.py]
    and [main.py].  The Python methods become computations in a small
    state-and-exception monad over a [World] made of a file system, the state
    of the spatial engine (arcpy), the logged warnings and the printed lines.

    The calls into the standard library ([pathlib], [zipfile], [shutil]) and
    into arcpy are modelled by their documented effect on that state; the
    browser automation of the downloader is left abstract. *)

From Stdlib Require Import Ascii.
From stdpp Require Import gmap strings list fin_maps sorting.


(** ** Strings and paths *)

(** [s.split(sep)] for a one-character separator: never the empty list. *)
Fixpoint split (sep : ascii) (s : string) : list string :=
  match s with
  | EmptyString => [EmptyString]
  | String c s' =>
      if Ascii.eqb c sep then EmptyString :: split sep s'
      else match split sep s' with
           | [] => [String c EmptyString]
           | w :: ws => String c w :: ws
           end
  end.

(** [l[-1]] on a list of strings that is known to be non-empty. *)
Definition last_item (l : list string) : string := default "" (last l).

(** [sep.join(l)]. *)
Fixpoint join (sep : string) (l : list string) : string :=
  match l with
  | [] => ""
  | [x] => x
  | x :: l' => x +:+ sep +:+ join sep l'
  end.

(** [name.endswith(suf)]. *)
Fixpoint ends_with (suf s : string) : bool :=
  String.eqb suf s ||
  match s with
  | EmptyString => false
  | String _ s' => ends_with suf s'
  end.

(** A resolved absolute path, as the list of its components below the root. *)
Abbreviation Path := (list string).

Definition path_str (p : Path) : string := "/" +:+ join "/" p.

(** [p.name] *)
Definition name (p : Path) : string := last_item p.

(** [p.parent] *)
Definition parent (p : Path) : Path := removelast p.

(** ** Archives and the file system *)

(** What reading a member of an archive does: it can succeed, fail when the
    member is opened (nothing is written), or fail while its data is copied
    (the target file has been created and holds what was copied so far). *)
Inductive integrity := Intact | CorruptHeader | CorruptData.

(** [zipfile.ZipInfo] with the data of the member. *)
Record ZipInfo := {
  filename : string;
  payload : list Byte.byte;
  state : integrity
}.

(** The content of a regular file: a well-formed archive, seen as its member
    list in [infolist()] order, or any other bytes. *)
Inductive content :=
| Zip (members : list ZipInfo)
| Raw (data : list Byte.byte).

Inductive node :=
| File (c : content) (locked : bool)
| Dir.

(** Files and directories by path.  The root [[]] is a directory and is not
    stored.  A [locked] file is one the process may not unlink. *)
Abbreviation FS := (gmap Path node).

Definition node_at (fs : FS) (p : Path) : option node :=
  match p with
  | [] => Some Dir
  | _ => fs !! p
  end.

(** [p] is [d / n] for some [n]. *)
Definition child_of (d p : Path) : bool :=
  match p with
  | [] => false
  | _ => bool_decide (parent p = d)
  end.

(** The order in which a directory is listed: a fixed total order on paths
    (that of their encodings), so that the listing of a directory depends on
    its entries only. *)
Definition path_le (p q : Path) : Prop := (encode p ≤ encode q)%positive.

Global Instance path_le_dec : RelDecision path_le :=
  λ p q, decide ((encode p ≤ encode q)%positive).

(** [d.glob(pattern)] for a pattern without a directory part: the entries of
    [d] whose name matches, in the order the directory is listed. *)
Definition glob (d : Path) (pat : string → bool) (fs : FS) : list Path :=
  merge_sort path_le
    (filter (λ p, child_of d p && pat (name p) = true) (map_to_list fs).*1).

Definition zip_pattern (n : string) : bool := ends_with ".zip" n.
Definition any_pattern (n : string) : bool := true.

(** ** The spatial engine *)

Record FeatureClass := {
  fc_fields : list string;
  fc_rows : list (list string)
}.

(** The part of arcpy the program drives: the geoprocessing environment and
    the catalog of feature classes, keyed by catalog path.  [strict_delete]
    records whether the Delete tool of the installed release fails on a
    dataset that does not exist (older releases) or only warns.

    A dataset is what the catalog holds at its path.  The files in which a
    workspace on disk stores its datasets are not part of [fs]: of a
    geodatabase, [fs] has the directory of the container and nothing below
    it.  What is said about files below therefore leaves out the paths at or
    below a workspace the engine writes to. *)
Record Arcpy := {
  env_workspace : option Path;
  env_XYDomain : option string;
  env_outputCoordinateSystem : option string;
  env_overwriteOutput : bool;
  env_parallelProcessingFactor : option string;
  catalog : gmap Path FeatureClass;
  strict_delete : bool
}.

(** ** The world and the monad of effects *)

Record exn := Exn { exn_class : string; exn_msg : string }.

Record World := {
  fs : FS;
  arc : Arcpy;
  warnings : list string;
  stdout : list string;
  stdin : list string
}.

Inductive result (A : Type) :=
| Ok (a : A)
| Raise (e : exn).
Arguments Ok {A} a.
Arguments Raise {A} e.

(** Computations over a state [S] that return or raise. *)
Definition ST (S A : Type) : Type := S → result A * S.

Definition ret {S A} (a : A) : ST S A := λ s, (Ok a, s).

Definition bind {S A B} (c : ST S A) (k : A → ST S B) : ST S B :=
  λ s, match c s with
       | (Ok a, s') => k a s'
       | (Raise e, s') => (Raise e, s')
       end.

Definition raise {S A} (e : exn) : ST S A := λ s, (Raise e, s).

(** [try: c except Exception as e: h e] *)
Definition try_except {S A} (c : ST S A) (h : exn → ST S A) : ST S A :=
  λ s, match c s with
       | (Ok a, s') => (Ok a, s')
       | (Raise e, s') => h e s'
       end.

Definition get {S} : ST S S := λ s, (Ok s, s).
Definition put {S} (s : S) : ST S unit := λ _, (Ok tt, s).

(** The program runs over the whole world; the calls into [os], [pathlib],
    [shutil] and [zipfile] run over the file system. *)
Abbreviation M := (ST World).

Declare Scope M_scope.
Delimit Scope M_scope with M.
Bind Scope M_scope with ST.
Notation "x ← y ; z" := (bind y (λ x, z))
  (at level 20, y at level 100, z at level 200, only parsing) : M_scope.
Notation "x ;; z" := (bind x (λ _, z))
  (at level 100, z at level 200, only parsing, right associativity) : M_scope.
Local Open Scope M_scope.

(** [for x in l: body x] *)
Fixpoint for_each {S A} (l : list A) (body : A → ST S unit) : ST S unit :=
  match l with
  | [] => ret tt
  | x :: l' => body x ;; for_each l' body
  end.

Definition set_fs (f : FS) (w : World) : World :=
  {| fs := f; arc := arc w; warnings := warnings w;
     stdout := stdout w; stdin := stdin w |}.

Definition get_fs : M FS := λ w, (Ok (fs w), w).
Definition put_fs (f : FS) : M unit := λ w, (Ok tt, set_fs f w).

(** A file-system call made by the program. *)
Definition on_fs {A} (c : ST FS A) : M A :=
  λ w, ((c (fs w)).1, set_fs (c (fs w)).2 w).
Definition get_arc : M Arcpy := λ w, (Ok (arc w), w).
Definition put_arc (a : Arcpy) : M unit :=
  λ w, (Ok tt, {| fs := fs w; arc := a; warnings := warnings w;
                  stdout := stdout w; stdin := stdin w |}).

(** [logging.warning(msg)] *)
Definition logging_warning (msg : string) : M unit :=
  λ w, (Ok tt, {| fs := fs w; arc := arc w; warnings := warnings w ++ [msg];
                  stdout := stdout w; stdin := stdin w |}).

(** [print(msg)] *)
Definition print (msg : string) : M unit :=
  λ w, (Ok tt, {| fs := fs w; arc := arc w; warnings := warnings w;
                  stdout := stdout w ++ [msg]; stdin := stdin w |}).

(** [input(prompt)] *)
Definition input (prompt : string) : M string :=
  λ w, match stdin w with
       | [] => (Raise (Exn "EOFError" "EOF when reading a line"),
                {| fs := fs w; arc := arc w; warnings := warnings w;
                   stdout := stdout w ++ [prompt]; stdin := [] |})
       | l :: rest => (Ok l, {| fs := fs w; arc := arc w; warnings := warnings w;
                               stdout := stdout w ++ [prompt]; stdin := rest |})
       end.

(** ** pathlib, os, shutil and zipfile *)

Definition OSError (cls : string) (p : Path) : exn := Exn cls (path_str p).

(** [p.mkdir(exist_ok=b)], without [parents]. *)
Definition mkdir (p : Path) (exist_ok : bool) : ST FS unit :=
  f ← get;
  match node_at f p with
  | Some Dir => if exist_ok then ret tt else raise (OSError "FileExistsError" p)
  | Some (File _ _) => raise (OSError "FileExistsError" p)
  | None =>
      match node_at f (parent p) with
      | Some Dir => put (<[p := Dir]> f)
      | Some (File _ _) => raise (OSError "NotADirectoryError" p)
      | None => raise (OSError "FileNotFoundError" p)
      end
  end.

(** [os.makedirs]: walks down from [base], creating the directories that are
    missing; a regular file on the way is an error. *)
Fixpoint makedirs_from (base : Path) (rest : list string) : ST FS unit :=
  match rest with
  | [] => ret tt
  | c :: rest' =>
      f ← get;
      match f !! (base ++ [c]) with
      | Some Dir => makedirs_from (base ++ [c]) rest'
      | Some (File _ _) => raise (OSError "NotADirectoryError" (base ++ [c]))
      | None => put (<[base ++ [c] := Dir]> f) ;;
                makedirs_from (base ++ [c]) rest'
      end
  end.

Definition makedirs (p : Path) : ST FS unit := makedirs_from [] p.

(** [p.unlink()] *)
Definition unlink (p : Path) : ST FS unit :=
  f ← get;
  match node_at f p with
  | Some (File _ false) => put (delete p f)
  | Some (File _ true) => raise (OSError "PermissionError" p)
  | Some Dir => raise (OSError "IsADirectoryError" p)
  | None => raise (OSError "FileNotFoundError" p)
  end.

(** [os.rmdir(p)] *)
Definition rmdir (p : Path) : ST FS unit :=
  f ← get;
  match f !! p with
  | Some Dir =>
      match glob p any_pattern f with
      | [] => put (delete p f)
      | _ => raise (OSError "OSError" p)
      end
  | Some (File _ _) => raise (OSError "NotADirectoryError" p)
  | None => raise (OSError "FileNotFoundError" p)
  end.

(** [shutil.rmtree(p)]: the entries of [p] are removed in listing order,
    directories recursively, then [p] itself; the first error is raised. *)
Fixpoint rmtree_depth (depth : nat) (p : Path) : ST FS unit :=
  match depth with
  | O => rmdir p
  | S d =>
      f ← get;
      match f !! p with
      | Some Dir =>
          for_each (glob p any_pattern f)
            (λ q, match f !! q with
                  | Some Dir => rmtree_depth d q
                  | _ => unlink q
                  end) ;;
          rmdir p
      | Some (File _ _) => raise (OSError "NotADirectoryError" p)
      | None => raise (OSError "FileNotFoundError" p)
      end
  end.

Definition rmtree (p : Path) : ST FS unit :=
  f ← get; rmtree_depth (size f) p.

(** [ZipFile(zip_file).infolist()] *)
Definition ZipFile (zip_file : Path) : ST FS (list ZipInfo) :=
  f ← get;
  match node_at f zip_file with
  | Some (File (Zip ms) _) => ret ms
  | Some (File (Raw _) _) => raise (Exn "BadZipFile" "File is not a zip file")
  | Some Dir => raise (OSError "IsADirectoryError" zip_file)
  | None => raise (OSError "FileNotFoundError" zip_file)
  end.

Definition invalid_path_parts : list string := [""; "."; ".."].

(** The relative path a member is extracted to: its name split at the
    slashes, without empty, [.] and [..] components. *)
Definition arcname (m : ZipInfo) : Path :=
  filter (λ x, x ∉ invalid_path_parts) (split "/" (filename m)).

(** [m.is_dir()] *)
Definition is_dir (m : ZipInfo) : bool := ends_with "/" (filename m).

(** [ZipFile._extract_member(m, targetdir)] *)
Definition extract_member (m : ZipInfo) (targetdir : Path) : ST FS unit :=
  let targetpath := targetdir ++ arcname m in
  makedirs (parent targetpath) ;;
  if is_dir m then
    f ← get;
    match node_at f targetpath with
    | Some Dir => ret tt
    | _ => mkdir targetpath false
    end
  else
    match state m with
    | CorruptHeader => raise (Exn "BadZipFile" "Bad magic number for file header")
    | st =>
        f ← get;
        match node_at f targetpath with
        | Some Dir => raise (OSError "IsADirectoryError" targetpath)
        | Some (File _ true) => raise (OSError "PermissionError" targetpath)
        | _ =>
            put (<[targetpath := File (Raw (payload m)) false]> f) ;;
            match st with
            | CorruptData => raise (Exn "BadZipFile" "Bad CRC-32 for file")
            | _ => ret tt
            end
        end
    end.

(** [zf.extractall(path=targetdir, members=members)] *)
Definition extractall (targetdir : Path) (members : list ZipInfo) : ST FS unit :=
  for_each members (λ m, extract_member m targetdir).

(** ** KUParser *)

(** The instance attributes set by [__init__].  [unpacked_path] is assigned
    there and again in [extract_zip_files], both times to
    [download_path / "unpacked"]. *)
Record KUParser := {
  download_path : Path;
  gdb_path : Path
}.

Definition unpacked_path (self : KUParser) : Path :=
  download_path self ++ ["unpacked"].

Definition remove_zip_files (self : KUParser) (ku_list : option (list Path))
  : M unit :=
  ku_list ← match ku_list with
            | None => f ← get_fs; ret (glob (download_path self) zip_pattern f)
            | Some l => ret l
            end;
  for_each ku_list (λ ku,
    try_except (on_fs (unlink ku))
      (λ e, logging_warning ("Error removing zip file: " +:+ path_str ku +:+
                             ". Error: " +:+ exn_msg e))).

Definition remove_unpacked_files (self : KUParser) : M unit :=
  try_except
    (on_fs (rmtree (unpacked_path self)) ;;
     print ("Removed unpacked folder: " +:+ path_str (unpacked_path self)))
    (λ e, logging_warning ("Error removing unpacked folder: " +:+
                           path_str (unpacked_path self) +:+
                           ". Error: " +:+ exn_msg e)).

(** The base name of a member: [x.filename.split('/')[-1]]. *)
Definition base_name (x : ZipInfo) : string :=
  last_item (split "/" (filename x)).

Definition extract_zip_file (self : KUParser) (zip_file : Path)
    (to_extract : list string) : M unit :=
  zf ← on_fs (ZipFile zip_file);
  let files_to_extract := filter (λ x, base_name x ∈ to_extract) zf in
  on_fs (extractall (unpacked_path self) files_to_extract).

Definition to_extract : list string :=
  ["PARCELY_KN_DEF.cpg"; "PARCELY_KN_DEF.dbf"; "PARCELY_KN_DEF.prj";
   "PARCELY_KN_DEF.shp"; "PARCELY_KN_DEF.shx";
   "PARCELY_KN_P.cpg"; "PARCELY_KN_P.dbf"; "PARCELY_KN_P.prj";
   "PARCELY_KN_P.shp"; "PARCELY_KN_P.shx"].

Definition extract_zip_files (self : KUParser) : M unit :=
  on_fs (mkdir (unpacked_path self) true) ;;
  f ← get_fs;
  let zip_files := glob (download_path self) zip_pattern f in
  for_each zip_files (λ zip_file,
    try_except (extract_zip_file self zip_file to_extract)
      (λ e, logging_warning ("Error extracting zip file: " +:+
                             path_str zip_file))).

(** ** arcpy *)

Definition ExecuteError (msg : string) : exn := Exn "ExecuteError" msg.

Definition with_catalog (a : Arcpy) (c : gmap Path FeatureClass) : Arcpy :=
  {| env_workspace := env_workspace a;
     env_XYDomain := env_XYDomain a;
     env_outputCoordinateSystem := env_outputCoordinateSystem a;
     env_overwriteOutput := env_overwriteOutput a;
     env_parallelProcessingFactor := env_parallelProcessingFactor a;
     catalog := c;
     strict_delete := strict_delete a |}.

(** [arcpy.env.workspace = p] *)
Definition set_workspace (p : Path) : M unit :=
  a ← get_arc;
  put_arc {| env_workspace := Some p;
             env_XYDomain := env_XYDomain a;
             env_outputCoordinateSystem := env_outputCoordinateSystem a;
             env_overwriteOutput := env_overwriteOutput a;
             env_parallelProcessingFactor := env_parallelProcessingFactor a;
             catalog := catalog a;
             strict_delete := strict_delete a |}.

(** [arcpy.env.XYDomain = d] *)
Definition set_XYDomain (d : string) : M unit :=
  a ← get_arc;
  put_arc {| env_workspace := env_workspace a;
             env_XYDomain := Some d;
             env_outputCoordinateSystem := env_outputCoordinateSystem a;
             env_overwriteOutput := env_overwriteOutput a;
             env_parallelProcessingFactor := env_parallelProcessingFactor a;
             catalog := catalog a;
             strict_delete := strict_delete a |}.

(** [arcpy.env.overwriteOutput = b] *)
Definition set_overwriteOutput (b : bool) : M unit :=
  a ← get_arc;
  put_arc {| env_workspace := env_workspace a;
             env_XYDomain := env_XYDomain a;
             env_outputCoordinateSystem := env_outputCoordinateSystem a;
             env_overwriteOutput := b;
             env_parallelProcessingFactor := env_parallelProcessingFactor a;
             catalog := catalog a;
             strict_delete := strict_delete a |}.

(** [arcpy.env.parallelProcessingFactor = f] *)
Definition set_parallelProcessingFactor (f : string) : M unit :=
  a ← get_arc;
  put_arc {| env_workspace := env_workspace a;
             env_XYDomain := env_XYDomain a;
             env_outputCoordinateSystem := env_outputCoordinateSystem a;
             env_overwriteOutput := env_overwriteOutput a;
             env_parallelProcessingFactor := Some f;
             catalog := catalog a;
             strict_delete := strict_delete a |}.

(** [arcpy.SpatialReference(name)] builds a spatial reference object; it
    does not touch the environment. *)
Definition SpatialReference (name : string) : M string := ret name.

(** The catalog path a dataset name denotes: names in the [in_memory]
    workspace are absolute, any other name is relative to the current
    workspace. *)
Definition catalog_path (a : Arcpy) (dataset : string) : Path :=
  match split "/" dataset with
  | "in_memory" :: rest => "in_memory" :: rest
  | comps => default [] (env_workspace a) ++ comps
  end.

(** [arcpy.Exists(dataset)] *)
Definition Exists (dataset : string) : M bool :=
  a ← get_arc;
  ret (bool_decide (is_Some (catalog a !! catalog_path a dataset))).

(** [arcpy.Delete_management(dataset)] *)
Definition Delete_management (dataset : string) : M unit :=
  a ← get_arc;
  match catalog a !! catalog_path a dataset with
  | Some _ => put_arc (with_catalog a (delete (catalog_path a dataset) (catalog a)))
  | None =>
      if strict_delete a
      then raise (ExecuteError ("ERROR 000732: Dataset " +:+ dataset +:+
                                " does not exist or is not supported"))
      else ret tt
  end.

(** Writing a tool's output: refused when the dataset exists and
    [overwriteOutput] is off. *)
Definition write_output (out : string) (fc : FeatureClass) : M unit :=
  a ← get_arc;
  match catalog a !! catalog_path a out with
  | Some _ =>
      if env_overwriteOutput a
      then put_arc (with_catalog a (<[catalog_path a out := fc]> (catalog a)))
      else raise (ExecuteError ("ERROR 000725: Dataset " +:+ out +:+
                                " already exists"))
  | None => put_arc (with_catalog a (<[catalog_path a out := fc]> (catalog a)))
  end.

(** [arcpy.management.CopyFeatures(in_features, out_feature_class)] *)
Definition CopyFeatures (in_features out : string) : M unit :=
  a ← get_arc;
  match catalog a !! catalog_path a in_features with
  | Some fc => write_output out fc
  | None => raise (ExecuteError ("ERROR 000732: Dataset " +:+ in_features +:+
                                 " does not exist or is not supported"))
  end.

(** [arcpy.Append_management(inputs, target)] with the default schema test:
    the rows of the input are added after the rows of the target when the
    two have the same fields. *)
Definition Append_management (inputs target : string) : M unit :=
  a ← get_arc;
  match catalog a !! catalog_path a inputs, catalog a !! catalog_path a target with
  | Some i, Some t =>
      if bool_decide (fc_fields i = fc_fields t)
      then put_arc (with_catalog a
             (<[catalog_path a target :=
                  {| fc_fields := fc_fields t;
                     fc_rows := fc_rows t ++ fc_rows i |}]> (catalog a)))
      else raise (ExecuteError "ERROR 000466: schema does not match the target")
  | _, _ => raise (ExecuteError "ERROR 000732: Dataset does not exist")
  end.

(** [arcpy.CreateFileGDB_management(out_folder_path, out_name)] *)
Definition CreateFileGDB_management (out_folder_path : Path) (out_name : string)
  : M unit :=
  f ← get_fs;
  match node_at f out_folder_path with
  | Some Dir =>
      match f !! (out_folder_path ++ [out_name]) with
      | None => put_fs (<[out_folder_path ++ [out_name] := Dir]> f)
      | Some _ => raise (ExecuteError "ERROR 000258: Output already exists")
      end
  | _ => raise (ExecuteError "ERROR 000732: Output folder does not exist")
  end.

Section Engine.

(** What the Spatial Join tool computes from the two shapefiles it is
    given, as stored in the file system; [None] when the tool fails
    (a missing companion file, a geometry error). *)
Variable spatial_join : FS → Path → Path → option FeatureClass.

(** [arcpy.analysis.SpatialJoin(target, join, out, join_operation)] *)
Definition SpatialJoin (target_features join_features : Path)
    (out_feature_class join_operation : string) : M unit :=
  f ← get_fs;
  match spatial_join f target_features join_features with
  | Some fc => write_output out_feature_class fc
  | None => raise (ExecuteError "ERROR 999999: Spatial Join failed")
  end.

(** [ku_number] is one path component, as [ku.name] is. *)
Definition process_single_ku (self : KUParser) (ku_number : option string)
  : M unit :=
  ku_number ← match ku_number with
              | None => input "Enter KU number: "
              | Some k => ret k
              end;
  let target_fc := unpacked_path self ++ [ku_number; "PARCELY_KN_P.shp"] in
  let join_fc := unpacked_path self ++ [ku_number; "PARCELY_KN_DEF.shp"] in
  SpatialJoin target_fc join_fc "in_memory/spatial_join" "JOIN_ONE_TO_ONE" ;;
  ex ← Exists "KU";
  (if ex then Append_management "in_memory/spatial_join" "KU"
   else CopyFeatures "in_memory/spatial_join" "KU") ;;
  Delete_management "in_memory/spatial_join".

Definition upload_data_to_gdb (self : KUParser) : M unit :=
  f ← get_fs;
  (if bool_decide (is_Some (node_at f (gdb_path self)))
   then Delete_management "KU"
   else CreateFileGDB_management (parent (gdb_path self)) (name (gdb_path self))) ;;
  set_workspace (gdb_path self) ;;
  set_XYDomain "-916406 -1234597 -419902 -738093" ;;
  sr ← SpatialReference "S-JTSK_Krovak_East_North";
  set_overwriteOutput true ;;
  set_parallelProcessingFactor "100%" ;;
  f ← get_fs;
  let ku_names := glob (unpacked_path self) any_pattern f in
  for_each ku_names (λ ku,
    try_except (process_single_ku self (Some (name ku)))
      (λ e, logging_warning ("Error processing KU: " +:+ name ku +:+
                             ". Error: " +:+ exn_msg e))) ;;
  print ("Resulting GDB file path: " +:+ path_str (gdb_path self)).

(** ** KuDownloader and the driver *)

Record Config := {
  cfg_download_path : option Path;
  cfg_download_list : option (list string);
  cfg_gdb_path : option Path
}.

(** [config[key]] *)
Definition config_get {A} (key : string) (v : option A) : M A :=
  match v with
  | Some a => ret a
  | None => raise (Exn "KeyError" key)
  end.

(** The collaborators the program only calls: reading and parsing
    [config.yaml], and the browser. *)
Variable load_config : M Config.
Variable WebDriver WebElement : Type.
Variable webdriver_Chrome : Path → M WebDriver.
Variable driver_get : WebDriver → string → M unit.
Variable find_elements : WebDriver → string → M (list WebElement).
Variable click : WebElement → M unit.

Definition KUParser_init : M KUParser :=
  config ← load_config;
  dp ← config_get "download_path" (cfg_download_path config);
  gp ← config_get "gdb_path" (cfg_gdb_path config);
  ret {| download_path := dp; gdb_path := gp |}.

Record KuDownloader := {
  kd_download_path : Path;
  kd_driver : WebDriver;
  kd_download_list : list string
}.

Definition KuDownloader_init : M KuDownloader :=
  config ← load_config;
  dp ← config_get "download_path" (cfg_download_path config);
  f ← get_fs;
  (if bool_decide (is_Some (node_at f dp)) then ret tt else on_fs (mkdir dp false)) ;;
  driver ← webdriver_Chrome dp;
  dl ← config_get "download_list" (cfg_download_list config);
  ret {| kd_download_path := dp; kd_driver := driver; kd_download_list := dl |}.

Definition download_all_kus (self : KuDownloader) : M unit :=
  try_except
    (driver_get (kd_driver self) "https://services.cuzk.cz/shp/ku/epsg-5514/" ;;
     x ← find_elements (kd_driver self) "a";
     for_each (drop 2 x) (λ link, click link))
    (λ e, raise (Exn "Exception"
                   ("Error occurred while downloading KUs. Error: " +:+
                    exn_msg e))).

Definition download_and_process_kus : M unit :=
  try_except
    (kd ← KuDownloader_init;
     download_all_kus kd ;;
     kp ← KUParser_init;
     extract_zip_files kp ;;
     upload_data_to_gdb kp ;;
     remove_zip_files kp None ;;
     remove_unpacked_files kp ;;
     print "Done")
    (λ e, print ("An error occurred: " +:+ exn_msg e)).

End Engine.

(** ** Notions used to state the properties *)

(** Every run of [c] relates the world it starts in to the world it ends in. *)
Definition preserves (R : relation World) {A} (c : M A) : Prop :=
  ∀ w, R w (c w).2.

Definition same_fs : relation World := λ w w', fs w' = fs w.

Definition same_arc : relation World := λ w w', arc w' = arc w.

Definition same_stdout : relation World := λ w w', stdout w' = stdout w.

Definition same_coordinate_system : relation World := λ w w',
  env_outputCoordinateSystem (arc w') = env_outputCoordinateSystem (arc w).

(** Nothing that exists is removed or changed. *)
Definition fs_kept : relation World := λ w w',
  ∀ p n, fs w !! p = Some n → fs w' !! p = Some n.

(** The catalog path of the transient result of the join. *)
Definition transient : Path := ["in_memory"; "spatial_join"].

(** ** Sample inputs *)

Module Sample.

Definition kp : KUParser :=
  {| download_path := ["data"]; gdb_path := ["out"; "ku.gdb"] |}.

Definition bytes1 : list Byte.byte := [Byte.x01].
Definition bytes2 : list Byte.byte := [Byte.x02].

Definition parcels : FeatureClass :=
  {| fc_fields := ["PARCEL"; "DEF"]; fc_rows := [["p1"; "d1"]; ["p2"; "d1"]] |}.

(** A store left by an earlier run, with the schema of the joins. *)
Definition stale : FeatureClass :=
  {| fc_fields := ["PARCEL"; "DEF"]; fc_rows := [["old"; "old"]] |}.

(** A store whose schema differs from that of the joins. *)
Definition foreign : FeatureClass :=
  {| fc_fields := ["OTHER"]; fc_rows := [["x"]] |}.

(** A join tool that succeeds when both shapefiles are there. *)
Definition join_tool (f : FS) (t j : Path) : option FeatureClass :=
  match f !! t, f !! j with
  | Some (File _ _), Some (File _ _) => Some parcels
  | _, _ => None
  end.

Definition arc_with (ws : option Path) (c : gmap Path FeatureClass)
    (strict : bool) : Arcpy :=
  {| env_workspace := ws; env_XYDomain := None;
     env_outputCoordinateSystem := None; env_overwriteOutput := false;
     env_parallelProcessingFactor := None; catalog := c;
     strict_delete := strict |}.

Definition world (f : FS) (a : Arcpy) : World :=
  {| fs := f; arc := a; warnings := []; stdout := []; stdin := [] |}.

(** Unit 100 unpacked, the geodatabase already there. *)
Definition fs_unpacked : FS :=
  list_to_map
    [(["data"], Dir); (["out"], Dir); (["out"; "ku.gdb"], Dir);
     (["data"; "unpacked"], Dir); (["data"; "unpacked"; "100"], Dir);
     (["data"; "unpacked"; "100"; "PARCELY_KN_P.shp"], File (Raw bytes1) false);
     (["data"; "unpacked"; "100"; "PARCELY_KN_DEF.shp"], File (Raw bytes2) false)].

Definition KU : Path := ["out"; "ku.gdb"; "KU"].

End Sample.

(** The world after the engine has replaced its catalog by [c]. *)
Definition set_catalog (c : gmap Path FeatureClass) (w : World) : World :=
  (put_arc (with_catalog (arc w) c) w).2.

(** [p] is a regular file the process may unlink. *)
Definition deletable (f : FS) (p : Path) : bool :=
  match node_at f p with
  | Some (File _ false) => true
  | _ => false
  end.

(** The paths [remove_zip_files] goes through. *)
Definition removal_targets (self : KUParser) (ku_list : option (list Path))
    (f : FS) : list Path :=
  match ku_list with
  | None => glob (download_path self) zip_pattern f
  | Some l => l
  end.

(** Where [extract_member m targetdir] writes. *)
Definition targetpath (targetdir : Path) (m : ZipInfo) : Path :=
  targetdir ++ arcname m.

(** What extraction may do to a node that exists: nothing to a directory or
    to a locked file, and only change the content of an unlocked file. *)
Definition kind_kept (n n' : node) : Prop :=
  match n with
  | Dir => n' = Dir
  | File c true => n' = File c true
  | File c false => ∃ c', n' = File c' false
  end.

(** [g] has every node of [f]: unchanged outside the tree of [U], of the
    same kind inside. *)
Definition grows (U : Path) (f g : FS) : Prop :=
  ∀ p n, f !! p = Some n →
    ∃ n', g !! p = Some n' ∧
          if decide (U `prefix_of` p) then kind_kept n n' else n' = n.

(** Two runs from [f] and from [g], ending in [f'] and [g'], did the same to
    each path: they left the same node there, or both left it alone. *)
Definition same_writes (f f' g g' : FS) : Prop :=
  ∀ p, g' !! p = f' !! p ∨ (g' !! p = g !! p ∧ f' !! p = f !! p).

(** What [extract_zip_file] and [extract_zip_files] do, seen from the file
    system alone (shown below to be their effect on it). *)
Definition extract_zip_file_fs (self : KUParser) (zip_file : Path)
    (to_extract : list string) : ST FS unit :=
  zf ← ZipFile zip_file;
  extractall (unpacked_path self) (filter (λ x, base_name x ∈ to_extract) zf).

Definition extract_zip_files_fs (self : KUParser) : ST FS unit :=
  mkdir (unpacked_path self) true ;;
  f ← get;
  for_each (glob (download_path self) zip_pattern f) (λ zip_file,
    try_except (extract_zip_file_fs self zip_file to_extract) (λ _, ret tt)).

(** A change at [p] is within reach of extraction into [U]: on the way to
    [U] or below it. *)
Definition reach (U p : Path) : Prop := p `prefix_of` U ∨ U `prefix_of` p.

(** [c] only adds to the file system, and only within reach of [U]. *)
Definition tame (U : Path) {A} (c : ST FS A) : Prop :=
  ∀ f r f', c f = (r, f') →
    grows U f f' ∧ ∀ p, f' !! p = f !! p ∨ reach U p.

(** Run again on a file system that has what the first run left, [c] ends
    the same way and writes the same. *)
Definition again (U : Path) {A} (c : ST FS A) : Prop :=
  ∀ f g r f', c f = (r, f') → grows U f' g →
    ∃ g', c g = (r, g') ∧ same_writes f f' g g'.

Module Staging.

(** A staging directory with three downloads: [100.zip] holds the ten
    manifest files in an internal directory [export/]; [101.zip] holds one
    manifest file and a file that is not in the manifest; [103.zip] is not a
    zip archive. *)
Definition member (n : string) (b : list Byte.byte) : ZipInfo :=
  {| filename := n; payload := b; state := Intact |}.

Definition zip100 : content :=
  Zip ((λ n, member ("export/" +:+ n) Sample.bytes1) <$> to_extract).

Definition zip101 : content :=
  Zip [member "101/PARCELY_KN_P.shp" Sample.bytes2;
       member "101/readme.txt" Sample.bytes1].

Definition staged : FS :=
  list_to_map
    [(["data"], Dir);
     (["data"; "100.zip"], File zip100 false);
     (["data"; "101.zip"], File zip101 false);
     (["data"; "103.zip"], File (Raw Sample.bytes1) false)].

Definition w0 : World := Sample.world staged (Sample.arc_with None ∅ false).

End Staging.

(** [c'] is what [c] does to the file system, whatever the rest of the
    world is. *)
Definition fs_effect {A} (c : M A) (c' : ST FS A) : Prop :=
  ∀ w, (c w).1 = (c' (fs w)).1 ∧ fs (c w).2 = (c' (fs w)).2.

(** One turn of a loop whose body is wrapped in [try ... except Exception as
    e: logging.warning(msg)]: the body runs; when it raises, what it did
    stays and one warning is logged. *)
Definition guarded_step {A} (body : A → M unit) (msg : A → exn → string)
    (w : World) (x : A) : World :=
  match body x w with
  | (Ok _, w1) => w1
  | (Raise e, w1) => (logging_warning (msg x e) w1).2
  end.

(** Two worlds with the same files, engine state and pending input: they
    differ by what was logged and printed only. *)
Definition same_data : relation World := λ w1 w2,
  fs w1 = fs w2 ∧ arc w1 = arc w2 ∧ stdin w1 = stdin w2.

(** [c] does not look at what was logged or printed. *)
Definition log_blind {A} (c : M A) : Prop :=
  ∀ w1 w2, same_data w1 w2 →
    (c w1).1 = (c w2).1 ∧ same_data (c w1).2 (c w2).2.

(** The extraction loop followed by the accumulation, over a given list of
    archives. *)
Definition extract_then_accumulate
    (sj : FS → Path → Path → option FeatureClass) (self : KUParser)
    (zip_files : list Path) : M unit :=
  for_each zip_files (λ zip_file,
    try_except (extract_zip_file self zip_file to_extract)
      (λ e, logging_warning ("Error extracting zip file: " +:+
                             path_str zip_file))) ;;
  upload_data_to_gdb sj self.


(** The world once [upload_data_to_gdb] has made its assignments to
    [arcpy.env]. *)
Definition configured (self : KUParser) (w : World) : World :=
  {| fs := fs w;
     arc := {| env_workspace := Some (gdb_path self);
               env_XYDomain := Some "-916406 -1234597 -419902 -738093";
               env_outputCoordinateSystem := env_outputCoordinateSystem (arc w);
               env_overwriteOutput := true;
               env_parallelProcessingFactor := Some "100%";
               catalog := catalog (arc w);
               strict_delete := strict_delete (arc w) |};
     warnings := warnings w; stdout := stdout w; stdin := stdin w |}.

(** The settings of the geoprocessing environment are those of [w]. *)
Definition same_settings : relation World := λ w w',
  env_workspace (arc w') = env_workspace (arc w) ∧
  env_XYDomain (arc w') = env_XYDomain (arc w) ∧
  env_outputCoordinateSystem (arc w') = env_outputCoordinateSystem (arc w) ∧
  env_overwriteOutput (arc w') = env_overwriteOutput (arc w) ∧
  env_parallelProcessingFactor (arc w') = env_parallelProcessingFactor (arc w) ∧
  strict_delete (arc w') = strict_delete (arc w).

(** In the catalog, only the store KU of the current workspace and the
    transient result of the join may differ; files, settings and warnings
    are the same. *)
Definition store_and_transient_only : relation World := λ w w',
  fs w' = fs w ∧ warnings w' = warnings w ∧ same_settings w w' ∧
  ∀ p, p ≠ catalog_path (arc w) "KU" → p ≠ transient →
       catalog (arc w') !! p = catalog (arc w) !! p.

(** What the join of the two layers of a unit gives, from the files below
    [unpacked]. *)
Definition joined (sj : FS → Path → Path → option FeatureClass)
    (self : KUParser) (f : FS) (ku_number : string) : option FeatureClass :=
  sj f (unpacked_path self ++ [ku_number; "PARCELY_KN_P.shp"])
       (unpacked_path self ++ [ku_number; "PARCELY_KN_DEF.shp"]).

(** The store after one more unit: a unit whose join failed leaves it as it
    is; the first joined unit makes it; a later one is appended when its
    fields are those of the store, and is dropped when they are not. *)
Definition accumulate (store fc : option FeatureClass) : option FeatureClass :=
  match fc, store with
  | None, _ => store
  | Some fc, None => Some fc
  | Some fc, Some t =>
      if bool_decide (fc_fields fc = fc_fields t)
      then Some {| fc_fields := fc_fields t; fc_rows := fc_rows t ++ fc_rows fc |}
      else Some t
  end.

(** Nothing was printed and nothing was read. *)
Definition same_io : relation World := λ w w',
  stdout w' = stdout w ∧ stdin w' = stdin w.

(** The first statement of [upload_data_to_gdb]: the container is created
    when absent; when present, the dataset KU is deleted. *)
Definition container_step (self : KUParser) : M unit :=
  f ← get_fs;
  if bool_decide (is_Some (node_at f (gdb_path self)))
  then Delete_management "KU"
  else CreateFileGDB_management (parent (gdb_path self)) (name (gdb_path self)).

(** ** A configuration and a browser for the examples *)

Module Browser.

Definition config : Config :=
  {| cfg_download_path := Some ["data"];
     cfg_download_list := Some [];
     cfg_gdb_path := Some ["out"; "ku.gdb"] |}.

Definition load_config : M Config := ret config.

(** The driver stands for the page it shows: the texts of its anchors. *)
Definition Chrome (download_dir : Path) : M (list string) :=
  ret ["Name"; "Parent Directory"; "100.zip"; "101.zip"].

Definition driver_get (driver : list string) (url : string) : M unit := ret tt.

Definition find_elements (driver : list string) (tag : string)
  : M (list string) := ret driver.

(** A click on an anchor that went stale fails. *)
Definition click (link : string) : M unit :=
  if String.eqb link "stale"
  then raise (Exn "StaleElementReferenceException" "stale element reference")
  else ret tt.

End Browser.


(** The tree at [p] can be removed: [p] is a directory, every entry below it
    lies in a directory that is there, and none of them is a locked file. *)
Definition removable (f : FS) (p : Path) : Prop :=
  f !! p = Some Dir ∧
  ∀ q n, f !! q = Some n → p `prefix_of` q → q ≠ p →
    f !! parent q = Some Dir ∧ ∀ c, n ≠ File c true.

(** The entries at or below [p]. *)
Definition below (f : FS) (p : Path) : FS :=
  filter (λ kv : Path * node, p `prefix_of` kv.1) f.

(** The loop of [extract_zip_files], over a given list of archives. *)
Definition extract_loop (self : KUParser) (zip_files : list Path) : M unit :=
  for_each zip_files (λ zip_file,
    try_except (extract_zip_file self zip_file to_extract)
      (λ e, logging_warning ("Error extracting zip file: " +:+
                             path_str zip_file))).

(** The classes of the standard library that derive from [BaseException]
    and not from [Exception]: a handler [except Exception] does not catch
    them. *)
Definition exit_classes : list string :=
  ["BaseException"; "KeyboardInterrupt"; "SystemExit"; "GeneratorExit";
   "BaseExceptionGroup"; "CancelledError"].

(** [isinstance(e, Exception)], by the class of [e]. *)
Definition is_Exception (e : exn) : bool :=
  bool_decide (exn_class e ∉ exit_classes).


(** * Properties *)

(** ** Running computations *)

Ltac munfold :=
  unfold bind, ret, raise, try_except, get, put, on_fs, get_fs, put_fs,
    get_arc, put_arc, logging_warning, print in *.

Lemma bind_Ok {S A B} (c : ST S A) (k : A → ST S B) w a w1 :
  c w = (Ok a, w1) → bind c k w = k a w1.
Proof. intros H. unfold bind. by rewrite H. Qed.

Lemma bind_Raise {S A B} (c : ST S A) (k : A → ST S B) w e w1 :
  c w = (Raise e, w1) → bind c k w = (Raise e, w1).
Proof. intros H. unfold bind. by rewrite H. Qed.

Lemma bind_inv_Ok {S A B} (c : ST S A) (k : A → ST S B) w b w' :
  bind c k w = (Ok b, w') → ∃ a w1, c w = (Ok a, w1) ∧ k a w1 = (Ok b, w').
Proof.
  unfold bind. destruct (c w) as [[a|e] w1]; [eauto | discriminate].
Qed.


(** ** Relations every step of a computation maintains *)

Section Preserves.
Context (R : relation World) `{!PreOrder R}.

Lemma preserves_ret {A} (a : A) : preserves R (ret a).
Proof. intros w. simpl. reflexivity. Qed.

Lemma preserves_raise {A} e : preserves R (@raise World A e).
Proof. intros w. simpl. reflexivity. Qed.

Lemma preserves_get_fs : preserves R get_fs.
Proof. intros w. simpl. reflexivity. Qed.

Lemma preserves_get_arc : preserves R get_arc.
Proof. intros w. simpl. reflexivity. Qed.

Lemma preserves_bind {A B} (c : M A) (k : A → M B) :
  preserves R c → (∀ a, preserves R (k a)) → preserves R (bind c k).
Proof.
  intros Hc Hk w. unfold bind. specialize (Hc w).
  destruct (c w) as [[a|e] w1]; simpl in *; [|done].
  etrans; [exact Hc | apply Hk].
Qed.

Lemma preserves_try_except {A} (c : M A) h :
  preserves R c → (∀ e, preserves R (h e)) → preserves R (try_except c h).
Proof.
  intros Hc Hh w. unfold try_except. specialize (Hc w).
  destruct (c w) as [[a|e] w1]; simpl in *; [done|].
  etrans; [exact Hc | apply Hh].
Qed.

Lemma preserves_for_each {A} (l : list A) (body : A → M unit) :
  (∀ x, preserves R (body x)) → preserves R (for_each l body).
Proof.
  intros Hb. induction l as [|x l IH]; simpl.
  - apply preserves_ret.
  - apply preserves_bind; [apply Hb | intros _; apply IH].
Qed.

End Preserves.

Create HintDb pres.

Ltac preserves_step :=
  lazymatch goal with
  | |- preserves _ (bind _ _) => apply preserves_bind; [apply _ | | intros ?]
  | |- preserves _ (ret _) => apply preserves_ret; apply _
  | |- preserves _ (raise _) => apply preserves_raise; apply _
  | |- preserves _ get_fs => apply preserves_get_fs; apply _
  | |- preserves _ get_arc => apply preserves_get_arc; apply _
  | |- preserves _ (try_except _ _) =>
      apply preserves_try_except; [apply _ | | intros ?]
  | |- preserves _ (for_each _ _) =>
      apply preserves_for_each; [apply _ | intros ?]
  | |- preserves _ (match ?x with _ => _ end) => destruct x
  end.

Ltac preserves_tac :=
  repeat first [ solve [auto with pres] | preserves_step ].

Global Instance same_fs_preorder : PreOrder same_fs.
Proof. split; [done | intros x y z; unfold same_fs; congruence]. Qed.

Global Instance same_arc_preorder : PreOrder same_arc.
Proof. split; [done | intros x y z; unfold same_arc; congruence]. Qed.

Global Instance same_stdout_preorder : PreOrder same_stdout.
Proof. split; [done | intros x y z; unfold same_stdout; congruence]. Qed.

Global Instance same_coordinate_system_preorder : PreOrder same_coordinate_system.
Proof.
  split; [done | intros x y z; unfold same_coordinate_system; congruence].
Qed.

Global Instance fs_kept_preorder : PreOrder fs_kept.
Proof. split; [by intros x p n Hp | intros x y z Hxy Hyz p n Hp; eauto]. Qed.

(** ** The engine calls leave the files alone and never set the spatial
    reference of the environment *)

Ltac arc_op :=
  intros w; unfold same_fs, same_arc, same_stdout, same_coordinate_system;
  munfold; simpl;
  repeat (case_match; simpl; try done); try reflexivity.

Lemma Delete_management_same_fs d : preserves same_fs (Delete_management d).
Proof. unfold Delete_management. arc_op. Qed.

Lemma write_output_same_fs out fc : preserves same_fs (write_output out fc).
Proof. unfold write_output. arc_op. Qed.

Lemma CopyFeatures_same_fs i o : preserves same_fs (CopyFeatures i o).
Proof. unfold CopyFeatures, write_output. arc_op. Qed.

Lemma Append_management_same_fs i t : preserves same_fs (Append_management i t).
Proof. unfold Append_management. arc_op. Qed.

Lemma Exists_same_fs d : preserves same_fs (Exists d).
Proof. unfold Exists. arc_op. Qed.

Lemma SpatialJoin_same_fs sj t j o op : preserves same_fs (SpatialJoin sj t j o op).
Proof. unfold SpatialJoin, write_output. arc_op. Qed.

Lemma input_same_fs prompt : preserves same_fs (input prompt).
Proof. unfold input. arc_op. Qed.

Lemma logging_warning_same_fs msg : preserves same_fs (logging_warning msg).
Proof. by intros w. Qed.

Lemma print_same_fs msg : preserves same_fs (print msg).
Proof. by intros w. Qed.

#[export] Hint Resolve Delete_management_same_fs write_output_same_fs
  CopyFeatures_same_fs Append_management_same_fs Exists_same_fs
  SpatialJoin_same_fs input_same_fs logging_warning_same_fs print_same_fs : pres.

Lemma process_single_ku_same_fs sj self ku :
  preserves same_fs (process_single_ku sj self ku).
Proof. unfold process_single_ku. preserves_tac. Qed.

Lemma Delete_management_same_cs d :
  preserves same_coordinate_system (Delete_management d).
Proof. unfold Delete_management. arc_op. Qed.

Lemma write_output_same_cs out fc :
  preserves same_coordinate_system (write_output out fc).
Proof. unfold write_output. arc_op. Qed.

Lemma CopyFeatures_same_cs i o :
  preserves same_coordinate_system (CopyFeatures i o).
Proof. unfold CopyFeatures, write_output. arc_op. Qed.

Lemma Append_management_same_cs i t :
  preserves same_coordinate_system (Append_management i t).
Proof. unfold Append_management. arc_op. Qed.

Lemma Exists_same_cs d : preserves same_coordinate_system (Exists d).
Proof. unfold Exists. arc_op. Qed.

Lemma SpatialJoin_same_cs sj t j o op :
  preserves same_coordinate_system (SpatialJoin sj t j o op).
Proof. unfold SpatialJoin, write_output. arc_op. Qed.

Lemma CreateFileGDB_management_same_cs d n :
  preserves same_coordinate_system (CreateFileGDB_management d n).
Proof. unfold CreateFileGDB_management. arc_op. Qed.

Lemma set_workspace_same_cs p : preserves same_coordinate_system (set_workspace p).
Proof. unfold set_workspace. arc_op. Qed.

Lemma set_XYDomain_same_cs d : preserves same_coordinate_system (set_XYDomain d).
Proof. unfold set_XYDomain. arc_op. Qed.

Lemma set_overwriteOutput_same_cs b :
  preserves same_coordinate_system (set_overwriteOutput b).
Proof. unfold set_overwriteOutput. arc_op. Qed.

Lemma set_parallelProcessingFactor_same_cs f :
  preserves same_coordinate_system (set_parallelProcessingFactor f).
Proof. unfold set_parallelProcessingFactor. arc_op. Qed.

Lemma SpatialReference_same_cs n :
  preserves same_coordinate_system (SpatialReference n).
Proof. unfold SpatialReference. arc_op. Qed.

Lemma input_same_cs prompt : preserves same_coordinate_system (input prompt).
Proof. unfold input. arc_op. Qed.

Lemma logging_warning_same_cs msg :
  preserves same_coordinate_system (logging_warning msg).
Proof. by intros w. Qed.

Lemma print_same_cs msg : preserves same_coordinate_system (print msg).
Proof. by intros w. Qed.

#[export] Hint Resolve Delete_management_same_cs write_output_same_cs
  CopyFeatures_same_cs Append_management_same_cs Exists_same_cs
  SpatialJoin_same_cs CreateFileGDB_management_same_cs set_workspace_same_cs
  set_XYDomain_same_cs set_overwriteOutput_same_cs
  set_parallelProcessingFactor_same_cs SpatialReference_same_cs input_same_cs
  logging_warning_same_cs print_same_cs : pres.

Lemma process_single_ku_same_cs sj self ku :
  preserves same_coordinate_system (process_single_ku sj self ku).
Proof. unfold process_single_ku. preserves_tac. Qed.

#[export] Hint Resolve process_single_ku_same_fs process_single_ku_same_cs : pres.

Lemma upload_data_to_gdb_same_cs sj self :
  preserves same_coordinate_system (upload_data_to_gdb sj self).
Proof. unfold upload_data_to_gdb. preserves_tac. Qed.

(** ** What the engine calls do to the catalog *)

Lemma catalog_path_KU a :
  catalog_path a "KU" = default [] (env_workspace a) ++ ["KU"].
Proof. reflexivity. Qed.

Lemma KU_ne_transient a : catalog_path a "KU" ≠ transient.
Proof.
  rewrite catalog_path_KU. intros H.
  apply (f_equal last) in H. rewrite last_snoc in H. discriminate.
Qed.

Lemma SpatialJoin_Ok sj t j op w w1 :
  SpatialJoin sj t j "in_memory/spatial_join" op w = (Ok tt, w1) →
  ∃ fc, sj (fs w) t j = Some fc ∧
        w1 = set_catalog (<[transient := fc]> (catalog (arc w))) w.
Proof.
  unfold SpatialJoin, write_output, set_catalog. munfold.
  destruct (sj (fs w) t j) as [fc|]; [|discriminate].
  intros H. exists fc. split; [done|].
  repeat case_match; simplify_eq; done.
Qed.

Lemma Delete_management_present d fc w :
  catalog (arc w) !! catalog_path (arc w) d = Some fc →
  Delete_management d w =
  (Ok tt, set_catalog (delete (catalog_path (arc w) d) (catalog (arc w))) w).
Proof. intros H. unfold Delete_management. munfold. by rewrite H. Qed.

Lemma CopyFeatures_fresh i o fc w :
  catalog (arc w) !! catalog_path (arc w) i = Some fc →
  catalog (arc w) !! catalog_path (arc w) o = None →
  CopyFeatures i o w =
  (Ok tt, set_catalog (<[catalog_path (arc w) o := fc]> (catalog (arc w))) w).
Proof.
  intros Hi Ho. unfold CopyFeatures, write_output. munfold. by rewrite Hi, Ho.
Qed.

Lemma Append_management_present i t fi ft w :
  catalog (arc w) !! catalog_path (arc w) i = Some fi →
  catalog (arc w) !! catalog_path (arc w) t = Some ft →
  Append_management i t w =
  if bool_decide (fc_fields fi = fc_fields ft)
  then (Ok tt, set_catalog
                 (<[catalog_path (arc w) t :=
                      {| fc_fields := fc_fields ft;
                         fc_rows := fc_rows ft ++ fc_rows fi |}]>
                    (catalog (arc w))) w)
  else (Raise (ExecuteError "ERROR 000466: schema does not match the target"), w).
Proof.
  intros Hi Ht. unfold Append_management. munfold. rewrite Hi, Ht.
  by case_bool_decide.
Qed.

Lemma process_single_ku_after_join sj self ku w :
  process_single_ku sj self (Some ku) w =
  match SpatialJoin sj (unpacked_path self ++ [ku; "PARCELY_KN_P.shp"])
          (unpacked_path self ++ [ku; "PARCELY_KN_DEF.shp"])
          "in_memory/spatial_join" "JOIN_ONE_TO_ONE" w with
  | (Ok _, w1) =>
      ((if bool_decide (is_Some (catalog (arc w1) !! catalog_path (arc w1) "KU"))
        then Append_management "in_memory/spatial_join" "KU"
        else CopyFeatures "in_memory/spatial_join" "KU") ;;
       Delete_management "in_memory/spatial_join") w1
  | (Raise e, w1) => (Raise e, w1)
  end.
Proof.
  unfold process_single_ku. unfold bind at 1. unfold ret at 1.
  unfold bind at 1. destruct (SpatialJoin _ _ _ _ _ w) as [[[]|e] w1]; [|done].
  unfold bind at 1. unfold Exists at 1. munfold. done.
Qed.

Lemma catalog_path_set_catalog c w d :
  catalog_path (arc (set_catalog c w)) d = catalog_path (arc w) d.
Proof. done. Qed.

Lemma catalog_set_catalog c w : catalog (arc (set_catalog c w)) = c.
Proof. done. Qed.

(** The fold of the transient result into the store, then its removal. *)
Lemma fold_then_discard fc w :
  catalog (arc w) !! transient = Some fc →
  ((if bool_decide (is_Some (catalog (arc w) !! catalog_path (arc w) "KU"))
    then Append_management "in_memory/spatial_join" "KU"
    else CopyFeatures "in_memory/spatial_join" "KU") ;;
   Delete_management "in_memory/spatial_join") w =
  match catalog (arc w) !! catalog_path (arc w) "KU" with
  | None =>
      (Ok tt, set_catalog
                (delete transient
                   (<[catalog_path (arc w) "KU" := fc]> (catalog (arc w)))) w)
  | Some t =>
      if bool_decide (fc_fields fc = fc_fields t)
      then (Ok tt, set_catalog
                     (delete transient
                        (<[catalog_path (arc w) "KU" :=
                             {| fc_fields := fc_fields t;
                                fc_rows := fc_rows t ++ fc_rows fc |}]>
                           (catalog (arc w)))) w)
      else (Raise (ExecuteError "ERROR 000466: schema does not match the target"),
            w)
  end.
Proof.
  intros Hfc. pose proof (KU_ne_transient (arc w)) as Hne.
  destruct (catalog (arc w) !! catalog_path (arc w) "KU") as [t|] eqn:Ht.
  - rewrite bool_decide_eq_true_2 by eauto.
    unfold bind. rewrite (Append_management_present _ _ fc t) by done.
    case_bool_decide; [|done].
    rewrite (Delete_management_present _ fc).
    + done.
    + rewrite catalog_set_catalog. change (catalog_path _ "in_memory/spatial_join") with transient.
      by rewrite lookup_insert_ne.
  - rewrite bool_decide_eq_false_2 by (by intros [? ?]).
    unfold bind. rewrite (CopyFeatures_fresh _ _ fc) by done.
    rewrite (Delete_management_present _ fc).
    + done.
    + rewrite catalog_set_catalog. change (catalog_path _ "in_memory/spatial_join") with transient.
      by rewrite lookup_insert_ne.
Qed.

Section Fold.
Context (sj : FS → Path → Path → option FeatureClass) (self : KUParser).

(** C2 (as amended): accumulation policy of [process_single_ku].  Once the
    join of a unit has produced its transient result [fc]: when the store KU
    does not exist, the unit is processed without error and the store is
    created as a copy of [fc]; when it exists and [fc] has the fields of the
    store, the rows of [fc] are appended after the rows of the store; when it
    exists and the fields differ, the append is refused, the unit ends with
    the engine's error and the store is left exactly as it was.  In every
    case the store keeps its fields and its former rows, unchanged, as the
    first rows. *)
Theorem process_single_ku_accumulates ku w w1 :
  SpatialJoin sj (unpacked_path self ++ [ku; "PARCELY_KN_P.shp"])
    (unpacked_path self ++ [ku; "PARCELY_KN_DEF.shp"])
    "in_memory/spatial_join" "JOIN_ONE_TO_ONE" w = (Ok tt, w1) →
  ∃ fc, catalog (arc w1) !! transient = Some fc ∧
    let KU := catalog_path (arc w) "KU" in
    let r := process_single_ku sj self (Some ku) w in
    match catalog (arc w) !! KU with
    | None => r.1 = Ok tt ∧ catalog (arc r.2) !! KU = Some fc
    | Some t =>
        (if bool_decide (fc_fields fc = fc_fields t)
         then r.1 = Ok tt ∧
              catalog (arc r.2) !! KU =
                Some {| fc_fields := fc_fields t;
                        fc_rows := fc_rows t ++ fc_rows fc |}
         else (∃ e, r.1 = Raise e ∧ exn_class e = "ExecuteError") ∧
              catalog (arc r.2) !! KU = Some t) ∧
        (∃ t', catalog (arc r.2) !! KU = Some t' ∧
               fc_fields t' = fc_fields t ∧
               fc_rows t `prefix_of` fc_rows t')
    end.
Proof.
  intros Hj. destruct (SpatialJoin_Ok _ _ _ _ _ _ Hj) as (fc & _ & ->).
  exists fc. split; [by rewrite catalog_set_catalog, lookup_insert_eq|].
  intros KU r. subst r. rewrite process_single_ku_after_join, Hj.
  rewrite (fold_then_discard fc)
    by (by rewrite catalog_set_catalog, lookup_insert_eq).
  pose proof (KU_ne_transient (arc w)) as Hne. fold KU in Hne.
  rewrite catalog_path_set_catalog, catalog_set_catalog. fold KU.
  rewrite lookup_insert_ne by done.
  destruct (catalog (arc w) !! KU) as [t|] eqn:Ht.
  - case_bool_decide; simpl.
    + rewrite lookup_delete_ne, lookup_insert_eq by done.
      split; [done|]. eexists. split; [done|]. split; [done|].
      by apply prefix_app_r.
    + rewrite lookup_insert_ne, Ht by done.
      split; [split; [by eexists|done]|]. by exists t.
  - simpl. by rewrite lookup_delete_ne, lookup_insert_eq.
Qed.

(** C6 (as amended): once the join of a unit has produced its transient
    result, [process_single_ku] deletes it when the copy or append succeeds;
    when the copy or append raises, the unit stops there and the transient
    result is still in the catalog. *)
Theorem process_single_ku_discards_on_success ku w w1 :
  SpatialJoin sj (unpacked_path self ++ [ku; "PARCELY_KN_P.shp"])
    (unpacked_path self ++ [ku; "PARCELY_KN_DEF.shp"])
    "in_memory/spatial_join" "JOIN_ONE_TO_ONE" w = (Ok tt, w1) →
  let r := process_single_ku sj self (Some ku) w in
  match r.1 with
  | Ok _ => catalog (arc r.2) !! transient = None
  | Raise _ => r.2 = w1 ∧ is_Some (catalog (arc r.2) !! transient)
  end.
Proof.
  intros Hj. destruct (SpatialJoin_Ok _ _ _ _ _ _ Hj) as (fc & _ & ->).
  intros r. subst r. rewrite process_single_ku_after_join, Hj.
  rewrite (fold_then_discard fc)
    by (by rewrite catalog_set_catalog, lookup_insert_eq).
  repeat case_match; simplify_eq; simpl;
    try (by rewrite lookup_delete_eq).
  split; [done|]. by rewrite lookup_insert_eq.
Qed.

End Fold.

Lemma process_single_ku_accumulates_witness :
  let w := Sample.world Sample.fs_unpacked
             (Sample.arc_with (Some ["out"; "ku.gdb"]) {[Sample.KU := Sample.stale]}
                false) in
  let w1 := (SpatialJoin Sample.join_tool
               (unpacked_path Sample.kp ++ ["100"; "PARCELY_KN_P.shp"])
               (unpacked_path Sample.kp ++ ["100"; "PARCELY_KN_DEF.shp"])
               "in_memory/spatial_join" "JOIN_ONE_TO_ONE" w).2 in
  SpatialJoin Sample.join_tool
    (unpacked_path Sample.kp ++ ["100"; "PARCELY_KN_P.shp"])
    (unpacked_path Sample.kp ++ ["100"; "PARCELY_KN_DEF.shp"])
    "in_memory/spatial_join" "JOIN_ONE_TO_ONE" w = (Ok tt, w1) ∧
  ∃ fc, catalog (arc w1) !! transient = Some fc ∧
    let KU := catalog_path (arc w) "KU" in
    let r := process_single_ku Sample.join_tool Sample.kp (Some "100") w in
    match catalog (arc w) !! KU with
    | None => r.1 = Ok tt ∧ catalog (arc r.2) !! KU = Some fc
    | Some t =>
        (if bool_decide (fc_fields fc = fc_fields t)
         then r.1 = Ok tt ∧
              catalog (arc r.2) !! KU =
                Some {| fc_fields := fc_fields t;
                        fc_rows := fc_rows t ++ fc_rows fc |}
         else (∃ e, r.1 = Raise e ∧ exn_class e = "ExecuteError") ∧
              catalog (arc r.2) !! KU = Some t) ∧
        (∃ t', catalog (arc r.2) !! KU = Some t' ∧
               fc_fields t' = fc_fields t ∧
               fc_rows t `prefix_of` fc_rows t')
    end.
Proof.
  intros w w1.
  assert (H : SpatialJoin Sample.join_tool
    (unpacked_path Sample.kp ++ ["100"; "PARCELY_KN_P.shp"])
    (unpacked_path Sample.kp ++ ["100"; "PARCELY_KN_DEF.shp"])
    "in_memory/spatial_join" "JOIN_ONE_TO_ONE" w = (Ok tt, w1))
    by (vm_compute; reflexivity).
  split; [exact H|].
  exact (process_single_ku_accumulates Sample.join_tool Sample.kp "100" w w1 H).
Defined.

Lemma process_single_ku_discards_on_success_witness :
  let w := Sample.world Sample.fs_unpacked
             (Sample.arc_with (Some ["out"; "ku.gdb"]) ∅ false) in
  let w1 := (SpatialJoin Sample.join_tool
               (unpacked_path Sample.kp ++ ["100"; "PARCELY_KN_P.shp"])
               (unpacked_path Sample.kp ++ ["100"; "PARCELY_KN_DEF.shp"])
               "in_memory/spatial_join" "JOIN_ONE_TO_ONE" w).2 in
  SpatialJoin Sample.join_tool
    (unpacked_path Sample.kp ++ ["100"; "PARCELY_KN_P.shp"])
    (unpacked_path Sample.kp ++ ["100"; "PARCELY_KN_DEF.shp"])
    "in_memory/spatial_join" "JOIN_ONE_TO_ONE" w = (Ok tt, w1) ∧
  let r := process_single_ku Sample.join_tool Sample.kp (Some "100") w in
  match r.1 with
  | Ok _ => catalog (arc r.2) !! transient = None
  | Raise _ => r.2 = w1 ∧ is_Some (catalog (arc r.2) !! transient)
  end.
Proof.
  intros w w1.
  assert (H : SpatialJoin Sample.join_tool
    (unpacked_path Sample.kp ++ ["100"; "PARCELY_KN_P.shp"])
    (unpacked_path Sample.kp ++ ["100"; "PARCELY_KN_DEF.shp"])
    "in_memory/spatial_join" "JOIN_ONE_TO_ONE" w = (Ok tt, w1))
    by (vm_compute; reflexivity).
  split; [exact H|].
  exact (process_single_ku_discards_on_success Sample.join_tool Sample.kp "100"
           w w1 H).
Defined.

(** C6 as stated fails: with a store whose schema differs from that of the
    join, the join of unit 100 succeeds, the append is refused, and the
    transient result is still in the catalog when [process_single_ku]
    returns. *)
Lemma transient_left_after_failed_append :
  let w := Sample.world Sample.fs_unpacked
             (Sample.arc_with (Some ["out"; "ku.gdb"])
                {[Sample.KU := Sample.foreign]} false) in
  (SpatialJoin Sample.join_tool
     (unpacked_path Sample.kp ++ ["100"; "PARCELY_KN_P.shp"])
     (unpacked_path Sample.kp ++ ["100"; "PARCELY_KN_DEF.shp"])
     "in_memory/spatial_join" "JOIN_ONE_TO_ONE" w).1 = Ok tt ∧
  ¬ (catalog (arc (process_single_ku Sample.join_tool Sample.kp (Some "100") w).2)
       !! transient = None).
Proof. split; [by vm_compute | vm_compute; discriminate]. Qed.

(** C2 as stated fails: with a store KU whose fields are not those of the
    join, the join of unit 100 succeeds and the store exists, yet nothing is
    appended: the unit ends with the engine's error, the store is what it
    was, and none of the joined rows is in it.  Run from
    [upload_data_to_gdb], the unit is one of those processed: the run
    returns normally with one warning for it and the same store. *)
Lemma append_refused_on_schema_mismatch :
  let w := Sample.world Sample.fs_unpacked
             (Sample.arc_with (Some ["out"; "ku.gdb"])
                {[Sample.KU := Sample.foreign]} false) in
  let j := SpatialJoin Sample.join_tool
             (unpacked_path Sample.kp ++ ["100"; "PARCELY_KN_P.shp"])
             (unpacked_path Sample.kp ++ ["100"; "PARCELY_KN_DEF.shp"])
             "in_memory/spatial_join" "JOIN_ONE_TO_ONE" w in
  let r := process_single_ku Sample.join_tool Sample.kp (Some "100") w in
  let u := upload_data_to_gdb Sample.join_tool Sample.kp
             (Sample.world Sample.fs_unpacked
                (Sample.arc_with None {[Sample.KU := Sample.foreign]} false)) in
  j.1 = Ok tt ∧
  catalog (arc j.2) !! transient = Some Sample.parcels ∧
  catalog (arc w) !! Sample.KU = Some Sample.foreign ∧
  r.1 = Raise (ExecuteError "ERROR 000466: schema does not match the target") ∧
  catalog (arc r.2) !! Sample.KU = Some Sample.foreign ∧
  ¬ (∃ t' row, catalog (arc r.2) !! Sample.KU = Some t' ∧
               row ∈ fc_rows Sample.parcels ∧ row ∈ fc_rows t') ∧
  u.1 = Ok tt ∧
  warnings u.2 = ["Error processing KU: 100. Error: ERROR 000466: schema does not match the target"] ∧
  catalog (arc u.2) !! Sample.KU = Some Sample.foreign.
Proof.
  intros w j r u. split_and!; try by vm_compute.
  intros (t' & row & Ht & Hr & Hr').
  assert (Hs : catalog (arc r.2) !! Sample.KU = Some Sample.foreign) by (by vm_compute).
  rewrite Hs in Ht. injection Ht as <-.
  simpl in Hr, Hr'. apply list_elem_of_singleton in Hr'. subst row.
  vm_compute in Hr. 
  repeat (apply elem_of_cons in Hr as [Hr|Hr]; [discriminate|]).
  by apply elem_of_nil in Hr.
Qed.

(** C3 (code defect): [upload_data_to_gdb] builds the spatial reference and
    never applies it: whatever the run, the output coordinate system of the
    environment is after the call what it was before.  And the stale store is
    deleted before the workspace is set: with the geodatabase present and a
    store KU left in it, the delete addresses KU in the workspace current at
    that moment, the store stays, and the joined rows of unit 100 are appended
    after the old rows. *)
Theorem upload_data_to_gdb_setup_defects :
  (∀ sj self w,
     env_outputCoordinateSystem (arc (upload_data_to_gdb sj self w).2) =
     env_outputCoordinateSystem (arc w)) ∧
  catalog (arc (upload_data_to_gdb Sample.join_tool Sample.kp
                  (Sample.world Sample.fs_unpacked
                     (Sample.arc_with None {[Sample.KU := Sample.stale]} false))).2)
    !! Sample.KU =
  Some {| fc_fields := ["PARCEL"; "DEF"];
          fc_rows := [["old"; "old"]; ["p1"; "d1"]; ["p2"; "d1"]] |}.
Proof.
  split; [|by vm_compute].
  intros sj self w. apply upload_data_to_gdb_same_cs.
Qed.

(** ** Directory listings *)

Global Instance path_le_total : Total path_le.
Proof. intros p q. unfold path_le. apply (total Pos.le). Qed.

Global Instance path_le_trans : Transitive path_le.
Proof. intros p q r. unfold path_le. apply Pos.le_trans. Qed.

Global Instance path_le_antisymm : AntiSymm (=) path_le.
Proof.
  intros p q H1 H2. unfold path_le in *.
  apply (inj encode). by apply Pos.le_antisym.
Qed.

Lemma elem_of_glob d pat f q :
  q ∈ glob d pat f ↔
  is_Some (f !! q) ∧ child_of d q = true ∧ pat (name q) = true.
Proof.
  unfold glob. rewrite merge_sort_Permutation, list_elem_of_filter.
  rewrite list_elem_of_fmap. rewrite andb_true_iff. split.
  - intros [H [[q' n] [-> Hin]]]. apply elem_of_map_to_list in Hin.
    simpl in *. split; [eauto | done].
  - intros [[n Hn] H]. split; [done|]. exists (q, n). split; [done|].
    by apply elem_of_map_to_list.
Qed.

Lemma NoDup_glob d pat f : NoDup (glob d pat f).
Proof.
  unfold glob. rewrite merge_sort_Permutation.
  apply NoDup_filter, NoDup_fst_map_to_list.
Qed.

Lemma Sorted_glob d pat f : Sorted path_le (glob d pat f).
Proof. apply Sorted_merge_sort, _. Qed.

(** The listing depends on the matching entries only. *)
Lemma glob_ext d pat f g :
  (∀ q, child_of d q = true → pat (name q) = true →
        (is_Some (f !! q) ↔ is_Some (g !! q))) →
  glob d pat f = glob d pat g.
Proof.
  intros H. apply (Sorted_unique path_le); try apply Sorted_glob.
  apply NoDup_Permutation; try apply NoDup_glob.
  intros q. rewrite !elem_of_glob.
  split; intros (Hs & Hc & Hp); (split; [by apply (H q) | done]).
Qed.

(** ** Removing the archives *)

Lemma deletable_node f p :
  deletable f p = true ↔ ∃ c, node_at f p = Some (File c false).
Proof.
  unfold deletable. destruct (node_at f p) as [[c []|]|]; naive_solver.
Qed.

Lemma remove_one_spec p w :
  let r := try_except (on_fs (unlink p))
             (λ e, logging_warning ("Error removing zip file: " +:+ path_str p +:+
                                    ". Error: " +:+ exn_msg e)) w in
  r.1 = Ok tt ∧ arc r.2 = arc w ∧ stdout r.2 = stdout w ∧
  fs r.2 = (if deletable (fs w) p then delete p (fs w) else fs w) ∧
  ∃ ws, warnings r.2 = warnings w ++ ws ∧
        length ws = (if deletable (fs w) p then 0 else 1).
Proof.
  unfold unlink, deletable. munfold. simpl.
  destruct (node_at (fs w) p) as [[c []|]|]; simpl;
    (repeat split; try done); eexists; (split; [|shelve]);
    first [ by rewrite app_nil_r | done ].
  Unshelve. all: done.
Qed.

Lemma deletable_delete_ne f p q :
  p ≠ q → deletable (delete p f) q = deletable f q.
Proof.
  intros Hne. unfold deletable, node_at. destruct q; [done|].
  by rewrite lookup_delete_ne.
Qed.

Lemma deletable_delete_eq f p : p ≠ [] → deletable (delete p f) p = false.
Proof.
  intros Hne. unfold deletable, node_at. destruct p; [done|].
  by rewrite lookup_delete_eq.
Qed.

Lemma deletable_nonroot f p : deletable f p = true → p ≠ [].
Proof. by destruct p. Qed.

Lemma remove_loop_spec l w :
  let r := for_each l (λ ku,
             try_except (on_fs (unlink ku))
               (λ e, logging_warning ("Error removing zip file: " +:+
                                      path_str ku +:+ ". Error: " +:+
                                      exn_msg e))) w in
  r.1 = Ok tt ∧ arc r.2 = arc w ∧ stdout r.2 = stdout w ∧
  (∀ q, q ∈ l → deletable (fs w) q = true → fs r.2 !! q = None) ∧
  (∀ q, ¬ (q ∈ l ∧ deletable (fs w) q = true) → fs r.2 !! q = fs w !! q).
Proof.
  revert w. induction l as [|p l IH]; intros w; simpl.
  - repeat split; try done. intros q Hq. by apply elem_of_nil in Hq.
  - pose proof (remove_one_spec p w) as H. simpl in H.
    destruct (try_except _ _ w) as [r1 w1] eqn:E1. simpl in H.
    destruct H as (-> & Ha & Ho & Hf & _).
    rewrite (bind_Ok _ _ _ _ _ E1).
    specialize (IH w1). simpl in IH.
    destruct (for_each l _ w1) as [r2 w2]. simpl in *.
    destruct IH as (-> & Ha2 & Ho2 & Hdel & Hkeep).
    split; [done|]. split; [congruence|]. split; [congruence|].
    assert (Hother : ∀ q, q ≠ p → deletable (fs w1) q = deletable (fs w) q).
    { intros q Hq. rewrite Hf. destruct (deletable (fs w) p); [|done].
      by apply deletable_delete_ne. }
    split.
    + intros q Hq Hd. destruct (decide (q = p)) as [->|Hne].
      * destruct (decide (p ∈ l ∧ deletable (fs w1) p = true)) as [[? ?]|Hn].
        { by apply Hdel. }
        rewrite Hkeep by done. rewrite Hf, Hd. apply lookup_delete_eq.
      * apply Hdel; [|by rewrite Hother].
        apply elem_of_cons in Hq as [?|?]; done.
    + intros q Hq. destruct (decide (q = p)) as [->|Hne].
      * assert (Hd : deletable (fs w) p = false).
        { destruct (deletable (fs w) p) eqn:E; [|done].
          exfalso. apply Hq. split; [apply list_elem_of_here | done]. }
        rewrite Hkeep; [by rewrite Hf, Hd|].
        intros [_ Hd1]. rewrite Hf, Hd in Hd1. congruence.
      * rewrite Hkeep.
        -- rewrite Hf. destruct (deletable (fs w) p); [|done].
           by rewrite lookup_delete_ne.
        -- intros [Hin Hd1]. apply Hq. split; [by apply list_elem_of_further|].
           by rewrite <- Hother.
Qed.

Lemma remove_zip_files_unfold self ku_list w :
  remove_zip_files self ku_list w =
  for_each (removal_targets self ku_list (fs w)) (λ ku,
    try_except (on_fs (unlink ku))
      (λ e, logging_warning ("Error removing zip file: " +:+ path_str ku +:+
                             ". Error: " +:+ exn_msg e))) w.
Proof. by destruct ku_list. Qed.

Lemma child_of_spec d q :
  child_of d q = true ↔ q ≠ [] ∧ removelast q = d.
Proof.
  unfold child_of, parent. destruct q; [naive_solver|].
  rewrite bool_decide_eq_true. naive_solver.
Qed.

Lemma unpacked_not_zip self q :
  unpacked_path self `prefix_of` q →
  ¬ (child_of (download_path self) q = true ∧ zip_pattern (name q) = true).
Proof.
  intros [k ->] [Hc Hz]. unfold unpacked_path in Hc, Hz.
  apply child_of_spec in Hc as [_ Hc].
  destruct k as [|x k' _] using rev_ind.
  - rewrite app_nil_r in Hz. unfold name, last_item in Hz.
    by rewrite last_snoc in Hz.
  - apply (f_equal length) in Hc. rewrite app_assoc in Hc.
    rewrite removelast_last in Hc. rewrite !length_app in Hc. simpl in Hc. lia.
Qed.

(** C9: which archives [remove_zip_files] removes.  Without a subset, every
    regular file directly in the download directory whose name matches
    [*.zip] is removed; with a subset, the supplied paths are removed and
    every path outside the subset, so every other archive, is left as it was.
    (A file is removed when its [unlink] does not fail.) *)
Theorem remove_zip_files_selective self w :
  (∀ q, child_of (download_path self) q = true → zip_pattern (name q) = true →
        deletable (fs w) q = true →
        fs (remove_zip_files self None w).2 !! q = None) ∧
  (∀ l q, q ∈ l → deletable (fs w) q = true →
          fs (remove_zip_files self (Some l) w).2 !! q = None) ∧
  (∀ l q, q ∉ l → fs (remove_zip_files self (Some l) w).2 !! q = fs w !! q).
Proof.
  split; [|split].
  - intros q Hc Hz Hd. rewrite remove_zip_files_unfold.
    apply remove_loop_spec; [|done]. simpl. apply elem_of_glob.
    split; [|done]. apply deletable_node in Hd as [c Hc'].
    unfold node_at in Hc'. destruct q; [done | eauto].
  - intros l q Hq Hd. rewrite remove_zip_files_unfold.
    by apply remove_loop_spec.
  - intros l q Hq. rewrite remove_zip_files_unfold.
    apply remove_loop_spec. by intros [? _].
Qed.

(** C10: frame of [remove_zip_files] without a subset.  Every path that is
    not an entry of the download directory named [*.zip] is left as it was,
    in particular everything at or below [unpacked/]; no directory is
    removed; the engine and the printed output are untouched. *)
Theorem remove_zip_files_frame self w :
  let w' := (remove_zip_files self None w).2 in
  (∀ q, ¬ (child_of (download_path self) q = true ∧
           zip_pattern (name q) = true) →
        fs w' !! q = fs w !! q) ∧
  (∀ q, unpacked_path self `prefix_of` q → fs w' !! q = fs w !! q) ∧
  (∀ q, fs w !! q = Some Dir → fs w' !! q = Some Dir) ∧
  arc w' = arc w ∧ stdout w' = stdout w.
Proof.
  intros w'. subst w'. rewrite remove_zip_files_unfold.
  pose proof (remove_loop_spec (removal_targets self None (fs w)) w) as H.
  simpl in H. destruct H as (_ & Ha & Ho & _ & Hkeep).
  assert (Hframe : ∀ q, ¬ (child_of (download_path self) q = true ∧
                           zip_pattern (name q) = true) →
     fs (for_each (removal_targets self None (fs w)) (λ ku,
           try_except (on_fs (unlink ku))
             (λ e, logging_warning ("Error removing zip file: " +:+
                                    path_str ku +:+ ". Error: " +:+
                                    exn_msg e))) w).2 !! q = fs w !! q).
  { intros q Hq. apply Hkeep. intros [Hin _]. apply Hq.
    apply elem_of_glob in Hin. tauto. }
  split; [exact Hframe|]. split; [|split; [|done]].
  - intros q Hq. by apply Hframe, unpacked_not_zip.
  - intros q Hq. rewrite <- Hq. apply Hkeep. intros [_ Hd].
    apply deletable_node in Hd as [c Hc]. unfold node_at in Hc.
    destruct q; congruence.
Qed.

(** ** What extraction does to the file system *)

Lemma node_at_insert_Dir (f : FS) p q :
  node_at (<[p := Dir]> f) q = if decide (p = q) then Some Dir else node_at f q.
Proof.
  unfold node_at. destruct q as [|x q].
  - by case_decide.
  - by rewrite lookup_insert.
Qed.

(** [makedirs_from] only adds directories, at prefixes of the path. *)
Lemma makedirs_from_change rest base f r f' :
  makedirs_from base rest f = (r, f') →
  ∀ p, f' !! p = f !! p ∨
       (f !! p = None ∧ f' !! p = Some Dir ∧ p `prefix_of` base ++ rest).
Proof.
  revert base f. induction rest as [|c rest IH]; intros base f; simpl.
  - intros [= <- <-] p. by left.
  - unfold bind at 1, get at 1.
    destruct (f !! (base ++ [c])) as [[? ?|]|] eqn:E.
    + intros [= <- <-] p. by left.
    + intros H p. destruct (IH _ _ H p) as [?|(?&?&?)]; [by left|right].
      by rewrite <- app_assoc in *.
    + unfold bind at 1, put at 1. intros H p.
      destruct (IH _ _ H p) as [Hp|(Hp&?&Hpre)].
      * destruct (decide (p = base ++ [c])) as [->|Hne].
        -- right. rewrite Hp, lookup_insert_eq. split; [done|]. split; [done|].
           by apply prefix_app, prefix_cons, prefix_nil.
        -- left. by rewrite Hp, lookup_insert_ne.
      * right. rewrite <- app_assoc in Hpre.
        destruct (decide (p = base ++ [c])) as [->|Hne].
        { by rewrite lookup_insert_eq in Hp. }
        by rewrite lookup_insert_ne in Hp.
Qed.

Lemma makedirs_from_Ok rest base f f' :
  makedirs_from base rest f = (Ok tt, f') → rest ≠ [] →
  f' !! (base ++ rest) = Some Dir.
Proof.
  revert base f. induction rest as [|c rest IH]; intros base f; [done|].
  simpl. unfold bind at 1, get at 1. intros H _.
  destruct (f !! (base ++ [c])) as [[? ?|]|] eqn:E; [done| |].
  - destruct rest as [|c' rest].
    + simpl in H. by injection H as <-.
    + rewrite cons_middle, app_assoc. by apply (IH _ f).
  - unfold bind at 1, put at 1 in H. destruct rest as [|c' rest].
    + simpl in H. injection H as <-. apply lookup_insert_eq.
    + rewrite cons_middle, app_assoc. by apply (IH _ _ H).
Qed.

Lemma makedirs_Ok p f f' :
  makedirs p f = (Ok tt, f') → node_at f' p = Some Dir.
Proof.
  intros H. destruct p as [|x p]; [done|].
  apply (makedirs_from_Ok (x :: p) [] f f'); done.
Qed.

Lemma grows_Dir U f g p : grows U f g → f !! p = Some Dir → g !! p = Some Dir.
Proof.
  intros H Hp. destruct (H _ _ Hp) as (n' & Hn & Hk).
  case_decide; simpl in Hk; by subst.
Qed.

Lemma grows_File U f g p c lk :
  grows U f g → f !! p = Some (File c lk) → ∃ c', g !! p = Some (File c' lk).
Proof.
  intros H Hp. destruct (H _ _ Hp) as (n' & Hn & Hk).
  case_decide; simpl in Hk; [|subst; eauto].
  destruct lk; [subst; eauto|]. destruct Hk as [c' ->]. eauto.
Qed.

Lemma grows_locked U f g p c :
  grows U f g → f !! p = Some (File c true) → g !! p = Some (File c true).
Proof.
  intros H Hp. destruct (H _ _ Hp) as (n' & Hn & Hk).
  case_decide; simpl in Hk; by subst.
Qed.

Lemma grows_outside U f g p n :
  grows U f g → ¬ U `prefix_of` p → f !! p = Some n → g !! p = Some n.
Proof.
  intros H Hout Hp. destruct (H _ _ Hp) as (n' & Hn & Hk).
  case_decide; [done | by subst].
Qed.

Lemma kind_kept_refl n : kind_kept n n.
Proof. destruct n as [c []|]; simpl; eauto. Qed.

Lemma kind_kept_trans n1 n2 n3 :
  kind_kept n1 n2 → kind_kept n2 n3 → kind_kept n1 n3.
Proof.
  destruct n1 as [c1 []|]; simpl.
  - by intros ->.
  - by intros [c2 ->].
  - by intros ->.
Qed.

Global Instance grows_preorder U : PreOrder (grows U).
Proof.
  split.
  - intros f p n Hp. exists n. split; [done|].
    case_decide; [apply kind_kept_refl | done].
  - intros f g h Hfg Hgh p n Hp.
    destruct (Hfg _ _ Hp) as (n' & Hn' & Hk').
    destruct (Hgh _ _ Hn') as (n'' & Hn'' & Hk'').
    exists n''. split; [done|]. case_decide; [|congruence].
    by eapply kind_kept_trans.
Qed.

(** On a file system that already has what the first run made, [makedirs]
    has nothing to do and ends the same way. *)
Lemma makedirs_from_again U rest base f g r f' :
  makedirs_from base rest f = (r, f') → grows U f' g →
  makedirs_from base rest g = (r, g).
Proof.
  revert base f. induction rest as [|c rest IH]; intros base f; simpl.
  - by intros [= <- <-] _.
  - intros H Hg.
    pose proof (makedirs_from_change (c :: rest) _ _ _ _ H (base ++ [c])) as Hc.
    simpl in H. unfold bind at 1, get at 1 in H. unfold bind at 1, get at 1.
    destruct (f !! (base ++ [c])) as [[c0 lk|]|] eqn:E.
    + injection H as <- <-.
      destruct (grows_File _ _ _ _ _ _ Hg E) as [c' ->]. done.
    + assert (Hd : f' !! (base ++ [c]) = Some Dir)
        by (destruct Hc as [Hc|[? _]]; congruence).
      rewrite (grows_Dir U f' g _ Hg Hd). by eapply IH.
    + unfold bind at 1, put at 1 in H.
      pose proof (makedirs_from_change _ _ _ _ _ H (base ++ [c])) as Hc'.
      rewrite lookup_insert_eq in Hc'.
      assert (Hd : f' !! (base ++ [c]) = Some Dir)
        by (destruct Hc' as [Hc'|[? _]]; congruence).
      rewrite (grows_Dir U f' g _ Hg Hd). by eapply IH.
Qed.

Lemma extract_member_unfold m d f :
  extract_member m d f =
  match makedirs (parent (targetpath d m)) f with
  | (Raise e, f0) => (Raise e, f0)
  | (Ok _, f0) =>
      if is_dir m then
        match node_at f0 (targetpath d m) with
        | Some Dir => (Ok tt, f0)
        | _ => mkdir (targetpath d m) false f0
        end
      else
        match state m with
        | CorruptHeader =>
            (Raise (Exn "BadZipFile" "Bad magic number for file header"), f0)
        | st =>
            match node_at f0 (targetpath d m) with
            | Some Dir => (Raise (OSError "IsADirectoryError" (targetpath d m)), f0)
            | Some (File _ true) =>
                (Raise (OSError "PermissionError" (targetpath d m)), f0)
            | _ =>
                (match st with
                 | CorruptData => Raise (Exn "BadZipFile" "Bad CRC-32 for file")
                 | _ => Ok tt
                 end,
                 <[targetpath d m := File (Raw (payload m)) false]> f0)
            end
        end
  end.
Proof.
  unfold extract_member, targetpath. unfold bind at 1.
  destruct (makedirs _ f) as [[[]|e] f0]; [|done].
  destruct (is_dir m).
  - unfold bind, get. by destruct (node_at f0 _) as [[]|].
  - destruct (state m); try done; unfold bind, get, put;
      by destruct (node_at f0 _) as [[? []|]|].
Qed.

Lemma prefix_parent (p q : Path) : p `prefix_of` parent q → p `prefix_of` q.
Proof.
  intros [k Hk]. unfold parent in Hk.
  destruct q as [|x q] using rev_ind.
  - simpl in Hk. exists k. done.
  - rewrite removelast_last in Hk. exists (k ++ [x]).
    by rewrite Hk, app_assoc.
Qed.

Lemma node_at_Some_nonroot f p c lk :
  node_at f p = Some (File c lk) → f !! p = Some (File c lk).
Proof. by destruct p. Qed.

Lemma node_at_None f p : node_at f p = None → f !! p = None ∧ p ≠ [].
Proof. by destruct p. Qed.

(** Everything [extract_member] can do to a path: leave it alone, make it a
    directory on the way to the target, or write the member at the target. *)
Lemma extract_member_change m d f r f' :
  extract_member m d f = (r, f') →
  ∀ p, f' !! p = f !! p ∨
       (f !! p = None ∧ f' !! p = Some Dir ∧ p `prefix_of` targetpath d m) ∨
       (p = targetpath d m ∧ is_dir m = false ∧
        f' !! p = Some (File (Raw (payload m)) false) ∧
        (f !! p = None ∨ ∃ c, f !! p = Some (File c false))).
Proof.
  rewrite extract_member_unfold. unfold makedirs.
  destruct (makedirs_from [] _ f) as [r0 f0] eqn:E0.
  pose proof (makedirs_from_change _ _ _ _ _ E0) as H0. simpl in H0.
  assert (Hmk : ∀ p, f0 !! p = f !! p ∨
            (f !! p = None ∧ f0 !! p = Some Dir ∧ p `prefix_of` targetpath d m)).
  { intros p. destruct (H0 p) as [?|(?&?&?)]; [by left|right].
    eauto using prefix_parent. }
  clear H0. destruct r0 as [[]|e]; [|by intros [= <- <-] p; destruct (Hmk p); eauto].
  set (t := targetpath d m) in *.
  destruct (is_dir m) eqn:Edir.
  - destruct (node_at f0 t) as [[c lk|]|] eqn:Et.
    + unfold mkdir, bind, get. rewrite Et. intros [= <- <-] p.
      destruct (Hmk p); eauto.
    + intros [= <- <-] p. destruct (Hmk p); eauto.
    + unfold mkdir, bind, get, put. rewrite Et.
      apply node_at_None in Et as [Et Hnr].
      destruct (node_at f0 (parent t)) as [[]|]; intros [= <- <-] p;
        try (destruct (Hmk p); eauto; fail).
      destruct (decide (p = t)) as [->|Hne].
      * right; left. rewrite lookup_insert_eq.
        destruct (Hmk t) as [Hq|(?&?&?)]; [|congruence].
        split; [congruence|done].
      * rewrite lookup_insert_ne by done. destruct (Hmk p); eauto.
  - assert (Hwrite : ∀ r1 f1,
      match node_at f0 t with
      | Some Dir => (Raise (OSError "IsADirectoryError" t), f0)
      | Some (File _ true) => (Raise (OSError "PermissionError" t), f0)
      | _ => (r1, <[t := File (Raw (payload m)) false]> f0)
      end = (r, f1) →
      ∀ p, f1 !! p = f !! p ∨
       (f !! p = None ∧ f1 !! p = Some Dir ∧ p `prefix_of` t) ∨
       (p = t ∧ false = false ∧
        f1 !! p = Some (File (Raw (payload m)) false) ∧
        (f !! p = None ∨ ∃ c, f !! p = Some (File c false)))).
    { intros r1 f1. destruct (node_at f0 t) as [[c [] |]|] eqn:Et;
        intros [= <- <-] p; try (destruct (Hmk p); eauto; fail).
      - apply node_at_Some_nonroot in Et.
        destruct (decide (p = t)) as [->|Hne].
        + right; right. rewrite lookup_insert_eq. repeat split; try done.
          destruct (Hmk t) as [Hq|(?&?&?)]; [|congruence].
          right. exists c. congruence.
        + rewrite lookup_insert_ne by done. destruct (Hmk p); eauto.
      - apply node_at_None in Et as [Et Hnr].
        destruct (decide (p = t)) as [->|Hne].
        + right; right. rewrite lookup_insert_eq. repeat split; try done.
          destruct (Hmk t) as [Hq|(?&?&?)]; [|congruence].
          left. congruence.
        + rewrite lookup_insert_ne by done. destruct (Hmk p); eauto. }
    destruct (state m); eauto.
    intros [= <- <-] p. destruct (Hmk p); eauto.
Qed.

Lemma targetpath_inside d m : d `prefix_of` targetpath d m.
Proof. by exists (arcname m). Qed.

Lemma extract_member_grows m d f r f' :
  extract_member m d f = (r, f') → grows d f f'.
Proof.
  intros H p n Hp.
  destruct (extract_member_change _ _ _ _ _ H p) as [Hq|[(Hq&_)|(->&_&Hq&Hf)]].
  - exists n. split; [congruence|]. case_decide; [apply kind_kept_refl|done].
  - congruence.
  - eexists. split; [done|].
    rewrite decide_True by apply targetpath_inside.
    destruct Hf as [?|[c Hc]]; [congruence|].
    rewrite Hc in Hp. injection Hp as <-. simpl. eauto.
Qed.

Lemma extract_member_Ok m d f f' :
  extract_member m d f = (Ok tt, f') → is_dir m = false →
  f' !! targetpath d m = Some (File (Raw (payload m)) false).
Proof.
  rewrite extract_member_unfold. intros H Hd. rewrite Hd in H.
  destruct (makedirs _ f) as [[[]|e] f0]; [|done].
  destruct (state m); try done;
    destruct (node_at f0 _) as [[? []|]|]; try done;
    injection H as <-; apply lookup_insert_eq.
Qed.

Lemma grows_node_at_Dir U f g p :
  grows U f g → node_at f p = Some Dir → node_at g p = Some Dir.
Proof. destruct p; [done|]. apply grows_Dir. Qed.

Lemma same_writes_refl_l f f0 g :
  (∀ p, f0 !! p = f !! p ∨ (f !! p = None ∧ f0 !! p = Some Dir)) →
  (∀ p, f0 !! p = Some Dir → g !! p = Some Dir) →
  same_writes f f0 g g.
Proof.
  intros Hmk Hg p. destruct (Hmk p) as [?|[? ?]]; [by right|left].
  rewrite Hg; done.
Qed.

(** A second extraction of a member, on a file system that already has what
    the first one made, ends the same way and writes the same. *)
Lemma extract_member_again m d f g r f' :
  is_dir m = false →
  extract_member m d f = (r, f') → grows d f' g →
  ∃ g', extract_member m d g = (r, g') ∧ same_writes f f' g g'.
Proof.
  intros Hd H Hg. pose proof (extract_member_change _ _ _ _ _ H) as Hch.
  rewrite extract_member_unfold in H. rewrite extract_member_unfold.
  rewrite Hd in *. unfold makedirs in *.
  destruct (makedirs_from [] _ f) as [r0 f0] eqn:E0.
  pose proof (makedirs_from_change _ _ _ _ _ E0) as Hmk.
  set (t := targetpath d m) in *.
  assert (Hsame : f' = f0 → r0 = r ∨ (∃ u, r0 = Ok u) →
                  same_writes f f' g g).
  { intros -> _. apply same_writes_refl_l.
    - intros p. destruct (Hmk p) as [?|(?&?&_)]; eauto.
    - intros p Hp. by eapply grows_Dir. }
  assert (Hf0 : grows d f0 g).
  { etrans; [|exact Hg]. intros p n Hp.
    destruct r0 as [[]|e]; [|injection H as _ <-; by apply (reflexivity (R:=grows d))].
    destruct (decide (p = t)) as [->|Hne].
    - destruct (state m);
        destruct (node_at f0 t) as [[c0 []|]|] eqn:Et;
        try (injection H as _ <-; by apply (reflexivity (R:=grows d)));
        injection H as _ <-; rewrite lookup_insert_eq; eexists; (split; [done|]);
        rewrite decide_True by apply targetpath_inside;
        first [ apply node_at_Some_nonroot in Et; rewrite Et in Hp;
                injection Hp as <-; simpl; eauto
              | apply node_at_None in Et as [Et _]; congruence ].
    - exists n. split.
      + destruct (state m);
          destruct (node_at f0 t) as [[c0 []|]|];
          injection H as _ <-; rewrite ?lookup_insert_ne by done; done.
      + case_decide; [apply kind_kept_refl | done]. }
  rewrite (makedirs_from_again d _ _ _ _ _ _ E0 Hf0).
  destruct r0 as [[]|e].
  2:{ injection H as <- <-. exists g. split; [done|]. apply Hsame; eauto. }
  assert (Hnode : ∀ n, f' !! t = Some n → t ≠ [] →
            match n with
            | Dir => node_at g t = Some Dir
            | File c true => node_at g t = Some (File c true)
            | File c false => ∃ c', node_at g t = Some (File c' false)
            end).
  { intros n Hn Hnr. destruct (Hg _ _ Hn) as (n' & Hn' & Hk).
    rewrite decide_True in Hk by apply targetpath_inside.
    unfold node_at. destruct t; [done|]. rewrite Hn'.
    destruct n as [c []|]; simpl in Hk; [by subst| |by subst].
    destruct Hk as [c' ->]. eauto. }
  assert (Hwrite : ∀ r1,
    match node_at f0 t with
    | Some Dir => (Raise (OSError "IsADirectoryError" t), f0)
    | Some (File _ true) => (Raise (OSError "PermissionError" t), f0)
    | _ => (r1, <[t := File (Raw (payload m)) false]> f0)
    end = (r, f') →
    ∃ g',
      match node_at g t with
      | Some Dir => (Raise (OSError "IsADirectoryError" t), g)
      | Some (File _ true) => (Raise (OSError "PermissionError" t), g)
      | _ => (r1, <[t := File (Raw (payload m)) false]> g)
      end = (r, g') ∧ same_writes f f' g g').
  { intros r1 Hw. destruct (node_at f0 t) as [[c0 []|]|] eqn:Et.
    - injection Hw as <- <-. apply node_at_Some_nonroot in Et as Et'.
      assert (t ≠ []) as Hnr by (intros E; rewrite E in Et'; by rewrite E in Et).
      rewrite (Hnode _ Et' Hnr). exists g. split; [done|]. apply Hsame; eauto.
    - assert (Hw' := Hw). injection Hw as <- <-.
      apply node_at_Some_nonroot in Et as Et'.
      assert (t ≠ []) as Hnr by (intros E; rewrite E in Et'; by rewrite E in Et).
      destruct (Hnode _ (lookup_insert_eq _ _ _) Hnr) as [c' ->].
      eexists. split; [done|]. intros p.
      destruct (decide (p = t)) as [->|Hne].
      + left. by rewrite !lookup_insert_eq.
      + rewrite !lookup_insert_ne by done.
        destruct (Hmk p) as [?|(?&Hdir&_)]; [by right|left].
        rewrite Hdir. eapply grows_Dir; [exact Hf0|done].
    - injection Hw as <- <-. rewrite (grows_node_at_Dir d f0 g _ Hf0 Et).
      exists g. split; [done|]. apply Hsame; eauto.
    - injection Hw as <- <-. apply node_at_None in Et as [Et Hnr].
      destruct (Hnode _ (lookup_insert_eq _ _ _) Hnr) as [c' ->].
      eexists. split; [done|]. intros p.
      destruct (decide (p = t)) as [->|Hne].
      + left. by rewrite !lookup_insert_eq.
      + rewrite !lookup_insert_ne by done.
        destruct (Hmk p) as [?|(?&Hdir&_)]; [by right|left].
        rewrite Hdir. eapply grows_Dir; [exact Hf0|done]. }
  destruct (state m); eauto.
  injection H as <- <-. exists g. split; [done|]. apply Hsame; eauto.
Qed.

(** ** Member names *)

Ltac decide_true :=
  match goal with
  | |- ?P => refine (bool_decide_unpack P _); by vm_compute
  end.

Ltac decide_false H :=
  match type of H with
  | ?P => refine (bool_decide_eq_false_1 P _ H); by vm_compute
  end.

Lemma split_nonempty sep s : split sep s ≠ [].
Proof.
  destruct s as [|c s]; simpl; [done|].
  destruct (Ascii.eqb c sep); [done|]. by destruct (split sep s).
Qed.

Lemma split_last sep s : ∃ l, split sep s = l ++ [last_item (split sep s)].
Proof.
  destruct (split sep s) as [|x l] eqn:E using rev_ind.
  - by destruct (split_nonempty sep s).
  - exists l. unfold last_item. by rewrite last_snoc.
Qed.

(** A name that ends with a slash has an empty last component. *)
Lemma ends_with_slash_split s :
  ends_with "/" s = true → ∃ l, l ≠ [] ∧ split "/" s = l ++ [""].
Proof.
  induction s as [|c s IH]; [done|].
  intros H. cbn [ends_with] in H. apply orb_true_iff in H as [H|H].
  - apply String.eqb_eq in H. injection H as <- <-. by exists [""].
  - destruct (IH H) as (l & Hl & E). cbn [split]. rewrite E.
    destruct (Ascii.eqb c "/").
    + exists ("" :: l). done.
    + destruct l as [|w l]; [done|]. simpl. by exists (String c w :: l).
Qed.

Lemma manifest_not_dir m : base_name m ∈ to_extract → is_dir m = false.
Proof.
  intros H. destruct (is_dir m) eqn:E; [|done]. exfalso.
  destruct (ends_with_slash_split _ E) as (l & _ & El).
  unfold base_name, last_item in H. rewrite El, last_snoc in H. simpl in H.
  by decide_false H.
Qed.

Lemma manifest_valid_part n : n ∈ to_extract → n ∉ invalid_path_parts.
Proof.
  unfold to_extract. rewrite !elem_of_cons, elem_of_nil.
  intros H Hin.
  repeat (destruct H as [->|H];
          [by decide_false Hin|]).
  done.
Qed.

(** The file of a manifest member is written under its base name. *)
Lemma manifest_target_name d m :
  base_name m ∈ to_extract → name (targetpath d m) = base_name m.
Proof.
  intros H. apply manifest_valid_part in H.
  unfold targetpath, arcname, base_name in *.
  destruct (split_last "/" (filename m)) as [l El].
  rewrite El at 1. rewrite filter_app, filter_cons_True by done.
  rewrite filter_nil, app_assoc. unfold name, last_item at 1.
  by rewrite last_snoc.
Qed.

(** ** Extracting the members of one archive *)

Lemma extractall_cons d m l f :
  extractall d (m :: l) f =
  match extract_member m d f with
  | (Ok _, f1) => extractall d l f1
  | (Raise e, f1) => (Raise e, f1)
  end.
Proof. unfold extractall. simpl. unfold bind. by destruct (extract_member m d f) as [[[]|] ?]. Qed.

(** A file that no member targets is left as it is. *)
Lemma extractall_file_frame d l f r f' p c lk :
  extractall d l f = (r, f') →
  f !! p = Some (File c lk) → (∀ m, m ∈ l → targetpath d m ≠ p) →
  f' !! p = Some (File c lk).
Proof.
  revert f. induction l as [|m l IH]; intros f.
  - by intros [= <- <-].
  - rewrite extractall_cons. destruct (extract_member m d f) as [r1 f1] eqn:E.
    intros H Hp Hl.
    assert (f1 !! p = Some (File c lk)) as Hp1.
    { destruct (extract_member_change _ _ _ _ _ E p) as [?|[(?&_)|(->&_)]];
        [congruence | congruence |].
      destruct (Hl m); [apply list_elem_of_here | done]. }
    destruct r1 as [[]|e]; [|by injection H as <- <-].
    eapply IH; eauto. intros m' Hm'. apply Hl. by apply list_elem_of_further.
Qed.

(** Every file found afterwards was there before or is a member. *)
Lemma extractall_files d l f r f' p c lk :
  extractall d l f = (r, f') → f' !! p = Some (File c lk) →
  f !! p = Some (File c lk) ∨
  ∃ m, m ∈ l ∧ p = targetpath d m ∧ c = Raw (payload m) ∧ lk = false.
Proof.
  revert f. induction l as [|m l IH]; intros f.
  - intros [= <- <-]. by left.
  - rewrite extractall_cons. destruct (extract_member m d f) as [r1 f1] eqn:E.
    intros H Hp.
    assert (f1 !! p = Some (File c lk) →
            f !! p = Some (File c lk) ∨
            ∃ m0, m0 ∈ m :: l ∧ p = targetpath d m0 ∧ c = Raw (payload m0) ∧
                  lk = false) as H1.
    { intros Hp1.
      destruct (extract_member_change _ _ _ _ _ E p) as [?|[(_&?&_)|(->&_&Hq&_)]];
        [left; congruence | congruence |].
      right. exists m. rewrite Hq in Hp1. injection Hp1 as <- <-.
      split; [apply list_elem_of_here | done]. }
    destruct r1 as [[]|e]; [|injection H as <- <-; by apply H1].
    destruct (IH _ H Hp) as [?|(m0 & ? & ?)]; [by apply H1|].
    right. exists m0. split; [by apply list_elem_of_further | done].
Qed.

(** When the archive is extracted without error, every member is on disk at
    its target, with the data of the last member extracted there. *)
Lemma extractall_Ok d l f f' :
  extractall d l f = (Ok tt, f') → (∀ m, m ∈ l → is_dir m = false) →
  ∀ m, m ∈ l →
    ∃ m', m' ∈ l ∧ arcname m' = arcname m ∧
          f' !! targetpath d m = Some (File (Raw (payload m')) false).
Proof.
  revert f. induction l as [|x l IH]; intros f H Hd m Hm.
  { by apply elem_of_nil in Hm. }
  rewrite extractall_cons in H.
  destruct (extract_member x d f) as [[[]|e] f1] eqn:E; [|done].
  assert (Hd' : ∀ m, m ∈ l → is_dir m = false)
    by (intros; apply Hd; by apply list_elem_of_further).
  assert (Hlater : ∀ m0, m0 ∈ l →
    ∃ m', m' ∈ x :: l ∧ arcname m' = arcname m0 ∧
          f' !! targetpath d m0 = Some (File (Raw (payload m')) false)).
  { intros m0 Hm0. destruct (IH _ H Hd' m0 Hm0) as (m' & ? & ? & ?).
    exists m'. split; [by apply list_elem_of_further | done]. }
  apply elem_of_cons in Hm as [->|Hm]; [|by apply Hlater].
  destruct (filter (λ m', arcname m' = arcname x) l) as [|m0 k] eqn:Ef.
  - exists x. split; [apply list_elem_of_here|]. split; [done|].
    eapply extractall_file_frame; [exact H | |].
    + eapply extract_member_Ok; [exact E|]. apply Hd, list_elem_of_here.
    + intros m0 Hm0 Heq. unfold targetpath in Heq. apply app_inv_head in Heq.
      assert (m0 ∈ filter (λ m', arcname m' = arcname x) l) as Hin
        by (by apply list_elem_of_filter).
      rewrite Ef in Hin. by apply elem_of_nil in Hin.
  - assert (m0 ∈ filter (λ m', arcname m' = arcname x) l) as Hin
      by (rewrite Ef; apply list_elem_of_here).
    apply list_elem_of_filter in Hin as [Ha Hm0].
    destruct (Hlater m0 Hm0) as (m' & ? & ? & Hf).
    exists m'. split; [done|]. split; [congruence|].
    unfold targetpath in *. by rewrite <- Ha.
Qed.

(** ** From the program to the file system *)

Lemma on_fs_bind {A B : Type} (c : ST FS A) (k : A → ST FS B) w :
  bind (on_fs c) (λ a, on_fs (k a)) w = on_fs (bind c k) w.
Proof.
  unfold bind, on_fs. simpl. by destruct (c (fs w)) as [[a|e] f1].
Qed.

Lemma on_fs_inv {A : Type} (c : ST FS A) w r w' :
  on_fs c w = (r, w') → c (fs w) = (r, fs w') ∧ w' = set_fs (fs w') w.
Proof.
  unfold on_fs. destruct (c (fs w)) as [r1 f1]. simpl. by intros [= <- <-].
Qed.

Lemma extract_zip_file_on_fs self zip_file names w :
  extract_zip_file self zip_file names w =
  on_fs (extract_zip_file_fs self zip_file names) w.
Proof. unfold extract_zip_file, extract_zip_file_fs. apply on_fs_bind. Qed.

Lemma extract_zip_file_fs_members self zip_file names f ms lk :
  node_at f zip_file = Some (File (Zip ms) lk) →
  extract_zip_file_fs self zip_file names f =
  extractall (unpacked_path self) (filter (λ x, base_name x ∈ names) ms) f.
Proof.
  intros H. unfold extract_zip_file_fs, ZipFile.
  unfold bind at 1 2, get at 1. by rewrite H.
Qed.

(** C1 (as amended): when [extract_zip_file] processes an archive without
    error, every member whose base filename is in the manifest is on disk
    below [unpacked/] at the member's own internal path (its name split at
    the slashes, without empty, [.] and [..] parts), under its base
    filename, holding the data of the last manifest member of the archive
    with that internal path.  The directory below [unpacked/] is the one the
    archive names, not one derived from the filename of the archive. *)
Theorem extract_zip_file_targets self zip_file w w' ms lk :
  node_at (fs w) zip_file = Some (File (Zip ms) lk) →
  extract_zip_file self zip_file to_extract w = (Ok tt, w') →
  ∀ m, m ∈ ms → base_name m ∈ to_extract →
    name (unpacked_path self ++ arcname m) = base_name m ∧
    ∃ m', m' ∈ ms ∧ base_name m' ∈ to_extract ∧ arcname m' = arcname m ∧
          fs w' !! (unpacked_path self ++ arcname m) =
            Some (File (Raw (payload m')) false).
Proof.
  intros Hz H m Hm Hb. split; [by apply manifest_target_name|].
  rewrite extract_zip_file_on_fs in H. apply on_fs_inv in H as [H _].
  rewrite (extract_zip_file_fs_members _ _ _ _ _ _ Hz) in H.
  destruct (extractall_Ok _ _ _ _ H) with (m := m) as (m' & Hm' & Ha & Hf).
  - intros m0 Hm0. apply list_elem_of_filter in Hm0 as [? _].
    by apply manifest_not_dir.
  - by apply list_elem_of_filter.
  - apply list_elem_of_filter in Hm' as [? ?]. by exists m'.
Qed.

Lemma extract_zip_file_targets_witness :
  let w := Staging.w0 in
  let w' := (extract_zip_file Sample.kp ["data"; "100.zip"] to_extract w).2 in
  let m := Staging.member "export/PARCELY_KN_P.shp" Sample.bytes1 in
  name (unpacked_path Sample.kp ++ arcname m) = base_name m ∧
  ∃ m', m' ∈ (λ n, Staging.member ("export/" +:+ n) Sample.bytes1) <$> to_extract ∧
        base_name m' ∈ to_extract ∧ arcname m' = arcname m ∧
        fs w' !! (unpacked_path Sample.kp ++ arcname m) =
          Some (File (Raw (payload m')) false).
Proof.
  intros w w' m.
  apply (extract_zip_file_targets Sample.kp ["data"; "100.zip"] w w'
           ((λ n, Staging.member ("export/" +:+ n) Sample.bytes1) <$> to_extract)
           false).
  - by vm_compute.
  - by vm_compute.
  - apply (list_elem_of_fmap_2' _ _ "PARCELY_KN_P.shp"); [|done].
    by decide_true.
  - by decide_true.
Defined.

(** C1 as stated fails: [100.zip] is extracted without error and its manifest
    files are not in [unpacked/100/], which does not even exist: they are in
    [unpacked/export/], the directory the archive names. *)
Lemma extraction_ignores_archive_name :
  let r := extract_zip_file Sample.kp ["data"; "100.zip"] to_extract Staging.w0 in
  r.1 = Ok tt ∧
  ¬ (∃ n, fs r.2 !! ["data"; "unpacked"; "100"; "PARCELY_KN_P.shp"] = Some n) ∧
  fs r.2 !! ["data"; "unpacked"; "100"] = None ∧
  fs r.2 !! ["data"; "unpacked"; "export"; "PARCELY_KN_P.shp"] =
    Some (File (Raw Sample.bytes1) false).
Proof.
  split; [by vm_compute|]. split; [|split; by vm_compute].
  intros [n Hn]. vm_compute in Hn. discriminate.
Qed.

(** The last member written to a path is the one found there. *)
Lemma extractall_last_writer d l1 m l2 f f' :
  extractall d (l1 ++ m :: l2) f = (Ok tt, f') →
  is_dir m = false →
  (∀ m', m' ∈ l2 → arcname m' ≠ arcname m) →
  f' !! targetpath d m = Some (File (Raw (payload m)) false).
Proof.
  revert f. induction l1 as [|x l1 IH]; intros f H Hd Hl; simpl in H.
  - rewrite extractall_cons in H.
    destruct (extract_member m d f) as [[[]|e] f1] eqn:E; [|done].
    eapply extractall_file_frame; [exact H | by eapply extract_member_Ok |].
    intros m' Hm' Heq. apply (Hl m' Hm'). unfold targetpath in Heq.
    by apply app_inv_head in Heq.
  - rewrite extractall_cons in H.
    destruct (extract_member x d f) as [[[]|e] f1]; [|done]. by eapply IH.
Qed.

(** The last element of a list with a given property. *)
Lemma last_occurrence {A} (P : A → Prop) `{!∀ x, Decision (P x)} (l : list A) x :
  x ∈ l → P x →
  ∃ l1 y l2, l = l1 ++ y :: l2 ∧ P y ∧ ∀ z, z ∈ l2 → ¬ P z.
Proof.
  revert x. induction l as [|a l IH]; intros x Hx HP.
  { by apply elem_of_nil in Hx. }
  destruct (decide (List.Exists P l)) as [He|Hn].
  - apply Exists_exists in He as (y & Hy & HPy).
    destruct (IH y Hy HPy) as (l1 & z & l2 & -> & ? & ?).
    by exists (a :: l1), z, l2.
  - apply elem_of_cons in Hx as [->|Hx].
    + exists [], a, l. split; [done|]. split; [done|].
      intros z Hz HPz. apply Hn, Exists_exists. eauto.
    + destruct Hn. apply Exists_exists. eauto.
Qed.

(** C5 (as amended): when [extract_zip_file] processes an archive without
    error, whatever the tree [unpacked/] held before, the regular files
    found afterwards are exactly these: every file that was there before and
    that no manifest member of the archive is written to, as it was; and,
    for every member of the archive whose base filename is in the manifest, a
    file at the member's internal path below [unpacked/], under that base
    filename, holding the data of the last such member with that path.
    Nothing outside the manifest is extracted, and a manifest file is written
    exactly when the archive has a member of that name: the code never checks
    that the companions of a layer are all there. *)
Theorem extract_zip_file_manifest_subset self zip_file w w' ms lk :
  node_at (fs w) zip_file = Some (File (Zip ms) lk) →
  extract_zip_file self zip_file to_extract w = (Ok tt, w') →
  let wanted := filter (λ m, base_name m ∈ to_extract) ms in
  ∀ p c l, fs w' !! p = Some (File c l) ↔
    (fs w !! p = Some (File c l) ∧
     ∀ m, m ∈ wanted → p ≠ unpacked_path self ++ arcname m) ∨
    (∃ l1 m l2, wanted = l1 ++ m :: l2 ∧
       (∀ m', m' ∈ l2 → arcname m' ≠ arcname m) ∧
       p = unpacked_path self ++ arcname m ∧ name p = base_name m ∧
       c = Raw (payload m) ∧ l = false).
Proof.
  intros Hz H wanted p c l.
  rewrite extract_zip_file_on_fs in H. apply on_fs_inv in H as [H _].
  rewrite (extract_zip_file_fs_members _ _ _ _ _ _ Hz) in H. fold wanted in H.
  assert (Hw : ∀ m, m ∈ wanted → base_name m ∈ to_extract).
  { intros m Hm. by apply list_elem_of_filter in Hm as [? _]. }
  assert (Hlast : ∀ l1 m l2, wanted = l1 ++ m :: l2 →
            (∀ m', m' ∈ l2 → arcname m' ≠ arcname m) →
            fs w' !! (unpacked_path self ++ arcname m) =
              Some (File (Raw (payload m)) false)).
  { intros l1 m l2 E Hl. rewrite E in H.
    apply (extractall_last_writer _ _ _ _ _ _ H); [|done].
    apply manifest_not_dir, Hw. rewrite E.
    apply elem_of_app. right. apply list_elem_of_here. }
  split.
  - intros Hp.
    destruct (decide (List.Exists (λ m, arcname m = 
               drop (length (unpacked_path self)) p ∧
               unpacked_path self `prefix_of` p) wanted)) as [He|Hn].
    + right. apply Exists_exists in He as (m0 & Hm0 & HP0).
      destruct (last_occurrence
                  (λ m, arcname m = drop (length (unpacked_path self)) p ∧
                        unpacked_path self `prefix_of` p) wanted m0 Hm0 HP0)
        as (l1 & m & l2 & E & [Ha [k Hk]] & Hl2).
      assert (Hpm : p = unpacked_path self ++ arcname m).
      { rewrite Ha, Hk. by rewrite drop_app_length. }
      assert (Hl : ∀ m', m' ∈ l2 → arcname m' ≠ arcname m).
      { intros m' Hm' Heq. apply (Hl2 m' Hm'). split; [congruence|by exists k]. }
      pose proof (Hlast l1 m l2 E Hl) as Hf. rewrite <- Hpm in Hf.
      rewrite Hf in Hp. injection Hp as <- <-.
      exists l1, m, l2. split_and!; try done.
      rewrite Hpm. apply manifest_target_name, Hw. rewrite E.
      apply elem_of_app. right. apply list_elem_of_here.
    + left.
      assert (Hno : ∀ m, m ∈ wanted → p ≠ unpacked_path self ++ arcname m).
      { intros m Hm ->. apply Hn, Exists_exists. exists m. split; [done|].
        split; [by rewrite drop_app_length | by exists (arcname m)]. }
      split; [|done].
      destruct (extractall_files _ _ _ _ _ _ _ _ H Hp) as [?|(m & Hm & -> & _)];
        [done|]. by destruct (Hno m Hm).
  - intros [[Hold Hno]|(l1 & m & l2 & E & Hl & -> & _ & -> & ->)].
    + eapply extractall_file_frame; [exact H | exact Hold |].
      intros m Hm Heq. by apply (Hno m Hm).
    + by apply (Hlast l1 m l2).
Qed.

Lemma extract_zip_file_manifest_subset_witness :
  let w := Staging.w0 in
  let w' := (extract_zip_file Sample.kp ["data"; "101.zip"] to_extract w).2 in
  let wanted := filter (λ m, base_name m ∈ to_extract)
                  [Staging.member "101/PARCELY_KN_P.shp" Sample.bytes2;
                   Staging.member "101/readme.txt" Sample.bytes1] in
  let p := ["data"; "unpacked"; "101"; "PARCELY_KN_P.shp"] in
  let c := Raw Sample.bytes2 in
  let l := false in
  fs w' !! p = Some (File c l) ↔
    (fs w !! p = Some (File c l) ∧
     ∀ m, m ∈ wanted → p ≠ unpacked_path Sample.kp ++ arcname m) ∨
    (∃ l1 m l2, wanted = l1 ++ m :: l2 ∧
       (∀ m', m' ∈ l2 → arcname m' ≠ arcname m) ∧
       p = unpacked_path Sample.kp ++ arcname m ∧ name p = base_name m ∧
       c = Raw (payload m) ∧ l = false).
Proof.
  intros w w' wanted p c l.
  apply (extract_zip_file_manifest_subset Sample.kp ["data"; "101.zip"] w w'
           [Staging.member "101/PARCELY_KN_P.shp" Sample.bytes2;
            Staging.member "101/readme.txt" Sample.bytes1] false).
  - by vm_compute.
  - by vm_compute.
Defined.

(** C5 as stated fails: [101.zip] holds one manifest file.  It is extracted
    without an error, the only warning of the run is for [103.zip], and the
    working directory [unpacked/101/] ends with the geometry file of the
    parcel layer and without its attribute file. *)
Lemma partial_unit_without_error :
  (extract_zip_file Sample.kp ["data"; "101.zip"] to_extract Staging.w0).1 = Ok tt ∧
  let r := extract_zip_files Sample.kp Staging.w0 in
  r.1 = Ok tt ∧
  warnings r.2 = ["Error extracting zip file: /data/103.zip"] ∧
  fs r.2 !! ["data"; "unpacked"; "101"; "PARCELY_KN_P.shp"] =
    Some (File (Raw Sample.bytes2) false) ∧
  fs r.2 !! ["data"; "unpacked"; "101"; "PARCELY_KN_P.dbf"] = None.
Proof. by vm_compute. Qed.

(** ** Extraction only adds, and a second extraction adds nothing *)

Lemma prefix_reach U k p : p `prefix_of` U ++ k → reach U p.
Proof.
  intros Hp. apply (prefix_weak_total p U (U ++ k)); [done|].
  by exists k.
Qed.

Lemma same_writes_trans f f1 f' g g1 g' :
  same_writes f f1 g g1 → same_writes f1 f' g1 g' → same_writes f f' g g'.
Proof.
  intros H1 H2 p. destruct (H2 p) as [?|[Hg Hf]]; [by left|].
  destruct (H1 p) as [?|[? ?]]; [left|right]; split_and?; congruence.
Qed.

Lemma same_writes_none f g : same_writes f f g g.
Proof. intros p. by right. Qed.

Section Tame.
Context (U : Path).

Lemma tame_ret {A : Type} (a : A) : tame U (ret a).
Proof. intros f r f' [= <- <-]. split; [done | by left]. Qed.

Lemma tame_raise {A : Type} e : tame U (@raise FS A e).
Proof. intros f r f' [= <- <-]. split; [done | by left]. Qed.

Lemma tame_bind {A B : Type} (c : ST FS A) (k : A → ST FS B) :
  tame U c → (∀ a, tame U (k a)) → tame U (bind c k).
Proof.
  intros Hc Hk f r f'. unfold bind.
  destruct (c f) as [[a|e] f1] eqn:E; [|intros [= <- <-]; by eapply Hc].
  intros H. destruct (Hc _ _ _ E) as [Hg1 Hl1].
  destruct (Hk a _ _ _ H) as [Hg2 Hl2]. split; [by etrans|].
  intros p. destruct (Hl2 p) as [?|?]; [|by right].
  destruct (Hl1 p) as [?|?]; [left; congruence | by right].
Qed.

Lemma tame_try_except {A : Type} (c : ST FS A) h :
  tame U c → (∀ e, tame U (h e)) → tame U (try_except c h).
Proof.
  intros Hc Hh f r f'. unfold try_except.
  destruct (c f) as [[a|e] f1] eqn:E; [intros [= <- <-]; by eapply Hc|].
  intros H. destruct (Hc _ _ _ E) as [Hg1 Hl1].
  destruct (Hh e _ _ _ H) as [Hg2 Hl2]. split; [by etrans|].
  intros p. destruct (Hl2 p) as [?|?]; [|by right].
  destruct (Hl1 p) as [?|?]; [left; congruence | by right].
Qed.

Lemma tame_for_each {A : Type} (l : list A) (body : A → ST FS unit) :
  (∀ x, x ∈ l → tame U (body x)) → tame U (for_each l body).
Proof.
  induction l as [|x l IH]; intros Hb; simpl; [apply tame_ret|].
  apply tame_bind; [apply Hb, list_elem_of_here|].
  intros _. apply IH. intros y Hy. by apply Hb, list_elem_of_further.
Qed.

Lemma tame_extract_member m : tame U (extract_member m U).
Proof.
  intros f r f' H. split; [by eapply extract_member_grows|].
  intros p.
  destruct (extract_member_change _ _ _ _ _ H p) as [?|[(_&_&Hp)|(->&_)]].
  - by left.
  - right. by eapply prefix_reach.
  - right. right. apply targetpath_inside.
Qed.

Lemma tame_extractall l : tame U (extractall U l).
Proof. apply tame_for_each. intros m _. apply tame_extract_member. Qed.

Lemma tame_ZipFile z : tame U (ZipFile z).
Proof.
  intros f r f'. unfold ZipFile, bind, get, ret, raise.
  destruct (node_at f z) as [[[]|]|]; intros [= <- <-]; (split; [done | by left]).
Qed.

Lemma again_ret {A : Type} (a : A) : again U (ret a).
Proof.
  intros f g r f' [= <- <-] _. exists g. split; [done|]. apply same_writes_none.
Qed.

Lemma again_bind {A B : Type} (c : ST FS A) (k : A → ST FS B) :
  tame U c → (∀ a, tame U (k a)) →
  again U c → (∀ a, again U (k a)) → again U (bind c k).
Proof.
  intros Tc Tk Hc Hk f g r f' H Hg. unfold bind in *.
  destruct (c f) as [[a|e] f1] eqn:E.
  - destruct (Tk a _ _ _ H) as [Hg1 _].
    destruct (Hc _ g _ _ E) as (g1 & Eg & Hw1); [by etrans|].
    rewrite Eg. destruct (Tc _ _ _ Eg) as [Hgg1 _].
    destruct (Hk a _ g1 _ _ H) as (g' & Eg' & Hw2); [by etrans|].
    exists g'. split; [done|]. by eapply same_writes_trans.
  - injection H as <- <-.
    destruct (Hc _ g _ _ E Hg) as (g1 & Eg & Hw1). rewrite Eg. eauto.
Qed.

Lemma again_for_each {A : Type} (l : list A) (body : A → ST FS unit) :
  (∀ x, x ∈ l → tame U (body x) ∧ again U (body x)) →
  again U (for_each l body).
Proof.
  induction l as [|x l IH]; intros Hb; simpl; [apply again_ret|].
  assert (Hl : ∀ y, y ∈ l → tame U (body y) ∧ again U (body y))
    by (intros y Hy; by apply Hb, list_elem_of_further).
  apply again_bind.
  - apply Hb, list_elem_of_here.
  - intros _. apply tame_for_each. intros y Hy. by apply Hl.
  - apply Hb, list_elem_of_here.
  - intros _. by apply IH.
Qed.

Lemma again_try_skip {A : Type} (c : ST FS A) (a : A) :
  again U c → again U (try_except c (λ _, ret a)).
Proof.
  intros Hc f g r f' H Hg. unfold try_except in *.
  destruct (c f) as [[a0|e] f1] eqn:E.
  - injection H as <- <-. destruct (Hc _ g _ _ E Hg) as (g1 & -> & ?). eauto.
  - injection H as <- <-. destruct (Hc _ g _ _ E Hg) as (g1 & -> & ?). eauto.
Qed.

End Tame.

Lemma again_extract_member U m :
  is_dir m = false → again U (extract_member m U).
Proof. intros Hd f g r f'. by apply extract_member_again. Qed.

Lemma again_extractall U l :
  (∀ m, m ∈ l → is_dir m = false) → again U (extractall U l).
Proof.
  intros Hd. apply again_for_each. intros m Hm.
  split; [apply tame_extract_member | by apply again_extract_member, Hd].
Qed.

Lemma tame_extract_zip_file_fs self z names :
  tame (unpacked_path self) (extract_zip_file_fs self z names).
Proof.
  apply tame_bind; [apply tame_ZipFile|]. intros zf. apply tame_extractall.
Qed.

(** One archive, extracted a second time. *)
Lemma extract_zip_file_fs_again self z f g r f' :
  node_at g z = node_at f z →
  extract_zip_file_fs self z to_extract f = (r, f') →
  grows (unpacked_path self) f' g →
  ∃ g', extract_zip_file_fs self z to_extract g = (r, g') ∧
        same_writes f f' g g'.
Proof.
  intros Hz H Hg. unfold extract_zip_file_fs, ZipFile in *.
  unfold bind at 1 2, get at 1 in H. unfold bind at 1 2, get at 1.
  rewrite Hz. destruct (node_at f z) as [[[ms|b] lk|]|];
    try (injection H as <- <-; exists g; split; [done|]; apply same_writes_none).
  unfold ret in *. eapply again_extractall; [|exact H|exact Hg].
  intros m Hm. apply list_elem_of_filter in Hm as [Hm _].
  by apply manifest_not_dir.
Qed.

Lemma child_of_name d q : child_of d q = true → q = d ++ [name q].
Proof.
  intros H. apply child_of_spec in H as [Hq <-].
  destruct q as [|x q _] using rev_ind; [done|].
  rewrite removelast_last. unfold name, last_item. by rewrite last_snoc.
Qed.

Lemma zip_child_not_reach self q :
  child_of (download_path self) q = true → zip_pattern (name q) = true →
  ¬ reach (unpacked_path self) q.
Proof.
  intros Hc Hz [Hp|Hp]; [|by eapply unpacked_not_zip].
  rewrite (child_of_name _ _ Hc) in Hp. unfold unpacked_path in Hp.
  apply prefix_app_inv in Hp as [k Hk]. injection Hk as Hk _.
  rewrite <- Hk in Hz. done.
Qed.

(** The loop over the archives, run a second time. *)
Lemma extract_loop_again self zs f g r f' :
  (∀ z, z ∈ zs → ¬ unpacked_path self `prefix_of` z ∧ is_Some (f !! z)) →
  for_each zs (λ z, try_except (extract_zip_file_fs self z to_extract)
                      (λ _, ret tt)) f = (r, f') →
  grows (unpacked_path self) f' g →
  ∃ g', for_each zs (λ z, try_except (extract_zip_file_fs self z to_extract)
                            (λ _, ret tt)) g = (r, g') ∧
        same_writes f f' g g'.
Proof.
  set (U := unpacked_path self).
  set (body := λ z, try_except (extract_zip_file_fs self z to_extract)
                      (λ _, ret tt)).
  assert (Tb : ∀ z, tame U (body z)).
  { intros z. apply tame_try_except; [apply tame_extract_zip_file_fs|].
    intros _. apply tame_ret. }
  revert f g. induction zs as [|z zs IH]; intros f g Hzs H Hg.
  - injection H as <- <-. exists g. split; [done|]. apply same_writes_none.
  - simpl in *. unfold bind in H.
    destruct (body z f) as [[[]|e] f1] eqn:E.
    2:{ unfold body, try_except, ret in E.
        by destruct (extract_zip_file_fs self z to_extract f) as [[[]|?] ?]. }
    destruct (Tb z _ _ _ E) as [Hff1 _].
    assert (Tl : tame U (for_each zs body)) by (by apply tame_for_each).
    destruct (Tl _ _ _ H) as [Hf1f' _].
    assert (Hnode : node_at g z = node_at f z).
    { destruct (Hzs z) as [Hout [n Hn]]; [apply list_elem_of_here|].
      unfold node_at. destruct z; [done|]. rewrite Hn.
      apply (grows_outside U f g); [|done|done].
      etrans; [exact Hff1|]. by etrans. }
    assert (∃ g1, body z g = (Ok tt, g1) ∧ same_writes f f1 g g1)
      as (g1 & Eg & Hw1).
    { unfold body, try_except, ret in E |- *.
      destruct (extract_zip_file_fs self z to_extract f) as [r0 f0] eqn:E0.
      assert (f0 = f1) as -> by (destruct r0; by injection E).
      destruct (extract_zip_file_fs_again _ _ _ g _ _ Hnode E0)
        as (g1 & -> & Hw); [by etrans|].
      exists g1. split; [by destruct r0 as [[]|]|done]. }
    unfold bind. rewrite Eg. destruct (Tb z _ _ _ Eg) as [Hgg1 _].
    destruct (IH f1 g1) as (g' & Eg' & Hw2); [|done|by etrans|].
    + intros z' Hz'. destruct (Hzs z') as [Hout [n Hn]];
        [by apply list_elem_of_further|].
      split; [done|]. destruct (Hff1 _ _ Hn) as (n' & -> & _). eauto.
    + exists g'. split; [done|]. by eapply same_writes_trans.
Qed.

Lemma mkdir_inv p f r f' :
  mkdir p true f = (r, f') →
  (r = Ok tt ∧ node_at f' p = Some Dir ∧
   (f' = f ∨ (f !! p = None ∧ f' = <[p := Dir]> f))) ∨
  (∃ e, r = Raise e ∧ f' = f).
Proof.
  unfold mkdir, bind, get, put, ret, raise.
  destruct (node_at f p) as [[]|] eqn:E.
  - intros [= <- <-]. eauto.
  - intros [= <- <-]. left. eauto.
  - apply node_at_None in E as [E Hnr].
    destruct (node_at f (parent p)) as [[]|]; intros [= <- <-]; eauto.
    left. split; [done|]. split; [|by right].
    unfold node_at. destruct p; [done|]. apply lookup_insert_eq.
Qed.

Lemma extract_zip_files_fs_unfold self f :
  extract_zip_files_fs self f =
  match mkdir (unpacked_path self) true f with
  | (Ok _, f0) =>
      for_each (glob (download_path self) zip_pattern f0) (λ z,
        try_except (extract_zip_file_fs self z to_extract) (λ _, ret tt)) f0
  | (Raise e, f0) => (Raise e, f0)
  end.
Proof.
  unfold extract_zip_files_fs. unfold bind at 1.
  by destruct (mkdir _ true f) as [[[]|e] f0].
Qed.

(** The extraction of a staging directory, run on its own result, changes
    nothing. *)
Lemma extract_zip_files_fs_idem self f :
  extract_zip_files_fs self (extract_zip_files_fs self f).2 =
  extract_zip_files_fs self f.
Proof.
  rewrite (extract_zip_files_fs_unfold self f).
  set (U := unpacked_path self). set (d := download_path self).
  destruct (mkdir U true f) as [r0 f0] eqn:Em.
  destruct (mkdir_inv _ _ _ _ Em) as [(-> & HU & Hf0)|(e & -> & ->)].
  2:{ simpl. rewrite extract_zip_files_fs_unfold. fold U. by rewrite Em. }
  set (body := λ z, try_except (extract_zip_file_fs self z to_extract)
                      (λ _, ret tt)).
  destruct (for_each (glob d zip_pattern f0) body f0) as [r F] eqn:El.
  simpl. rewrite extract_zip_files_fs_unfold.
  assert (Tl : tame U (for_each (glob d zip_pattern f0) body)).
  { apply tame_for_each. intros z _.
    apply tame_try_except; [apply tame_extract_zip_file_fs|].
    intros _. apply tame_ret. }
  destruct (Tl _ _ _ El) as [Hgrow Hlocal].
  assert (HUF : node_at F U = Some Dir) by (by eapply grows_node_at_Dir).
  assert (Hm : mkdir U true F = (Ok tt, F)).
  { unfold mkdir, bind, get. by rewrite HUF. }
  fold U. rewrite Hm. fold d.
  assert (Hglob : glob d zip_pattern F = glob d zip_pattern f0).
  { apply glob_ext. intros q Hc Hz.
    destruct (Hlocal q) as [->|Hr]; [done|].
    by destruct (zip_child_not_reach self q). }
  rewrite Hglob. fold body.
  assert (Hzs : ∀ z, z ∈ glob d zip_pattern f0 →
            ¬ U `prefix_of` z ∧ is_Some (f0 !! z)).
  { intros z Hz. apply elem_of_glob in Hz as (Hs & Hc & Hzp).
    split; [|done]. intros Hp. by eapply unpacked_not_zip. }
  destruct (extract_loop_again self _ f0 F _ _ Hzs El) as (g' & Eg & Hw);
    [reflexivity|].
  fold body in Eg. rewrite Eg. f_equal. apply map_eq. intros p.
  destruct (Hw p) as [?|[? _]]; done.
Qed.

(** ** The file-system effect of the extractor *)

Lemma fs_effect_on_fs {A : Type} (c : ST FS A) : fs_effect (on_fs c) c.
Proof. by intros w. Qed.

Lemma fs_effect_get_fs : fs_effect get_fs get.
Proof. by intros w. Qed.

Lemma fs_effect_bind {A B : Type} (c : M A) c' (k : A → M B) k' :
  fs_effect c c' → (∀ a, fs_effect (k a) (k' a)) →
  fs_effect (bind c k) (bind c' k').
Proof.
  intros Hc Hk w. unfold bind. destruct (Hc w) as [Hr Hf].
  destruct (c w) as [r w1], (c' (fs w)) as [r' f1]. simpl in *. subst.
  destruct r' as [a|e]; [apply Hk | done].
Qed.

Lemma fs_effect_for_each {A : Type} (l : list A) (body : A → M unit) body' :
  (∀ x, fs_effect (body x) (body' x)) →
  fs_effect (for_each l body) (for_each l body').
Proof.
  intros Hb. induction l as [|x l IH]; simpl; [by intros w|].
  apply fs_effect_bind; [apply Hb | by intros _].
Qed.

(** A handler that only logs is, for the file system, one that does
    nothing. *)
Lemma fs_effect_try_log (c : M unit) c' (msg : exn → string) :
  fs_effect c c' →
  fs_effect (try_except c (λ e, logging_warning (msg e)))
            (try_except c' (λ _, ret tt)).
Proof.
  intros Hc w. unfold try_except. destruct (Hc w) as [Hr Hf].
  destruct (c w) as [r w1], (c' (fs w)) as [r' f1]. simpl in *. subst.
  by destruct r'.
Qed.

Lemma fs_effect_extract_zip_file self z names :
  fs_effect (extract_zip_file self z names) (extract_zip_file_fs self z names).
Proof. intros w. by rewrite extract_zip_file_on_fs. Qed.

Lemma fs_effect_extract_zip_files self :
  fs_effect (extract_zip_files self) (extract_zip_files_fs self).
Proof.
  unfold extract_zip_files, extract_zip_files_fs.
  apply fs_effect_bind; [apply fs_effect_on_fs|]. intros _.
  apply fs_effect_bind; [apply fs_effect_get_fs|]. intros f.
  apply fs_effect_for_each. intros z.
  apply (fs_effect_try_log _ _ (λ _, "Error extracting zip file: " +:+ path_str z)).
  apply fs_effect_extract_zip_file.
Qed.

(** C7: extraction is idempotent.  Run again on the staging directory it has
    just processed, [extract_zip_files] ends the same way (normally, or with
    the same error when [unpacked] cannot be made) and leaves the file
    system, so every unit working directory, exactly as the first run left
    it. *)
Theorem extract_zip_files_idempotent self w :
  let r1 := extract_zip_files self w in
  let r2 := extract_zip_files self r1.2 in
  fs r2.2 = fs r1.2 ∧ r2.1 = r1.1.
Proof.
  intros r1 r2. subst r1 r2.
  destruct (fs_effect_extract_zip_files self w) as [Hr1 Hf1].
  destruct (fs_effect_extract_zip_files self (extract_zip_files self w).2)
    as [Hr2 Hf2].
  rewrite Hr2, Hf2, Hf1, Hr1.
  by rewrite extract_zip_files_fs_idem.
Qed.


(** * Further properties of the cleanup, the extractor, the engine and the driver *)

(** ** Loops whose body is guarded *)

(** A loop of guarded bodies runs every turn and returns normally. *)
Lemma guarded_loop_run {A} (body : A → M unit) (msg : A → exn → string) l w :
  for_each l (λ x, try_except (body x) (λ e, logging_warning (msg x e))) w =
  (Ok tt, foldl (guarded_step body msg) w l).
Proof.
  revert w. induction l as [|x l IH]; intros w; simpl; [done|].
  unfold bind. rewrite <- IH. unfold guarded_step, try_except.
  by destruct (body x w) as [[[]|e] w1].
Qed.

(** ** Cleanup of the archives: every item is accounted for *)

Lemma remove_zip_files_Ok self ku_list w :
  (remove_zip_files self ku_list w).1 = Ok tt.
Proof. rewrite remove_zip_files_unfold. apply remove_loop_spec. Qed.

(** [remove_zip_files] returns normally whatever it is given (missing paths,
    directories, locked files, the same path twice), keeps the warnings
    logged before, and accounts for every item it went through: an item
    either took one entry off the file system or added one warning. *)
Theorem remove_zip_files_accounts self ku_list w :
  let r := remove_zip_files self ku_list w in
  r.1 = Ok tt ∧
  warnings w `prefix_of` warnings r.2 ∧
  length (warnings r.2) + size (fs w) =
    length (warnings w) + size (fs r.2) +
    length (removal_targets self ku_list (fs w)).
Proof.
  intros r. subst r. rewrite remove_zip_files_unfold.
  generalize (removal_targets self ku_list (fs w)) as l.
  intros l. revert w. induction l as [|p l IH]; intros w.
  - simpl. split; [done|]. split; [done|lia].
  - cbn [for_each]. pose proof (remove_one_spec p w) as H. simpl in H.
    destruct (try_except _ _ w) as [r1 w1] eqn:E1. simpl in H.
    destruct H as (-> & _ & _ & Hf & ws & Hw & Hlen).
    rewrite (bind_Ok _ _ _ _ _ E1).
    destruct (IH w1) as (Hr & Hpre & Hcount).
    split; [done|]. split.
    { etrans; [|exact Hpre]. rewrite Hw. by apply prefix_app_r. }
    rewrite Hw, length_app in Hcount. rewrite Hf in Hcount. simpl.
    destruct (deletable (fs w) p) eqn:Hd.
    + apply deletable_node in Hd as [c Hc].
      apply node_at_Some_nonroot in Hc.
      rewrite map_size_delete_Some in Hcount by eauto.
      assert (size (fs w) ≠ 0).
      { intros H0. apply map_size_empty_inv in H0. rewrite H0 in Hc.
        by rewrite lookup_empty in Hc. }
      lia.
    + lia.
Qed.

(** ** Cleanup of the unpacked tree *)

Lemma rmdir_inv p f r f' :
  rmdir p f = (r, f') →
  (r = Ok tt ∧ f !! p = Some Dir ∧ glob p any_pattern f = [] ∧ f' = delete p f) ∨
  (∃ e, r = Raise e ∧ f' = f).
Proof.
  unfold rmdir, bind, get, put, raise.
  destruct (f !! p) as [[]|] eqn:Ep; [intros [= <- <-]; by eauto| |intros [= <- <-]; by eauto].
  destruct (glob p any_pattern f) eqn:Eg; intros [= <- <-]; [left|right]; eauto.
Qed.

Lemma unlink_inv p f r f' :
  unlink p f = (r, f') →
  (r = Ok tt ∧ f' = delete p f) ∨ (∃ e, r = Raise e ∧ f' = f).
Proof.
  unfold unlink, bind, get, put, raise.
  destruct (node_at f p) as [[c []|]|]; intros [= <- <-]; eauto.
Qed.

Lemma child_of_prefix d q : child_of d q = true → d `prefix_of` q.
Proof. intros H. rewrite (child_of_name _ _ H). by eexists. Qed.

Lemma child_of_irrefl d : child_of d d = false.
Proof.
  destruct (child_of d d) eqn:E; [|done].
  apply child_of_name in E. apply (f_equal length) in E.
  rewrite length_app in E. simpl in E. lia.
Qed.

(** [rmtree] only removes, and only at or below the directory it is given. *)
Lemma rmtree_depth_frame d p f r f' :
  rmtree_depth d p f = (r, f') →
  ∀ q, f' !! q = f !! q ∨ (p `prefix_of` q ∧ f' !! q = None).
Proof.
  revert p f r f'. induction d as [|d IH]; intros p f r f' H q.
  - simpl in H. destruct (rmdir_inv _ _ _ _ H) as [(_ & _ & _ & ->)|(e & _ & ->)];
      [|by left].
    destruct (decide (p = q)) as [->|Hne].
    + right. split; [done|]. apply lookup_delete_eq.
    + left. by apply lookup_delete_ne.
  - simpl in H. unfold bind at 1, get at 1 in H.
    destruct (f !! p) as [[]|] eqn:Ep;
      [injection H as <- <-; by left| |injection H as <- <-; by left].
    set (body := λ q0 : Path, match f !! q0 with
                       | Some Dir => rmtree_depth d q0
                       | _ => unlink q0
                       end) in H.
    assert (Hloop : ∀ l f1 r1 f2,
              (∀ x, x ∈ l → child_of p x = true) →
              for_each l body f1 = (r1, f2) →
              ∀ q, f2 !! q = f1 !! q ∨ (p `prefix_of` q ∧ f2 !! q = None)).
    { clear H q. induction l as [|x l IHl]; intros f1 r1 f2 Hl H q.
      - injection H as <- <-. by left.
      - simpl in H. unfold bind in H.
        destruct (body x f1) as [r0 f0] eqn:E0.
        assert (Hx : f0 !! q = f1 !! q ∨ (p `prefix_of` q ∧ f0 !! q = None)).
        { assert (Hpx : p `prefix_of` x).
          { apply child_of_prefix, Hl, list_elem_of_here. }
          unfold body in E0. destruct (f !! x) as [[]|].
          - destruct (unlink_inv _ _ _ _ E0) as [(_ & ->)|(e & _ & ->)]; [|by left].
            destruct (decide (x = q)) as [->|Hne].
            + right. split; [done|]. apply lookup_delete_eq.
            + left. by apply lookup_delete_ne.
          - destruct (IH _ _ _ _ E0 q) as [?|[Hxq ?]]; [by left|right].
            split; [by etrans|done].
          - destruct (unlink_inv _ _ _ _ E0) as [(_ & ->)|(e & _ & ->)]; [|by left].
            destruct (decide (x = q)) as [->|Hne].
            + right. split; [done|]. apply lookup_delete_eq.
            + left. by apply lookup_delete_ne. }
        assert (Hrest : f2 !! q = f0 !! q ∨ (p `prefix_of` q ∧ f2 !! q = None)).
        { destruct r0 as [[]|e]; [|injection H as <- <-; by left].
          eapply IHl; [|exact H]. intros y Hy. by apply Hl, list_elem_of_further. }
        destruct Hrest as [->|?]; [done|by right]. }
    unfold bind in H.
    destruct (for_each _ body f) as [r1 f1] eqn:E1.
    assert (H1 : f1 !! q = f !! q ∨ (p `prefix_of` q ∧ f1 !! q = None)).
    { eapply Hloop; [|exact E1]. intros x Hx. by apply elem_of_glob in Hx as (_ & ? & _). }
    destruct r1 as [[]|e]; [|by injection H as <- <-].
    destruct (rmdir_inv _ _ _ _ H) as [(_ & _ & _ & ->)|(e & _ & ->)]; [|done].
    destruct (decide (p = q)) as [->|Hne].
    + right. split; [done|]. apply lookup_delete_eq.
    + by rewrite lookup_delete_ne.
Qed.

(** When [rmtree] returns, the directory and its entries are gone. *)
Lemma rmtree_depth_Ok d p f f' :
  rmtree_depth d p f = (Ok tt, f') →
  f' !! p = None ∧ ∀ q, child_of p q = true → f' !! q = None.
Proof.
  assert (Hlast : ∀ f1, rmdir p f1 = (Ok tt, f') →
            f' !! p = None ∧ ∀ q, child_of p q = true → f' !! q = None).
  { intros f1 H.
    destruct (rmdir_inv _ _ _ _ H) as [(_ & _ & Hg & ->)|(e & ? & _)]; [|done].
    split; [apply lookup_delete_eq|]. intros q Hq.
    destruct (decide (p = q)) as [->|Hne]; [apply lookup_delete_eq|].
    rewrite lookup_delete_ne by done.
    destruct (f1 !! q) as [n|] eqn:En; [|done].
    assert (q ∈ glob p any_pattern f1) as Hin by (apply elem_of_glob; eauto).
    rewrite Hg in Hin. by apply elem_of_nil in Hin. }
  destruct d as [|d]; simpl; [apply Hlast|].
  unfold bind at 1, get at 1. destruct (f !! p) as [[]|]; [done| |done].
  intros H. apply bind_inv_Ok in H as ([] & f1 & _ & H). by eapply Hlast.
Qed.

Lemma set_fs_same w : set_fs (fs w) w = w.
Proof. by destruct w. Qed.

Lemma remove_unpacked_files_Ok self w : (remove_unpacked_files self w).1 = Ok tt.
Proof.
  unfold remove_unpacked_files, rmtree. munfold. simpl.
  by destruct (rmtree_depth _ _ _) as [[[]|e] f'].
Qed.

(** [remove_unpacked_files] returns normally in every case.  Either the
    tree was removed: the directory [unpacked] and its entries are gone, one
    line is printed and nothing is logged; or the removal failed at some
    point: nothing is printed and one warning is logged.  The engine and the
    pending input are untouched. *)
Theorem remove_unpacked_files_outcome self w :
  let U := unpacked_path self in
  let r := remove_unpacked_files self w in
  r.1 = Ok tt ∧ arc r.2 = arc w ∧ stdin r.2 = stdin w ∧
  ((stdout r.2 = stdout w ++ ["Removed unpacked folder: " +:+ path_str U] ∧
    warnings r.2 = warnings w ∧
    fs r.2 !! U = None ∧ ∀ q, child_of U q = true → fs r.2 !! q = None) ∨
   (stdout r.2 = stdout w ∧
    ∃ e, warnings r.2 =
           warnings w ++ ["Error removing unpacked folder: " +:+ path_str U +:+
                          ". Error: " +:+ exn_msg e])).
Proof.
  intros U r. subst r. unfold remove_unpacked_files. fold U.
  unfold rmtree. munfold. simpl.
  destruct (rmtree_depth (size (fs w)) U (fs w)) as [[[]|e] f'] eqn:E; simpl.
  - split; [done|]. split; [done|]. split; [done|]. left.
    split; [done|]. split; [done|]. by apply rmtree_depth_Ok in E.
  - split; [done|]. split; [done|]. split; [done|]. right. split; [done|].
    by exists e.
Qed.

(** [remove_unpacked_files] only removes, and only at or below [unpacked]:
    every other path is as it was, so no archive of the download directory
    is touched, and nothing is created or rewritten, whether the removal
    went through or stopped at an error. *)
Theorem remove_unpacked_files_frame self w :
  let w' := (remove_unpacked_files self w).2 in
  (∀ q, ¬ unpacked_path self `prefix_of` q → fs w' !! q = fs w !! q) ∧
  (∀ q, child_of (download_path self) q = true → zip_pattern (name q) = true →
        fs w' !! q = fs w !! q) ∧
  (∀ q n, fs w' !! q = Some n → fs w !! q = Some n).
Proof.
  intros w'.
  assert (H : ∀ q, fs w' !! q = fs w !! q ∨
                   (unpacked_path self `prefix_of` q ∧ fs w' !! q = None)).
  { intros q. subst w'. unfold remove_unpacked_files.
    unfold rmtree. munfold. simpl.
    destruct (rmtree_depth (size (fs w)) _ (fs w)) as [[[]|e] f'] eqn:E; simpl;
      by eapply rmtree_depth_frame. }
  split; [|split].
  - intros q Hq. destruct (H q) as [?|[? _]]; done.
  - intros q Hc Hz. destruct (H q) as [?|[Hp _]]; [done|].
    by destruct (unpacked_not_zip self q).
  - intros q n Hn. destruct (H q) as [<-|[_ ?]]; congruence.
Qed.

(** Cleanup with nothing to clean: when [unpacked] is not a directory (it
    was never made, or was removed already), [remove_unpacked_files] changes
    nothing on disk, prints nothing, and logs one warning. *)
Theorem remove_unpacked_files_missing self w :
  fs w !! unpacked_path self ≠ Some Dir →
  let r := remove_unpacked_files self w in
  r.1 = Ok tt ∧ fs r.2 = fs w ∧ stdout r.2 = stdout w ∧
  ∃ m, warnings r.2 = warnings w ++ [m].
Proof.
  intros HU r. subst r. unfold remove_unpacked_files.
  assert (E : ∃ e, rmtree_depth (size (fs w)) (unpacked_path self) (fs w) =
                   (Raise e, fs w)).
  { destruct (size (fs w)); simpl; unfold rmdir, bind, get, raise;
      destruct (fs w !! unpacked_path self) as [[]|]; try done; eauto. }
  unfold rmtree. munfold. simpl. destruct E as [e ->]. simpl.
  split; [done|]. split; [done|]. split; [done|]. eauto.
Qed.

Lemma remove_unpacked_files_missing_witness :
  let w := Staging.w0 in
  let r := remove_unpacked_files Sample.kp w in
  r.1 = Ok tt ∧ fs r.2 = fs w ∧ stdout r.2 = stdout w ∧
  ∃ m, warnings r.2 = warnings w ++ [m].
Proof.
  intros w. apply (remove_unpacked_files_missing Sample.kp w).
  by vm_compute.
Defined.


(** ** The extractor: when it halts, what it touches, what it logs *)

Lemma parent_unpacked_path self : parent (unpacked_path self) = download_path self.
Proof. unfold parent, unpacked_path. apply removelast_last. Qed.

(** [extract_zip_files] as its two parts: making [unpacked], which may
    raise and then changes nothing, and the loop over the archives, which
    runs every turn. *)
Lemma extract_zip_files_unfold self w :
  extract_zip_files self w =
  match mkdir (unpacked_path self) true (fs w) with
  | (Ok _, f0) =>
      (Ok tt,
       foldl (guarded_step (λ z, extract_zip_file self z to_extract)
                (λ z _, "Error extracting zip file: " +:+ path_str z))
         (set_fs f0 w) (glob (download_path self) zip_pattern f0))
  | (Raise e, _) => (Raise e, w)
  end.
Proof.
  unfold extract_zip_files.
  destruct (on_fs (mkdir (unpacked_path self) true) w) as [r0 w0] eqn:E.
  pose proof E as E0. apply on_fs_inv in E as [E Hw0].
  rewrite E. destruct (mkdir_inv _ _ _ _ E) as [(-> & _)|(e & -> & Hf)].
  - rewrite (bind_Ok _ _ _ _ _ E0). unfold bind at 1, get_fs at 1.
    rewrite (guarded_loop_run (λ z, extract_zip_file self z to_extract)
               (λ z _, "Error extracting zip file: " +:+ path_str z)).
    by rewrite Hw0.
  - rewrite (bind_Raise _ _ _ _ _ E0). by rewrite Hw0, Hf, set_fs_same.
Qed.

Lemma extract_zip_files_Raise self w e w' :
  extract_zip_files self w = (Raise e, w') → w' = w.
Proof.
  rewrite extract_zip_files_unfold.
  destruct (mkdir _ true (fs w)) as [[[]|e0] f0]; [done|]. by intros [= _ <-].
Qed.

(** [extract_zip_files] halts only when the directory [unpacked] cannot be
    made: it returns normally when [unpacked] is a directory already, or is
    absent with the download directory in place; in every other case the
    error of [mkdir] escapes, before any archive is looked at, and the world
    is as it was. *)
Theorem extract_zip_files_halts_only_on_mkdir self w :
  let U := unpacked_path self in
  let r := extract_zip_files self w in
  match node_at (fs w) U, node_at (fs w) (download_path self) with
  | Some Dir, _ | None, Some Dir => r.1 = Ok tt
  | _, _ => ∃ e, r = (Raise e, w) ∧ exn_msg e = path_str U
  end.
Proof.
  intros U r. subst r U. rewrite extract_zip_files_unfold.
  unfold mkdir, bind, get, put, ret, raise.
  rewrite parent_unpacked_path.
  destruct (node_at (fs w) (unpacked_path self)) as [[c lk|]|];
    [| |destruct (node_at (fs w) (download_path self)) as [[c lk|]|]];
    simpl; eauto.
Qed.

Lemma tame_mkdir U : tame U (mkdir U true).
Proof.
  intros f r f' H.
  destruct (mkdir_inv _ _ _ _ H) as [(_ & _ & [->|[Hn ->]])|(e & _ & ->)].
  - split; [done | by left].
  - split.
    + intros p n Hp. exists n. assert (U ≠ p) by congruence.
      rewrite lookup_insert_ne by done. split; [done|].
      case_decide; [apply kind_kept_refl | done].
    + intros p. destruct (decide (U = p)) as [<-|Hne].
      * right. by left.
      * left. by rewrite lookup_insert_ne.
  - split; [done | by left].
Qed.

Lemma tame_get U : tame U (@get FS).
Proof. intros f r f' [= <- <-]. split; [done | by left]. Qed.

Lemma tame_extract_zip_files_fs self :
  tame (unpacked_path self) (extract_zip_files_fs self).
Proof.
  unfold extract_zip_files_fs.
  apply tame_bind; [apply tame_mkdir|]. intros _.
  apply tame_bind; [apply tame_get|]. intros f.
  apply tame_for_each. intros z _.
  apply tame_try_except; [apply tame_extract_zip_file_fs|].
  intros _. apply tame_ret.
Qed.

Lemma on_fs_same_arc {A : Type} (c : ST FS A) : preserves same_arc (on_fs c).
Proof. by intros w. Qed.

Lemma on_fs_same_stdout {A : Type} (c : ST FS A) : preserves same_stdout (on_fs c).
Proof. by intros w. Qed.

Lemma logging_warning_same_arc msg : preserves same_arc (logging_warning msg).
Proof. by intros w. Qed.

Lemma logging_warning_same_stdout msg : preserves same_stdout (logging_warning msg).
Proof. by intros w. Qed.

Lemma extract_zip_files_same_arc self : preserves same_arc (extract_zip_files self).
Proof.
  unfold extract_zip_files, extract_zip_file.
  pose proof @on_fs_same_arc. pose proof logging_warning_same_arc.
  preserves_tac.
Qed.

Lemma extract_zip_files_same_stdout self :
  preserves same_stdout (extract_zip_files self).
Proof.
  unfold extract_zip_files, extract_zip_file.
  pose proof @on_fs_same_stdout. pose proof logging_warning_same_stdout.
  preserves_tac.
Qed.

(** [extract_zip_files] only adds, in every outcome: every node that was
    there is still there, unchanged outside the tree of [unpacked] and of the
    same kind inside (a directory stays one, a file stays a file); whatever
    is new or rewritten lies at or below [unpacked] or on the way to it; the
    archives of the download directory are exactly as they were; the engine
    and the printed output are untouched. *)
Theorem extract_zip_files_only_adds self w :
  let U := unpacked_path self in
  let w' := (extract_zip_files self w).2 in
  grows U (fs w) (fs w') ∧
  (∀ p, fs w' !! p = fs w !! p ∨ reach U p) ∧
  (∀ z, child_of (download_path self) z = true → zip_pattern (name z) = true →
        fs w' !! z = fs w !! z) ∧
  arc w' = arc w ∧ stdout w' = stdout w.
Proof.
  intros U w'. subst w'.
  destruct (fs_effect_extract_zip_files self w) as [_ Hf]. rewrite Hf.
  destruct (extract_zip_files_fs self (fs w)) as [r f'] eqn:E.
  destruct (tame_extract_zip_files_fs self _ _ _ E) as [Hg Hr]. simpl.
  split; [done|]. split; [done|]. split.
  - intros z Hc Hz. destruct (Hr z) as [?|Hreach]; [done|].
    by destruct (zip_child_not_reach self z).
  - split; [apply extract_zip_files_same_arc | apply extract_zip_files_same_stdout].
Qed.

(** Whatever [extract_zip_file] leaves as a regular file was there before,
    unchanged, or is a manifest file: it lies below [unpacked], is named by a
    manifest filename, and holds the data of a member of the archive with
    that base filename.  This holds when the extraction stops at an error as
    well, and whatever the member names are (a name with [..] parts does not
    lead out of [unpacked]). *)
Theorem extract_zip_file_writes_only_manifest self zip_file w p c lk :
  fs (extract_zip_file self zip_file to_extract w).2 !! p = Some (File c lk) →
  fs w !! p = Some (File c lk) ∨
  (unpacked_path self `prefix_of` p ∧ name p ∈ to_extract ∧ lk = false ∧
   ∃ ms lk0 m, node_at (fs w) zip_file = Some (File (Zip ms) lk0) ∧ m ∈ ms ∧
               base_name m = name p ∧ c = Raw (payload m)).
Proof.
  rewrite extract_zip_file_on_fs. unfold on_fs. simpl.
  destruct (node_at (fs w) zip_file) as [[[ms|b] lk0|]|] eqn:Ez.
  2-4: unfold extract_zip_file_fs, ZipFile, bind, get, raise; rewrite Ez;
       simpl; by left.
  rewrite (extract_zip_file_fs_members _ _ _ _ _ _ Ez).
  destruct (extractall _ _ (fs w)) as [r f'] eqn:E. simpl. intros Hp.
  destruct (extractall_files _ _ _ _ _ _ _ _ E Hp) as [?|(m & Hm & -> & -> & ->)];
    [by left|right].
  apply list_elem_of_filter in Hm as [Hb Hm].
  split; [apply targetpath_inside|].
  rewrite manifest_target_name by done. split; [done|]. split; [done|].
  by exists ms, lk0, m.
Qed.

Lemma extract_zip_file_writes_only_manifest_witness :
  let w := Staging.w0 in
  let p := ["data"; "unpacked"; "101"; "PARCELY_KN_P.shp"] in
  fs w !! p = Some (File (Raw Sample.bytes2) false) ∨
  (unpacked_path Sample.kp `prefix_of` p ∧ name p ∈ to_extract ∧ false = false ∧
   ∃ ms lk0 m, node_at (fs w) ["data"; "101.zip"] = Some (File (Zip ms) lk0) ∧
               m ∈ ms ∧ base_name m = name p ∧
               Raw Sample.bytes2 = Raw (payload m)).
Proof.
  intros w p.
  apply (extract_zip_file_writes_only_manifest Sample.kp ["data"; "101.zip"] w p).
  by vm_compute.
Defined.

(** ** The warnings of the extractor *)

Lemma extract_zip_file_same_warnings self z names w :
  warnings (extract_zip_file self z names w).2 = warnings w.
Proof. by rewrite extract_zip_file_on_fs. Qed.

Lemma extract_zip_file_non_archive self z names w :
  (∀ ms lk, node_at (fs w) z ≠ Some (File (Zip ms) lk)) →
  ∃ e, extract_zip_file self z names w = (Raise e, w).
Proof.
  intros Hz. rewrite extract_zip_file_on_fs. unfold on_fs.
  unfold extract_zip_file_fs, ZipFile, bind, get, raise.
  destruct (node_at (fs w) z) as [[[ms|b] lk|]|] eqn:E; simpl;
    rewrite ?set_fs_same; eauto.
  by destruct (Hz ms lk).
Qed.

Lemma zip_child_lookup z f d :
  child_of d z = true → node_at f z = f !! z.
Proof. by destruct z. Qed.

(** ** The engine: what one unit touches *)

Global Instance same_settings_preorder : PreOrder same_settings.
Proof.
  split; [done|]. intros x y z. unfold same_settings. intros H1 H2.
  destruct_and!. split_and!; congruence.
Qed.

Global Instance store_and_transient_only_preorder :
  PreOrder store_and_transient_only.
Proof.
  split; [done|]. intros x y z (Hf1 & Hw1 & Hs1 & Hc1) (Hf2 & Hw2 & Hs2 & Hc2).
  split; [congruence|]. split; [congruence|]. split; [by etrans|].
  intros p Hp1 Hp2. rewrite Hc2, Hc1; try done.
  destruct Hs1 as (Hws & _). by rewrite !catalog_path_KU, Hws.
Qed.

Ltac store_op :=
  intros w; unfold store_and_transient_only, same_settings;
  munfold; simpl;
  change (catalog_path (arc w) "in_memory/spatial_join") with transient;
  repeat (case_match; simpl; try done);
  (split_and!; try done);
  intros p Hp1 Hp2; simpl;
  rewrite ?lookup_insert_ne, ?lookup_delete_ne by done; done.

Lemma Delete_transient_store :
  preserves store_and_transient_only (Delete_management "in_memory/spatial_join").
Proof. unfold Delete_management. store_op. Qed.

Lemma write_transient_store fc :
  preserves store_and_transient_only (write_output "in_memory/spatial_join" fc).
Proof. unfold write_output. store_op. Qed.

Lemma CopyFeatures_store :
  preserves store_and_transient_only (CopyFeatures "in_memory/spatial_join" "KU").
Proof. unfold CopyFeatures, write_output. store_op. Qed.

Lemma Append_management_store :
  preserves store_and_transient_only
    (Append_management "in_memory/spatial_join" "KU").
Proof. unfold Append_management. store_op. Qed.

Lemma Exists_store d : preserves store_and_transient_only (Exists d).
Proof. unfold Exists. store_op. Qed.

Lemma SpatialJoin_store sj t j op :
  preserves store_and_transient_only
    (SpatialJoin sj t j "in_memory/spatial_join" op).
Proof. unfold SpatialJoin, write_output. store_op. Qed.

Lemma process_single_ku_store sj self k :
  preserves store_and_transient_only (process_single_ku sj self (Some k)).
Proof.
  unfold process_single_ku.
  pose proof Delete_transient_store. pose proof CopyFeatures_store.
  pose proof Append_management_store. pose proof Exists_store.
  pose proof SpatialJoin_store.
  preserves_tac.
Qed.

Global Instance same_io_preorder : PreOrder same_io.
Proof.
  split; [done|]. intros x y z [? ?] [? ?]. split; congruence.
Qed.

Ltac io_op :=
  intros w; unfold same_io; munfold; simpl;
  repeat (case_match; simpl; try done); try done.

Lemma Delete_management_same_io d : preserves same_io (Delete_management d).
Proof. unfold Delete_management. io_op. Qed.

Lemma write_output_same_io out fc : preserves same_io (write_output out fc).
Proof. unfold write_output. io_op. Qed.

Lemma CopyFeatures_same_io i o : preserves same_io (CopyFeatures i o).
Proof. unfold CopyFeatures, write_output. io_op. Qed.

Lemma Append_management_same_io i t : preserves same_io (Append_management i t).
Proof. unfold Append_management. io_op. Qed.

Lemma Exists_same_io d : preserves same_io (Exists d).
Proof. unfold Exists. io_op. Qed.

Lemma SpatialJoin_same_io sj t j o op : preserves same_io (SpatialJoin sj t j o op).
Proof. unfold SpatialJoin, write_output. io_op. Qed.

Lemma logging_warning_same_io msg : preserves same_io (logging_warning msg).
Proof. by intros w. Qed.

Lemma process_single_ku_same_io sj self k :
  preserves same_io (process_single_ku sj self (Some k)).
Proof.
  unfold process_single_ku.
  pose proof Delete_management_same_io. pose proof CopyFeatures_same_io.
  pose proof Append_management_same_io. pose proof Exists_same_io.
  pose proof SpatialJoin_same_io.
  preserves_tac.
Qed.

Lemma input_store prompt : preserves store_and_transient_only (input prompt).
Proof. unfold input. intros w. by destruct (stdin w). Qed.

(** One unit touches the store KU of the current workspace and the
    transient result of the join, and nothing else: every file outside the
    directory of the current workspace, the warnings, the settings of the
    environment and every other dataset of the catalog are as they were,
    whether the unit went through or stopped at an error.  (What the engine
    writes inside the workspace to store KU is not described.)  A unit given
    by name prints nothing and reads nothing. *)
Theorem process_single_ku_frame sj self ku w :
  let w' := (process_single_ku sj self ku w).2 in
  (∀ p, ¬ default [] (env_workspace (arc w)) `prefix_of` p →
        fs w' !! p = fs w !! p) ∧
  warnings w' = warnings w ∧ same_settings w w' ∧
  (∀ p, p ≠ catalog_path (arc w) "KU" → p ≠ transient →
        catalog (arc w') !! p = catalog (arc w) !! p) ∧
  (is_Some ku → stdout w' = stdout w ∧ stdin w' = stdin w).
Proof.
  intros w'. subst w'.
  assert (H : preserves store_and_transient_only (process_single_ku sj self ku)).
  { unfold process_single_ku.
    pose proof Delete_transient_store. pose proof CopyFeatures_store.
    pose proof Append_management_store. pose proof Exists_store.
    pose proof SpatialJoin_store. pose proof input_store.
    preserves_tac. }
  destruct (H w) as (Hf & ? & ? & ?). split_and!; try done.
  - intros p _. by rewrite Hf.
  - intros [k ->]. apply process_single_ku_same_io.
Qed.

(** ** The accumulation: setup, loop and report *)

Lemma guarded_fold_preserves (R : relation World) `{!PreOrder R} {A}
    (body : A → M unit) (msg : A → exn → string) l w :
  (∀ x, preserves R (body x)) → (∀ m, preserves R (logging_warning m)) →
  R w (foldl (guarded_step body msg) w l).
Proof.
  intros Hb Hl. revert w. induction l as [|x l IH]; intros w; simpl; [done|].
  etrans; [|apply IH]. unfold guarded_step.
  pose proof (Hb x w) as H1. destruct (body x w) as [[[]|e] w1]; [done|].
  etrans; [exact H1|]. apply Hl.
Qed.

Lemma configure_run self (k : M unit) w :
  (set_workspace (gdb_path self) ;;
   set_XYDomain "-916406 -1234597 -419902 -738093" ;;
   sr ← SpatialReference "S-JTSK_Krovak_East_North";
   set_overwriteOutput true ;;
   set_parallelProcessingFactor "100%" ;;
   k) w = k (configured self w).
Proof. reflexivity. Qed.

(** [upload_data_to_gdb] as its three parts: the step that makes the
    container ready, which may raise; the assignments to the environment and
    the loop over the units, which do not; the report. *)
Lemma upload_data_to_gdb_unfold sj self w :
  upload_data_to_gdb sj self w =
  match container_step self w with
  | (Ok _, w0) =>
      (Ok tt,
       (print ("Resulting GDB file path: " +:+ path_str (gdb_path self))
          (foldl (guarded_step
                    (λ ku, process_single_ku sj self (Some (name ku)))
                    (λ ku e, "Error processing KU: " +:+ name ku +:+
                             ". Error: " +:+ exn_msg e))
             (configured self w0)
             (glob (unpacked_path self) any_pattern (fs w0)))).2)
  | (Raise e, w0) => (Raise e, w0)
  end.
Proof.
  unfold upload_data_to_gdb, container_step.
  unfold bind at 1, get_fs at 1. symmetry. unfold bind at 1, get_fs at 1.
  symmetry. unfold bind at 1.
  match goal with
  | |- context [match ?c w with _ => _ end] =>
      destruct (c w) as [[[]|e] w0]; [|done]
  end.
  rewrite configure_run. unfold bind at 1, get_fs at 1. unfold bind at 1.
  rewrite (guarded_loop_run
             (λ ku, process_single_ku sj self (Some (name ku)))
             (λ ku e, "Error processing KU: " +:+ name ku +:+
                      ". Error: " +:+ exn_msg e)).
  done.
Qed.

Lemma parent_name (p : Path) : p ≠ [] → parent p ++ [name p] = p.
Proof.
  destruct p as [|x p _] using rev_ind; [done|]. intros _.
  unfold parent, name, last_item. by rewrite removelast_last, last_snoc.
Qed.

(** The step that makes the container ready: it raises and changes
    nothing, or it returns having deleted the dataset KU of the workspace
    current at that moment (the container exists) or created the directory
    of the container (it does not). *)
Lemma container_step_inv self w r w0 :
  container_step self w = (r, w0) →
  (∃ e, r = Raise e ∧ w0 = w ∧ exn_class e = "ExecuteError" ∧
        match node_at (fs w) (gdb_path self) with
        | Some _ => strict_delete (arc w) = true ∧
                    catalog (arc w) !! catalog_path (arc w) "KU" = None
        | None => node_at (fs w) (parent (gdb_path self)) ≠ Some Dir
        end) ∨
  (r = Ok tt ∧ same_settings w w0 ∧ warnings w0 = warnings w ∧ same_io w w0 ∧
   match node_at (fs w) (gdb_path self) with
   | Some _ => fs w0 = fs w ∧
               catalog (arc w0) =
                 delete (catalog_path (arc w) "KU") (catalog (arc w))
   | None => fs w0 = <[gdb_path self := Dir]> (fs w) ∧
             catalog (arc w0) = catalog (arc w)
   end).
Proof.
  unfold container_step. unfold bind at 1, get_fs at 1.
  destruct (node_at (fs w) (gdb_path self)) as [n|] eqn:En.
  - rewrite bool_decide_eq_true_2 by eauto.
    unfold Delete_management. munfold.
    destruct (catalog (arc w) !! catalog_path (arc w) "KU") as [fc|] eqn:Ek.
    + intros [= <- <-]. right. by repeat split.
    + destruct (strict_delete (arc w)) eqn:Es; intros [= <- <-].
      * left. eexists. by repeat split.
      * right. repeat split; try done. by rewrite delete_id.
  - rewrite bool_decide_eq_false_2 by (by intros [? ?]).
    apply node_at_None in En as [En Hne].
    unfold CreateFileGDB_management. munfold.
    rewrite (parent_name _ Hne), En.
    destruct (node_at (fs w) (parent (gdb_path self))) as [[c lk|]|] eqn:Ep;
      intros [= <- <-].
    + left. eexists. by repeat split.
    + right. by repeat split.
    + left. eexists. by repeat split.
Qed.

Lemma upload_data_to_gdb_Raise sj self w e w' :
  upload_data_to_gdb sj self w = (Raise e, w') → w' = w.
Proof.
  rewrite upload_data_to_gdb_unfold.
  destruct (container_step self w) as [r w0] eqn:E.
  destruct (container_step_inv _ _ _ _ E) as [(e0 & -> & -> & _)|(-> & _)];
    [|done].
  by intros [= _ <-].
Qed.

(** [upload_data_to_gdb] halts only in its first step, before it has set
    anything: when it raises, the world is as it was (no setting assigned,
    no unit processed, nothing printed), the error is the engine's, and its
    cause is one of two: the container exists and the release in use refuses
    to delete a dataset KU that the current workspace does not have, or the
    container is absent and the folder it should go in is not there. *)
Theorem upload_data_to_gdb_halts_only_in_setup sj self w e w' :
  upload_data_to_gdb sj self w = (Raise e, w') →
  w' = w ∧ exn_class e = "ExecuteError" ∧
  match node_at (fs w) (gdb_path self) with
  | Some _ => strict_delete (arc w) = true ∧
              catalog (arc w) !! catalog_path (arc w) "KU" = None
  | None => node_at (fs w) (parent (gdb_path self)) ≠ Some Dir
  end.
Proof.
  rewrite upload_data_to_gdb_unfold.
  destruct (container_step self w) as [r w0] eqn:E.
  destruct (container_step_inv _ _ _ _ E) as [(e0 & -> & -> & ? & ?)|(-> & _)];
    [|done].
  by intros [= <- <-].
Qed.

Lemma upload_data_to_gdb_halts_only_in_setup_witness :
  let w := Staging.w0 in
  w = w ∧
  exn_class (ExecuteError "ERROR 000732: Output folder does not exist") =
    "ExecuteError" ∧
  match node_at (fs w) (gdb_path Sample.kp) with
  | Some _ => strict_delete (arc w) = true ∧
              catalog (arc w) !! catalog_path (arc w) "KU" = None
  | None => node_at (fs w) (parent (gdb_path Sample.kp)) ≠ Some Dir
  end.
Proof.
  intros w.
  apply (upload_data_to_gdb_halts_only_in_setup Sample.join_tool Sample.kp w).
  by vm_compute.
Defined.

Lemma process_single_ku_same_settings sj self k :
  preserves same_settings (process_single_ku sj self (Some k)).
Proof. intros w. by destruct (process_single_ku_store sj self k w) as (_ & _ & ? & _). Qed.

Lemma logging_warning_same_settings msg :
  preserves same_settings (logging_warning msg).
Proof. by intros w. Qed.

(** What the loop over the units keeps. *)
Lemma units_loop_keeps sj self l w :
  let w' := foldl (guarded_step
                     (λ ku, process_single_ku sj self (Some (name ku)))
                     (λ ku e, "Error processing KU: " +:+ name ku +:+
                              ". Error: " +:+ exn_msg e)) w l in
  fs w' = fs w ∧ same_settings w w' ∧ same_io w w'.
Proof.
  intros w'. subst w'. split; [|split].
  - apply (guarded_fold_preserves same_fs); intros; auto with pres.
  - apply (guarded_fold_preserves same_settings); intros;
      [apply process_single_ku_same_settings | apply logging_warning_same_settings].
  - apply (guarded_fold_preserves same_io); intros;
      [apply process_single_ku_same_io | apply logging_warning_same_io].
Qed.

(** When [upload_data_to_gdb] returns, the environment is set as the method
    sets it, whatever the units did: the workspace is the container, the
    coordinate domain, the overwrite switch and the parallel factor have
    their fixed values; the container exists; the last line printed is the
    report, and it is the only line printed. *)
Theorem upload_data_to_gdb_environment sj self w w' :
  upload_data_to_gdb sj self w = (Ok tt, w') →
  env_workspace (arc w') = Some (gdb_path self) ∧
  env_XYDomain (arc w') = Some "-916406 -1234597 -419902 -738093" ∧
  env_overwriteOutput (arc w') = true ∧
  env_parallelProcessingFactor (arc w') = Some "100%" ∧
  is_Some (node_at (fs w') (gdb_path self)) ∧
  stdout w' = stdout w ++
    ["Resulting GDB file path: " +:+ path_str (gdb_path self)].
Proof.
  rewrite upload_data_to_gdb_unfold.
  destruct (container_step self w) as [r w0] eqn:E.
  destruct (container_step_inv _ _ _ _ E)
    as [(e0 & -> & _)|(-> & _ & _ & [Ho _] & Hc)]; [done|].
  intros [= <-].
  destruct (units_loop_keeps sj self (glob (unpacked_path self) any_pattern (fs w0))
              (configured self w0))
    as (Hf & (Hws & Hxy & _ & Hov & Hpp & _) & [Hout _]).
  simpl in *. split_and!; try done.
  - rewrite Hf. destruct (node_at (fs w) (gdb_path self)) as [n|] eqn:En.
    + destruct Hc as [-> _]. eauto.
    + destruct Hc as [-> _]. apply node_at_None in En as [_ Hne].
      unfold node_at. destruct (gdb_path self); [done|].
      rewrite lookup_insert_eq. eauto.
  - by rewrite Hout, Ho.
Qed.

Lemma upload_data_to_gdb_environment_witness :
  let w := Sample.world Sample.fs_unpacked (Sample.arc_with None ∅ false) in
  let w' := (upload_data_to_gdb Sample.join_tool Sample.kp w).2 in
  env_workspace (arc w') = Some (gdb_path Sample.kp) ∧
  env_XYDomain (arc w') = Some "-916406 -1234597 -419902 -738093" ∧
  env_overwriteOutput (arc w') = true ∧
  env_parallelProcessingFactor (arc w') = Some "100%" ∧
  is_Some (node_at (fs w') (gdb_path Sample.kp)) ∧
  stdout w' = stdout w ++
    ["Resulting GDB file path: " +:+ path_str (gdb_path Sample.kp)].
Proof.
  intros w w'.
  apply (upload_data_to_gdb_environment Sample.join_tool Sample.kp w w').
  by vm_compute.
Defined.

(** [upload_data_to_gdb] leaves the staging area alone.  Every path is as
    it was, unless it lies at or below the container, or at or below the
    workspace in which the first step deleted a dataset KU (the container
    was there and the workspace current at that moment had one): so the
    archives and the unpacked units outside these two places are all still
    there, unchanged, whether the run went through or halted.  (What the
    engine writes inside a workspace to store its datasets is not
    described.)  It reads nothing from the input. *)
Theorem upload_data_to_gdb_files sj self w :
  let w' := (upload_data_to_gdb sj self w).2 in
  (∀ p, ¬ gdb_path self `prefix_of` p →
        (is_Some (node_at (fs w) (gdb_path self)) →
         is_Some (catalog (arc w) !! catalog_path (arc w) "KU") →
         ¬ default [] (env_workspace (arc w)) `prefix_of` p) →
        fs w' !! p = fs w !! p) ∧
  stdin w' = stdin w.
Proof.
  intros w'. subst w'. rewrite upload_data_to_gdb_unfold.
  destruct (container_step self w) as [r w0] eqn:E.
  destruct (container_step_inv _ _ _ _ E)
    as [(e0 & -> & -> & _)|(-> & _ & _ & [_ Hi] & Hc)]; [done|].
  destruct (units_loop_keeps sj self (glob (unpacked_path self) any_pattern (fs w0))
              (configured self w0)) as (Hf & _ & [_ Hin]).
  simpl in *. rewrite Hf, Hin, Hi. split; [|done].
  intros p Hp _.
  destruct (node_at (fs w) (gdb_path self)) as [n|] eqn:En.
  - by destruct Hc as [-> _].
  - destruct Hc as [-> _]. apply lookup_insert_ne. by intros <-.
Qed.

Lemma SpatialJoin_overwrite sj t j op w :
  env_overwriteOutput (arc w) = true →
  SpatialJoin sj t j "in_memory/spatial_join" op w =
  match sj (fs w) t j with
  | Some fc => (Ok tt, set_catalog (<[transient := fc]> (catalog (arc w))) w)
  | None => (Raise (ExecuteError "ERROR 999999: Spatial Join failed"), w)
  end.
Proof.
  intros Ho. unfold SpatialJoin, write_output, set_catalog. munfold.
  destruct (sj (fs w) t j) as [fc|]; [|done].
  change (catalog_path (arc w) "in_memory/spatial_join") with transient.
  rewrite Ho. by destruct (catalog (arc w) !! transient).
Qed.

(** One turn of the loop over the units, in the configured environment. *)
Lemma accumulate_step sj self w ku :
  env_workspace (arc w) = Some (gdb_path self) →
  env_overwriteOutput (arc w) = true →
  catalog (arc (guarded_step
                  (λ ku, process_single_ku sj self (Some (name ku)))
                  (λ ku e, "Error processing KU: " +:+ name ku +:+
                           ". Error: " +:+ exn_msg e) w ku))
    !! (gdb_path self ++ ["KU"]) =
  accumulate (catalog (arc w) !! (gdb_path self ++ ["KU"]))
             (joined sj self (fs w) (name ku)).
Proof.
  intros Hws Ho. unfold guarded_step, joined.
  rewrite process_single_ku_after_join, (SpatialJoin_overwrite _ _ _ _ _ Ho).
  destruct (sj (fs w) _ _) as [fc|]; [|done].
  set (w1 := set_catalog (<[transient := fc]> (catalog (arc w))) w).
  assert (HKU : catalog_path (arc w1) "KU" = gdb_path self ++ ["KU"]).
  { unfold w1. rewrite catalog_path_set_catalog, catalog_path_KU. by rewrite Hws. }
  assert (Hne : gdb_path self ++ ["KU"] ≠ transient).
  { rewrite <- HKU. apply KU_ne_transient. }
  assert (Hst : catalog (arc w1) !! (gdb_path self ++ ["KU"]) =
                catalog (arc w) !! (gdb_path self ++ ["KU"])).
  { unfold w1. rewrite catalog_set_catalog. by rewrite lookup_insert_ne. }
  rewrite (fold_then_discard fc w1)
    by (unfold w1; by rewrite catalog_set_catalog, lookup_insert_eq).
  rewrite HKU, Hst.
  destruct (catalog (arc w) !! (gdb_path self ++ ["KU"])) as [t|]; simpl.
  - case_bool_decide; simpl.
    + by rewrite lookup_delete_ne, lookup_insert_eq.
    + exact Hst.
  - by rewrite lookup_delete_ne, lookup_insert_eq.
Qed.

Lemma accumulate_fold sj self l w :
  env_workspace (arc w) = Some (gdb_path self) →
  env_overwriteOutput (arc w) = true →
  catalog (arc (foldl (guarded_step
                         (λ ku, process_single_ku sj self (Some (name ku)))
                         (λ ku e, "Error processing KU: " +:+ name ku +:+
                                  ". Error: " +:+ exn_msg e)) w l))
    !! (gdb_path self ++ ["KU"]) =
  foldl (λ store ku, accumulate store (joined sj self (fs w) (name ku)))
        (catalog (arc w) !! (gdb_path self ++ ["KU"])) l.
Proof.
  revert w. induction l as [|x l IH]; intros w Hws Ho; [done|].
  cbn [foldl].
  destruct (units_loop_keeps sj self [x] w) as (Hf & (Hws1 & _ & _ & Ho1 & _) & _).
  cbn [foldl] in Hf, Hws1, Ho1.
  rewrite IH by congruence. rewrite Hf. by rewrite accumulate_step.
Qed.

(** The store that [upload_data_to_gdb] leaves in the container is the fold
    of the units' joins, in the order the units are listed, from the store
    the run starts with: a unit whose join fails is skipped, the first unit
    joined makes the store, every later one is appended when its fields are
    those of the store and dropped when they are not.  The run starts with
    no store only when the container existed and the workspace was already
    set to it; otherwise a store left in the container is what it starts
    with (the delete of the first step addresses the workspace current at
    that moment). *)
Theorem upload_data_to_gdb_folds sj self w w' :
  upload_data_to_gdb sj self w = (Ok tt, w') →
  let KU := gdb_path self ++ ["KU"] in
  let start :=
    if bool_decide (is_Some (node_at (fs w) (gdb_path self)) ∧
                    default [] (env_workspace (arc w)) = gdb_path self)
    then None else catalog (arc w) !! KU in
  catalog (arc w') !! KU =
  foldl (λ store ku, accumulate store (joined sj self (fs w') (name ku)))
        start (glob (unpacked_path self) any_pattern (fs w')).
Proof.
  rewrite upload_data_to_gdb_unfold.
  destruct (container_step self w) as [r w0] eqn:E.
  destruct (container_step_inv _ _ _ _ E)
    as [(e0 & -> & _)|(-> & _ & _ & _ & Hc)]; [done|].
  intros [= <-] KU start.
  set (l := glob (unpacked_path self) any_pattern (fs w0)).
  destruct (units_loop_keeps sj self l (configured self w0)) as (Hf & _).
  set (wl := foldl _ (configured self w0) l) in *.
  change (catalog (arc wl) !! KU =
          foldl (λ store ku, accumulate store (joined sj self (fs wl) (name ku)))
                start (glob (unpacked_path self) any_pattern (fs wl))).
  rewrite Hf. change (fs (configured self w0)) with (fs w0). fold l.
  unfold wl, KU. rewrite accumulate_fold by done.
  change (fs (configured self w0)) with (fs w0).
  change (catalog (arc (configured self w0))) with (catalog (arc w0)).
  f_equal. subst start KU.
  destruct (node_at (fs w) (gdb_path self)) as [n|] eqn:En.
  - destruct Hc as [_ ->]. rewrite catalog_path_KU.
    case_bool_decide as Hd.
    + destruct Hd as [_ ->]. apply lookup_delete_eq.
    + apply lookup_delete_ne. intros Heq. apply Hd. split; [eauto|].
      by apply app_inv_tail in Heq.
  - destruct Hc as [_ ->]. rewrite bool_decide_eq_false_2; [done|].
    by intros [[? ?] _].
Qed.

Lemma upload_data_to_gdb_folds_witness :
  let w := Sample.world Sample.fs_unpacked
             (Sample.arc_with None {[Sample.KU := Sample.stale]} false) in
  let w' := (upload_data_to_gdb Sample.join_tool Sample.kp w).2 in
  let KU := gdb_path Sample.kp ++ ["KU"] in
  let start :=
    if bool_decide (is_Some (node_at (fs w) (gdb_path Sample.kp)) ∧
                    default [] (env_workspace (arc w)) = gdb_path Sample.kp)
    then None else catalog (arc w) !! KU in
  catalog (arc w') !! KU =
  foldl (λ store ku,
           accumulate store (joined Sample.join_tool Sample.kp (fs w') (name ku)))
        start (glob (unpacked_path Sample.kp) any_pattern (fs w')).
Proof.
  intros w w'.
  apply (upload_data_to_gdb_folds Sample.join_tool Sample.kp w w').
  by vm_compute.
Defined.


(** ** The downloader and the driver *)

Section Driver.
Context (sj : FS → Path → Path → option FeatureClass) (load_config : M Config)
  (WebDriver WebElement : Type) (webdriver_Chrome : Path → M WebDriver)
  (driver_get : WebDriver → string → M unit)
  (find_elements : WebDriver → string → M (list WebElement))
  (click : WebElement → M unit).


(** The driver reports the error of the stage that halted.  When the
    construction of the downloader, the download, or the construction of
    the parser raises an Exception, the driver returns normally, and the
    world it leaves is the one that stage left with one more printed line:
    the fixed prefix followed by the message of that very error.  So no
    later stage has run: nothing is extracted, accumulated or removed. *)
Theorem download_and_process_kus_reports w e wf :
  is_Exception e = true →
  (KuDownloader_init load_config _ webdriver_Chrome w = (Raise e, wf) ∨
   ∃ kd w1,
     KuDownloader_init load_config _ webdriver_Chrome w = (Ok kd, w1) ∧
     (download_all_kus _ _ driver_get find_elements click kd w1 = (Raise e, wf) ∨
      ∃ w2,
        download_all_kus _ _ driver_get find_elements click kd w1 = (Ok tt, w2) ∧
        KUParser_init load_config w2 = (Raise e, wf))) →
  download_and_process_kus sj load_config _ _ webdriver_Chrome
    driver_get find_elements click w =
  (Ok tt, (print ("An error occurred: " +:+ exn_msg e) wf).2).
Proof.
  intros _ H. unfold download_and_process_kus. unfold try_except at 1.
  destruct H as [H1|(kd & w1 & H1 & [H2|(w2 & H2 & H3)])].
  - by rewrite (bind_Raise _ _ _ _ _ H1).
  - by rewrite (bind_Ok _ _ _ _ _ H1), (bind_Raise _ _ _ _ _ H2).
  - by rewrite (bind_Ok _ _ _ _ _ H1), (bind_Ok _ _ _ _ _ H2),
         (bind_Raise _ _ _ _ _ H3).
Qed.

(** The stages in sequence.  Once the downloader and the two constructors
    have gone through: when the extractor halts, or when the accumulation
    halts, the driver prints the one line of the error on the world as it
    was when that stage began, so that no later stage has run, the cleanup
    in particular, and every archive and unpacked file is still there; when
    both go through, the two cleanups run, neither can halt, and [Done] is
    printed last. *)
Theorem download_and_process_kus_stages w kd w1 w2 kp w3 :
  KuDownloader_init load_config _ webdriver_Chrome w = (Ok kd, w1) →
  download_all_kus _ _ driver_get find_elements click kd w1 = (Ok tt, w2) →
  KUParser_init load_config w2 = (Ok kp, w3) →
  download_and_process_kus sj load_config _ _ webdriver_Chrome
    driver_get find_elements click w =
  (Ok tt,
   match extract_zip_files kp w3 with
   | (Raise e, _) => (print ("An error occurred: " +:+ exn_msg e) w3).2
   | (Ok _, w4) =>
       match upload_data_to_gdb sj kp w4 with
       | (Raise e, _) => (print ("An error occurred: " +:+ exn_msg e) w4).2
       | (Ok _, w5) =>
           (print "Done"
              (remove_unpacked_files kp (remove_zip_files kp None w5).2).2).2
       end
   end).
Proof.
  intros H1 H2 H3. unfold download_and_process_kus. unfold try_except at 1.
  rewrite (bind_Ok _ _ _ _ _ H1), (bind_Ok _ _ _ _ _ H2), (bind_Ok _ _ _ _ _ H3).
  unfold bind at 1.
  destruct (extract_zip_files kp w3) as [[[]|e] w4] eqn:E4.
  2:{ by rewrite (extract_zip_files_Raise _ _ _ _ E4). }
  unfold bind at 1.
  destruct (upload_data_to_gdb sj kp w4) as [[[]|e] w5] eqn:E5.
  2:{ by rewrite (upload_data_to_gdb_Raise _ _ _ _ _ E5). }
  pose proof (remove_zip_files_Ok kp None w5) as Hz.
  unfold bind at 1.
  destruct (remove_zip_files kp None w5) as [[[]|?] w6]; [|done].
  cbn [snd].
  pose proof (remove_unpacked_files_Ok kp w6) as Hu.
  unfold bind at 1.
  by destruct (remove_unpacked_files kp w6) as [[[]|?] w7].
Qed.

End Driver.


Lemma download_and_process_kus_reports_witness :
  let w := Staging.w0 in
  download_and_process_kus Sample.join_tool Browser.load_config _ _
    (λ _, ret ["Name"; "Parent Directory"; "100.zip"; "stale"; "101.zip"])
    Browser.driver_get Browser.find_elements Browser.click w =
  (Ok tt,
   (print ("An error occurred: " +:+
           exn_msg (Exn "Exception"
                      "Error occurred while downloading KUs. Error: stale element reference"))
      w).2).
Proof.
  intros w.
  apply (download_and_process_kus_reports Sample.join_tool Browser.load_config
           _ _ (λ _, ret ["Name"; "Parent Directory"; "100.zip"; "stale"; "101.zip"])
           Browser.driver_get Browser.find_elements Browser.click w
           (Exn "Exception"
              "Error occurred while downloading KUs. Error: stale element reference")
           w).
  - by vm_compute.
  - right.
    exists {| kd_download_path := ["data"];
              kd_driver := ["Name"; "Parent Directory"; "100.zip"; "stale"; "101.zip"];
              kd_download_list := [] |}, w.
    split; [by vm_compute|]. left. by vm_compute.
Defined.

Lemma download_and_process_kus_stages_witness :
  let w := Staging.w0 in
  let kp := Sample.kp in
  download_and_process_kus Sample.join_tool Browser.load_config _ _
    Browser.Chrome Browser.driver_get Browser.find_elements Browser.click w =
  (Ok tt,
   match extract_zip_files kp w with
   | (Raise e, _) => (print ("An error occurred: " +:+ exn_msg e) w).2
   | (Ok _, w4) =>
       match upload_data_to_gdb Sample.join_tool kp w4 with
       | (Raise e, _) => (print ("An error occurred: " +:+ exn_msg e) w4).2
       | (Ok _, w5) =>
           (print "Done"
              (remove_unpacked_files kp (remove_zip_files kp None w5).2).2).2
       end
   end).
Proof.
  intros w kp.
  apply (download_and_process_kus_stages Sample.join_tool Browser.load_config
           _ _ Browser.Chrome Browser.driver_get Browser.find_elements
           Browser.click w
           {| kd_download_path := ["data"];
              kd_driver := ["Name"; "Parent Directory"; "100.zip"; "101.zip"];
              kd_download_list := [] |} w w kp w);
    by vm_compute.
Defined.


(** ** A corrupt archive is skipped *)

Global Instance same_data_equiv : Equivalence same_data.
Proof.
  split.
  - by intros w.
  - intros w1 w2 (? & ? & ?). by split_and!.
  - intros w1 w2 w3 (? & ? & ?) (? & ? & ?). split_and!; congruence.
Qed.

Section Blind.

Lemma log_blind_ret {A : Type} (a : A) : log_blind (ret a).
Proof. by intros w1 w2 H. Qed.

Lemma log_blind_raise {A : Type} e : log_blind (@raise World A e).
Proof. by intros w1 w2 H. Qed.

Lemma log_blind_get_fs : log_blind get_fs.
Proof. intros w1 w2 H. split; [|done]. simpl. by destruct H as [-> _]. Qed.

Lemma log_blind_get_arc : log_blind get_arc.
Proof. intros w1 w2 H. split; [|done]. simpl. by destruct H as (_ & -> & _). Qed.

Lemma log_blind_put_fs f : log_blind (put_fs f).
Proof. intros w1 w2 (? & ? & ?). by split. Qed.

Lemma log_blind_put_arc a : log_blind (put_arc a).
Proof. intros w1 w2 (? & ? & ?). by split. Qed.

Lemma log_blind_on_fs {A : Type} (c : ST FS A) : log_blind (on_fs c).
Proof.
  intros w1 w2 (Hf & ? & ?). unfold on_fs, same_data. simpl.
  rewrite Hf. by split_and!.
Qed.

Lemma log_blind_logging_warning msg : log_blind (logging_warning msg).
Proof. intros w1 w2 (? & ? & ?). by split. Qed.

Lemma log_blind_print msg : log_blind (print msg).
Proof. intros w1 w2 (? & ? & ?). by split. Qed.

Lemma log_blind_input prompt : log_blind (input prompt).
Proof.
  intros w1 w2 (? & ? & Hi). unfold input, same_data. rewrite Hi.
  by destruct (stdin w2).
Qed.

Lemma log_blind_bind {A B : Type} (c : M A) (k : A → M B) :
  log_blind c → (∀ a, log_blind (k a)) → log_blind (bind c k).
Proof.
  intros Hc Hk w1 w2 H. unfold bind. destruct (Hc w1 w2 H) as [Hr Hd].
  destruct (c w1) as [r1 v1], (c w2) as [r2 v2]. simpl in *. subst r2.
  destruct r1 as [a|e]; [by apply Hk | done].
Qed.

Lemma log_blind_try_except {A : Type} (c : M A) h :
  log_blind c → (∀ e, log_blind (h e)) → log_blind (try_except c h).
Proof.
  intros Hc Hh w1 w2 H. unfold try_except. destruct (Hc w1 w2 H) as [Hr Hd].
  destruct (c w1) as [r1 v1], (c w2) as [r2 v2]. simpl in *. subst r2.
  destruct r1 as [a|e]; [done | by apply Hh].
Qed.

Lemma log_blind_for_each {A : Type} (l : list A) (body : A → M unit) :
  (∀ x, log_blind (body x)) → log_blind (for_each l body).
Proof.
  intros Hb. induction l as [|x l IH]; simpl; [apply log_blind_ret|].
  apply log_blind_bind; [apply Hb | by intros _].
Qed.

End Blind.

Ltac blind_step :=
  lazymatch goal with
  | |- log_blind (bind _ _) => apply log_blind_bind; [|intros ?]
  | |- log_blind (ret _) => apply log_blind_ret
  | |- log_blind (raise _) => apply log_blind_raise
  | |- log_blind get_fs => apply log_blind_get_fs
  | |- log_blind get_arc => apply log_blind_get_arc
  | |- log_blind (put_fs _) => apply log_blind_put_fs
  | |- log_blind (put_arc _) => apply log_blind_put_arc
  | |- log_blind (on_fs _) => apply log_blind_on_fs
  | |- log_blind (logging_warning _) => apply log_blind_logging_warning
  | |- log_blind (print _) => apply log_blind_print
  | |- log_blind (input _) => apply log_blind_input
  | |- log_blind (try_except _ _) => apply log_blind_try_except; [|intros ?]
  | |- log_blind (for_each _ _) => apply log_blind_for_each; intros ?
  | |- log_blind (match ?x with _ => _ end) => destruct x
  end.

Ltac blind_tac := repeat blind_step.

Lemma log_blind_extract_zip_file self z names :
  log_blind (extract_zip_file self z names).
Proof. unfold extract_zip_file. blind_tac. Qed.

Lemma log_blind_upload_data_to_gdb sj self : log_blind (upload_data_to_gdb sj self).
Proof.
  unfold upload_data_to_gdb, process_single_ku, SpatialJoin, Exists,
    CopyFeatures, Append_management, write_output, Delete_management,
    CreateFileGDB_management, set_workspace, set_XYDomain, SpatialReference,
    set_overwriteOutput, set_parallelProcessingFactor.
  blind_tac.
Qed.

Lemma log_blind_extract_then_accumulate sj self l :
  log_blind (extract_then_accumulate sj self l).
Proof.
  unfold extract_then_accumulate.
  pose proof (log_blind_upload_data_to_gdb sj self).
  pose proof (log_blind_extract_zip_file self).
  blind_tac; auto.
Qed.

Lemma extract_loop_keeps_archives self l w z :
  child_of (download_path self) z = true → zip_pattern (name z) = true →
  fs (foldl (guarded_step (λ z, extract_zip_file self z to_extract)
               (λ z _, "Error extracting zip file: " +:+ path_str z)) w l) !! z =
  fs w !! z.
Proof.
  intros Hc Hp. revert w. induction l as [|x l IH]; intros w; [done|].
  cbn [foldl]. rewrite IH.
  assert (Hstep : fs (guarded_step (λ z, extract_zip_file self z to_extract)
                        (λ z _, "Error extracting zip file: " +:+ path_str z) w x) =
                  (extract_zip_file_fs self x to_extract (fs w)).2).
  { unfold guarded_step. rewrite extract_zip_file_on_fs. unfold on_fs.
    by destruct (extract_zip_file_fs self x to_extract (fs w)) as [[[]|e] f']. }
  rewrite Hstep.
  destruct (extract_zip_file_fs self x to_extract (fs w)) as [r f'] eqn:E.
  destruct (tame_extract_zip_file_fs self _ _ _ _ _ E) as [_ Hr]. simpl.
  destruct (Hr z) as [?|Hreach]; [done|].
  by destruct (zip_child_not_reach self z).
Qed.

Lemma extract_then_accumulate_run sj self l w :
  extract_then_accumulate sj self l w =
  upload_data_to_gdb sj self
    (foldl (guarded_step (λ z, extract_zip_file self z to_extract)
              (λ z _, "Error extracting zip file: " +:+ path_str z)) w l).
Proof.
  unfold extract_then_accumulate. unfold bind at 1.
  by rewrite (guarded_loop_run (λ z, extract_zip_file self z to_extract)
                (λ z _, "Error extracting zip file: " +:+ path_str z)).
Qed.

(** An entry of the listing that cannot be opened as an archive leaves the
    run as it is over the listing without it. *)
Lemma unreadable_archive_skipped sj self w l1 z l2 :
  glob (download_path self) zip_pattern (fs w) = l1 ++ z :: l2 →
  (∀ ms lk, fs w !! z ≠ Some (File (Zip ms) lk)) →
  let r := (extract_zip_files self ;; upload_data_to_gdb sj self) w in
  let r' := (on_fs (mkdir (unpacked_path self) true) ;;
             extract_then_accumulate sj self (l1 ++ l2)) w in
  r.1 = r'.1 ∧ fs r.2 = fs r'.2 ∧ arc r.2 = arc r'.2.
Proof.
  intros Hglob Hz r r'. subst r r'.
  assert (Hzc : child_of (download_path self) z = true ∧
                zip_pattern (name z) = true).
  { assert (z ∈ glob (download_path self) zip_pattern (fs w)) as Hin.
    { rewrite Hglob. apply elem_of_app. right. apply list_elem_of_here. }
    apply elem_of_glob in Hin. tauto. }
  destruct Hzc as [Hc Hp].
  set (step := guarded_step (λ z, extract_zip_file self z to_extract)
                 (λ z _, "Error extracting zip file: " +:+ path_str z)).
  assert (HL : bind (extract_zip_files self)
                 (λ _, upload_data_to_gdb sj self) w =
               match mkdir (unpacked_path self) true (fs w) with
               | (Ok _, f0) =>
                   upload_data_to_gdb sj self
                     (foldl step (set_fs f0 w)
                        (glob (download_path self) zip_pattern f0))
               | (Raise e, _) => (Raise e, w)
               end).
  { unfold bind. rewrite extract_zip_files_unfold.
    by destruct (mkdir _ true (fs w)) as [[[]|?] ?]. }
  assert (HR : bind (on_fs (mkdir (unpacked_path self) true))
                 (λ _, extract_then_accumulate sj self (l1 ++ l2)) w =
               match mkdir (unpacked_path self) true (fs w) with
               | (Ok _, f0) =>
                   extract_then_accumulate sj self (l1 ++ l2) (set_fs f0 w)
               | (Raise e, f0) => (Raise e, set_fs f0 w)
               end).
  { unfold bind, on_fs. by destruct (mkdir _ true (fs w)) as [[[]|?] ?]. }
  rewrite HL, HR. clear HL HR.
  destruct (mkdir (unpacked_path self) true (fs w)) as [r0 f0] eqn:E.
  destruct (mkdir_inv _ _ _ _ E) as [(-> & _ & Hf0)|(e & -> & ->)].
  2:{ by rewrite set_fs_same. }
  set (w0 := set_fs f0 w).
  assert (Hzip : ∀ q, child_of (download_path self) q = true →
                      zip_pattern (name q) = true → f0 !! q = fs w !! q).
  { intros q Hqc Hqp. destruct Hf0 as [->|[_ ->]]; [done|].
    apply lookup_insert_ne. intros <-.
    by destruct (unpacked_not_zip self (unpacked_path self)). }
  assert (Hg0 : glob (download_path self) zip_pattern f0 = l1 ++ z :: l2).
  { rewrite <- Hglob. apply glob_ext. intros q Hqc Hqp. by rewrite Hzip. }
  rewrite Hg0, extract_then_accumulate_run. fold step.
  rewrite !foldl_app. cbn [foldl].
  set (wa := foldl step w0 l1).
  assert (Hza : ∀ ms lk, node_at (fs wa) z ≠ Some (File (Zip ms) lk)).
  { intros ms lk. rewrite (zip_child_lookup _ _ _ Hc).
    unfold wa, step. rewrite extract_loop_keeps_archives by done.
    change (fs w0) with f0. rewrite Hzip by done. apply Hz. }
  destruct (extract_zip_file_non_archive self z to_extract wa Hza) as [e He].
  assert (Hsd : same_data (step wa z) wa).
  { unfold step, guarded_step. rewrite He. by split_and!. }
  pose proof (log_blind_extract_then_accumulate sj self l2 _ _ Hsd) as [Hr Hd].
  rewrite !extract_then_accumulate_run in Hr, Hd. fold step in Hr, Hd.
  destruct Hd as (? & ? & _). by split_and!.
Qed.

(** One corrupt archive costs nothing but its warning.  When the listing of
    the download directory holds an entry that is not a well-formed archive,
    extraction followed by accumulation ends as it would over the listing
    without that entry: the same outcome, the same file system (so the same
    unpacked units) and the same engine state (so the same store KU). *)
Theorem corrupt_archive_is_skipped sj self w l1 z l2 :
  glob (download_path self) zip_pattern (fs w) = l1 ++ z :: l2 →
  (∀ ms lk, fs w !! z ≠ Some (File (Zip ms) lk)) →
  let r := (extract_zip_files self ;; upload_data_to_gdb sj self) w in
  let r' := (on_fs (mkdir (unpacked_path self) true) ;;
             extract_then_accumulate sj self (l1 ++ l2)) w in
  r.1 = r'.1 ∧ fs r.2 = fs r'.2 ∧ arc r.2 = arc r'.2.
Proof. exact (unreadable_archive_skipped sj self w l1 z l2). Qed.

Lemma corrupt_archive_is_skipped_witness :
  let w := Staging.w0 in
  let r := (extract_zip_files Sample.kp ;;
            upload_data_to_gdb Sample.join_tool Sample.kp) w in
  let r' := (on_fs (mkdir (unpacked_path Sample.kp) true) ;;
             extract_then_accumulate Sample.join_tool Sample.kp
               ([["data"; "100.zip"]; ["data"; "101.zip"]] ++ [])) w in
  r.1 = r'.1 ∧ fs r.2 = fs r'.2 ∧ arc r.2 = arc r'.2.
Proof.
  intros w.
  apply (corrupt_archive_is_skipped Sample.join_tool Sample.kp w
           [["data"; "100.zip"]; ["data"; "101.zip"]] ["data"; "103.zip"] []).
  - by vm_compute.
  - intros ms lk. by vm_compute.
Defined.


(** ** Cleanup of the unpacked tree: when it goes through *)

Lemma strict_prefix_parent (p q : Path) :
  p `prefix_of` q → q ≠ p → p `prefix_of` parent q.
Proof.
  intros [k ->] Hne. destruct k as [|y k _] using rev_ind.
  { by rewrite app_nil_r in Hne. }
  unfold parent. rewrite app_assoc, removelast_last. by exists k.
Qed.

Lemma below_lookup f p q n :
  below f p !! q = Some n ↔ f !! q = Some n ∧ p `prefix_of` q.
Proof. unfold below. by rewrite map_lookup_filter_Some. Qed.

Lemma prefix_antisymm_eq (p q : Path) : p `prefix_of` q → q `prefix_of` p → p = q.
Proof.
  intros H1 H2. apply prefix_length_eq; [done|]. by apply prefix_length.
Qed.

(** Every directory on the way from [p] to an entry below it is there. *)
Lemma ancestors_present f p a q n :
  removable f p → f !! q = Some n → p `prefix_of` a → a `prefix_of` q →
  is_Some (f !! a).
Proof.
  intros [_ Hwf] Hq Hpa [k ->]. revert n Hq.
  induction k as [|y k IH] using rev_ind; intros n Hq.
  { rewrite app_nil_r in Hq. eauto. }
  destruct (Hwf _ _ Hq) as [Hpar _].
  - etrans; [exact Hpa|]. by eexists.
  - intros Heq. apply prefix_length in Hpa. apply (f_equal length) in Heq.
    rewrite !length_app in Heq. simpl in Heq. lia.
  - unfold parent in Hpar. rewrite app_assoc, removelast_last in Hpar.
    by eapply IH.
Qed.

(** Nothing lies below a regular file. *)
Lemma nothing_below_file f p x c lk q :
  removable f p → p `prefix_of` x → f !! x = Some (File c lk) →
  x `prefix_of` q → q ≠ x → f !! q = None.
Proof.
  intros [_ Hwf] Hpx Hx [k ->]. induction k as [|y k IH] using rev_ind.
  { by rewrite app_nil_r. }
  intros _. destruct (f !! (x ++ k ++ [y])) as [n|] eqn:Hq; [|done]. exfalso.
  destruct (Hwf _ _ Hq) as [Hpar _].
  - etrans; [exact Hpx|]. by eexists.
  - intros Heq. apply prefix_length in Hpx. apply (f_equal length) in Heq.
    rewrite !length_app in Heq. simpl in Heq. lia.
  - unfold parent in Hpar. rewrite app_assoc, removelast_last in Hpar.
    destruct k as [|z k].
    + rewrite app_nil_r in Hpar. congruence.
    + rewrite IH in Hpar; [done|].
      intros Heq. apply (f_equal length) in Heq. rewrite length_app in Heq.
      simpl in Heq. lia.
Qed.

Lemma siblings_disjoint (p x y q : Path) :
  child_of p x = true → child_of p y = true →
  x `prefix_of` q → y `prefix_of` q → x = y.
Proof.
  intros Hx Hy Hxq Hyq.
  assert (length x = length y) as Hlen.
  { rewrite (child_of_name _ _ Hx), (child_of_name _ _ Hy), !length_app. done. }
  destruct (prefix_weak_total x y q Hxq Hyq) as [H|H].
  - apply prefix_length_eq; [done|lia].
  - symmetry. apply prefix_length_eq; [done|lia].
Qed.

Lemma child_strict p x : child_of p x = true → p `prefix_of` x ∧ x ≠ p.
Proof.
  intros H. split; [by apply child_of_prefix|]. intros ->.
  by rewrite child_of_irrefl in H.
Qed.

Lemma size_one_only (m : FS) p :
  size m ≤ 1 → is_Some (m !! p) → ∀ q, q ≠ p → m !! q = None.
Proof.
  intros Hs Hp q Hq.
  assert (size (delete p m) = 0) as H0.
  { rewrite map_size_delete_Some by done. lia. }
  apply map_size_empty_inv in H0.
  rewrite <- (lookup_delete_ne m p q) by done. by rewrite H0.
Qed.

Lemma unlink_file f x c :
  x ≠ [] → f !! x = Some (File c false) → unlink x f = (Ok tt, delete x f).
Proof.
  intros Hx H. unfold unlink, bind, get, put.
  assert (node_at f x = Some (File c false)) as ->; [|done].
  by destruct x.
Qed.

Lemma below_child_size f f1 p x d :
  f !! p = Some Dir → child_of p x = true →
  (∀ q, x `prefix_of` q → f1 !! q = f !! q) →
  size (below f p) ≤ S (S d) → size (below f1 x) ≤ S d.
Proof.
  intros Hp Hx Hsame Hs. destruct (child_strict _ _ Hx) as [Hpx Hne].
  assert (below f1 x ⊆ delete p (below f p)) as Hsub.
  { apply map_subseteq_spec. intros q n Hq.
    apply below_lookup in Hq as [Hq Hxq]. rewrite Hsame in Hq by done.
    rewrite lookup_delete_ne.
    - apply below_lookup. split; [done | by etrans].
    - intros ->. apply Hne. by apply prefix_antisymm_eq. }
  apply map_subseteq_size in Hsub.
  rewrite map_size_delete_Some in Hsub; [lia|].
  exists Dir. by apply below_lookup.
Qed.

(** With fuel for the entries below [p], [rmtree] removes the tree. *)
Lemma rmtree_depth_removes d p f :
  removable f p → size (below f p) ≤ S d →
  ∃ f', rmtree_depth d p f = (Ok tt, f') ∧
        ∀ q, f' !! q = if decide (p `prefix_of` q) then None else f !! q.
Proof.
  revert p f. induction d as [|d IH]; intros p f Hrem Hsize.
  - destruct Hrem as [Hp Hwf]. simpl. unfold rmdir, bind, get, put. rewrite Hp.
    assert (Honly : ∀ q, p `prefix_of` q → q ≠ p → f !! q = None).
    { intros q Hpq Hne. destruct (f !! q) as [n|] eqn:Hq; [|done].
      assert (below f p !! q = None) as Hb.
      { apply (size_one_only _ p); [done| |done].
        exists Dir. by apply below_lookup. }
      assert (below f p !! q = Some n) by (by apply below_lookup). congruence. }
    destruct (glob p any_pattern f) as [|x l] eqn:Hg.
    + eexists. split; [done|]. intros q. case_decide as Hpq.
      * destruct (decide (q = p)) as [->|Hne]; [apply lookup_delete_eq|].
        rewrite lookup_delete_ne by done. by apply Honly.
      * apply lookup_delete_ne. by intros ->.
    + exfalso. assert (x ∈ glob p any_pattern f) as Hx
        by (rewrite Hg; apply list_elem_of_here).
      apply elem_of_glob in Hx as ([n Hn] & Hc & _).
      destruct (child_strict _ _ Hc) as [Hpx Hne].
      rewrite (Honly x) in Hn; done.
  - pose proof Hrem as [Hp Hwf]. simpl. unfold bind at 1, get at 1. rewrite Hp.
    set (body := λ q0 : Path, match f !! q0 with
                       | Some Dir => rmtree_depth d q0
                       | _ => unlink q0
                       end).
    assert (Hloop : ∀ l f1,
              NoDup l →
              (∀ x, x ∈ l → child_of p x = true ∧ is_Some (f !! x)) →
              (∀ x q, x ∈ l → x `prefix_of` q → f1 !! q = f !! q) →
              ∃ f2, for_each l body f1 = (Ok tt, f2) ∧
                    ∀ q, f2 !! q =
                         if decide (List.Exists (λ x, x `prefix_of` q) l)
                         then None else f1 !! q).
    { induction l as [|x l IHl]; intros f1 Hnd Hl Hsame.
      { exists f1. split; [done|]. intros q.
        rewrite decide_False; [done|]. by intros ?%Exists_nil. }
      apply NoDup_cons in Hnd as [Hxl Hnd].
      destruct (Hl x) as [Hc [n Hn]]; [apply list_elem_of_here|].
      destruct (child_strict _ _ Hc) as [Hpx Hne].
      assert (Hsx : ∀ q, x `prefix_of` q → f1 !! q = f !! q).
      { intros q Hq. apply (Hsame x q); [apply list_elem_of_here | done]. }
      assert (∃ f1', body x f1 = (Ok tt, f1') ∧
                ∀ q, f1' !! q = if decide (x `prefix_of` q) then None
                                else f1 !! q) as (f1' & Eb & Hspec).
      { unfold body. rewrite Hn. destruct n as [c lk|].
        - assert (lk = false) as ->.
          { destruct (Hwf _ _ Hn Hpx Hne) as [_ Hlk]. destruct lk; [|done].
            by destruct (Hlk c). }
          exists (delete x f1). split.
          { apply (unlink_file _ _ c); [|by rewrite Hsx].
            apply child_of_spec in Hc. tauto. }
          intros q. case_decide as Hxq.
          + destruct (decide (q = x)) as [->|Hqx]; [apply lookup_delete_eq|].
            rewrite lookup_delete_ne by done. rewrite Hsx by done.
            by eapply nothing_below_file.
          + apply lookup_delete_ne. by intros ->.
        - apply IH.
          + split; [by rewrite Hsx|]. intros q n' Hq Hxq Hqx.
            rewrite Hsx in Hq by done.
            rewrite Hsx by (by apply strict_prefix_parent).
            apply (Hwf _ _ Hq); [by etrans|].
            intros ->. apply Hne. by apply prefix_antisymm_eq.
          + by apply (below_child_size f f1 p x d). }
      destruct (IHl f1') as (f2 & El & Hspec2); [done| |  |].
      { intros y Hy. by apply Hl, list_elem_of_further. }
      { intros y q Hy Hyq. rewrite Hspec.
        destruct (Hl y) as [Hcy _]; [by apply list_elem_of_further|].
        rewrite decide_False.
        - apply (Hsame y q); [by apply list_elem_of_further | done].
        - intros Hxq. apply Hxl.
          by rewrite (siblings_disjoint p x y q). }
      exists f2. split.
      { simpl. by rewrite (bind_Ok _ _ _ _ _ Eb). }
      intros q. rewrite Hspec2, Hspec.
      destruct (decide (x `prefix_of` q)) as [Hxq|Hxq].
      - rewrite (decide_True (P := List.Exists _ (x :: l))) by (by apply Exists_cons_hd).
        by case_decide.
      - destruct (decide (List.Exists (λ x0, x0 `prefix_of` q) l)) as [He|He].
        + by rewrite decide_True by (by apply Exists_cons_tl).
        + rewrite decide_False; [done|]. intros [?|?]%Exists_cons; done. }
    destruct (Hloop (glob p any_pattern f) f) as (f2 & El & Hspec).
    { apply NoDup_glob. }
    { intros x Hx. apply elem_of_glob in Hx. tauto. }
    { done. }
    rewrite (bind_Ok _ _ _ _ _ El).
    assert (Hchild : ∀ q, List.Exists (λ x, x `prefix_of` q) (glob p any_pattern f) →
                          p `prefix_of` q ∧ q ≠ p).
    { intros q (x & Hx & Hxq)%Exists_exists.
      apply elem_of_glob in Hx as (_ & Hc & _).
      destruct (child_strict _ _ Hc) as [Hpx Hne]. split; [by etrans|].
      intros ->. apply Hne. by apply prefix_antisymm_eq. }
    assert (Hp2 : f2 !! p = Some Dir).
    { rewrite Hspec, decide_False; [done|]. intros He.
      by destruct (Hchild _ He). }
    assert (Hg2 : glob p any_pattern f2 = []).
    { destruct (glob p any_pattern f2) as [|x l] eqn:Hg; [done|]. exfalso.
      assert (x ∈ glob p any_pattern f2) as Hx
        by (rewrite Hg; apply list_elem_of_here).
      apply elem_of_glob in Hx as ([n Hn] & Hc & Hpat).
      rewrite Hspec in Hn. case_decide as He; [done|]. apply He.
      apply Exists_exists. exists x. split; [|done].
      apply elem_of_glob. eauto. }
    unfold rmdir, bind, get, put. rewrite Hp2, Hg2.
    eexists. split; [done|]. intros q. case_decide as Hpq.
    + destruct (decide (q = p)) as [->|Hne]; [apply lookup_delete_eq|].
      rewrite lookup_delete_ne by done. rewrite Hspec.
      case_decide as He; [done|].
      destruct (f !! q) as [n|] eqn:Hq; [|done]. exfalso. apply He.
      destruct Hpq as [k ->]. destruct k as [|c k].
      { by rewrite app_nil_r in Hne. }
      assert (Hcx : child_of p (p ++ [c]) = true).
      { apply child_of_spec. split; [by destruct p|apply removelast_last]. }
      apply Exists_exists. exists (p ++ [c]).
      assert (p ++ [c] `prefix_of` p ++ c :: k) as Hxq.
      { exists k. by rewrite <- app_assoc. }
      split; [|done]. apply elem_of_glob. split; [|done].
      eapply ancestors_present; [exact Hrem|exact Hq| |done]. by eexists.
    + rewrite lookup_delete_ne by (by intros ->). rewrite Hspec.
      rewrite decide_False; [done|]. intros He. by destruct (Hchild _ He).
Qed.

(** When the tree of [unpacked] can be removed (it is a directory, every
    entry below it lies in a directory that is there, none is a locked
    file), [remove_unpacked_files] removes all of it: afterwards nothing is
    left at or below [unpacked], every other path is as it was, the line
    that reports the removal is printed and nothing is logged. *)
Theorem remove_unpacked_files_removes self w :
  removable (fs w) (unpacked_path self) →
  let U := unpacked_path self in
  let r := remove_unpacked_files self w in
  r.1 = Ok tt ∧
  (∀ q, fs r.2 !! q = if decide (U `prefix_of` q) then None else fs w !! q) ∧
  stdout r.2 = stdout w ++ ["Removed unpacked folder: " +:+ path_str U] ∧
  warnings r.2 = warnings w.
Proof.
  intros Hrem U r. subst r.
  destruct (rmtree_depth_removes (size (fs w)) U (fs w)) as (f' & E & Hspec);
    [done| |].
  { etrans; [apply map_subseteq_size, map_filter_subseteq|]. lia. }
  unfold remove_unpacked_files, rmtree. fold U. munfold. simpl. rewrite E.
  by simpl.
Qed.

Lemma remove_unpacked_files_removes_witness :
  let w := Sample.world Sample.fs_unpacked (Sample.arc_with None ∅ false) in
  let U := unpacked_path Sample.kp in
  let r := remove_unpacked_files Sample.kp w in
  r.1 = Ok tt ∧
  (∀ q, fs r.2 !! q = if decide (U `prefix_of` q) then None else fs w !! q) ∧
  stdout r.2 = stdout w ++ ["Removed unpacked folder: " +:+ path_str U] ∧
  warnings r.2 = warnings w.
Proof.
  intros w.
  apply (remove_unpacked_files_removes Sample.kp w).
  split; [by vm_compute|]. intros q n Hq Hpre Hne.
  apply elem_of_map_to_list in Hq. vm_compute in Hq.
  repeat (apply elem_of_cons in Hq as [Hq|Hq];
    [injection Hq as -> ->;
     first [ by (apply prefix_length in Hpre; simpl in Hpre; lia)
           | by destruct Hpre as [k [=]]
           | done
           | by (split; [by vm_compute | intros c0 [=]]) ] |]).
  by apply elem_of_nil in Hq.
Defined.


(** ** The warnings of the extractor, archive by archive *)

Lemma extract_loop_run self l w :
  extract_loop self l w =
  (Ok tt, foldl (guarded_step (λ z, extract_zip_file self z to_extract)
                   (λ z _, "Error extracting zip file: " +:+ path_str z)) w l).
Proof.
  unfold extract_loop.
  by rewrite (guarded_loop_run (λ z, extract_zip_file self z to_extract)
                (λ z _, "Error extracting zip file: " +:+ path_str z)).
Qed.

(** The lines the loop logs are those of the archives whose extraction
    raised, each in the world the loop had reached when it came to it. *)
Lemma extract_loop_failures self l w :
  NoDup l →
  ∃ bad, bad `sublist_of` l ∧
    warnings (foldl (guarded_step
                (λ z, extract_zip_file self z to_extract)
                (λ z _, "Error extracting zip file: " +:+ path_str z)) w l) =
      warnings w ++ ((λ z, "Error extracting zip file: " +:+ path_str z) <$> bad) ∧
    ∀ l1 z l2, l = l1 ++ z :: l2 →
      (z ∈ bad ↔
       ∃ e, (extract_zip_file self z to_extract
               (foldl (guarded_step
                  (λ z, extract_zip_file self z to_extract)
                  (λ z _, "Error extracting zip file: " +:+ path_str z)) w l1)).1
            = Raise e).
Proof.
  revert w. induction l as [|x l IH]; intros w Hnd.
  { exists []. simpl. rewrite app_nil_r. split; [done|]. split; [done|].
    intros l1 z l2 E. by destruct l1. }
  apply NoDup_cons in Hnd as [Hx Hnd].
  cbn [foldl].
  set (w1 := guarded_step _ _ w x).
  destruct (IH w1 Hnd) as (bad & Hsub & Hw & Hbad).
  assert (Hin : ∀ z, z ∈ bad → z ∈ l).
  { intros z Hz. by eapply elem_of_sublist. }
  destruct (extract_zip_file self x to_extract w) as [[[]|e] w'] eqn:E.
  - assert (Hw1 : warnings w1 = warnings w).
    { subst w1. unfold guarded_step. rewrite E.
      rewrite <- (extract_zip_file_same_warnings self x to_extract w). by rewrite E. }
    exists bad. split; [by apply sublist_cons|]. split; [by rewrite Hw, Hw1|].
    intros l1 z l2 El. destruct l1 as [|y l1]; simpl in El.
    + injection El as <- <-. simpl. rewrite E. simpl. split.
      * intros Hz. destruct Hx. by apply Hin.
      * by intros [e He].
    + injection El as <- ->. cbn [foldl]. fold w1. by apply (Hbad l1 z l2).
  - assert (Hw1 : warnings w1 =
              warnings w ++ ["Error extracting zip file: " +:+ path_str x]).
    { subst w1. unfold guarded_step. rewrite E. simpl.
      rewrite <- (extract_zip_file_same_warnings self x to_extract w). by rewrite E. }
    exists (x :: bad). split; [by apply sublist_skip|].
    split; [by rewrite Hw, Hw1, <- app_assoc|].
    intros l1 z l2 El. destruct l1 as [|y l1]; simpl in El.
    + injection El as <- <-. simpl. rewrite E. simpl. split; [by eauto|].
      intros _. apply list_elem_of_here.
    + injection El as <- ->. cbn [foldl]. fold w1.
      rewrite <- (Hbad l1 z l2 eq_refl). rewrite elem_of_cons. split; [|by right].
      intros [->|?]; [|done]. destruct Hx.
      apply elem_of_app. right. apply list_elem_of_here.
Qed.

(** The warnings [extract_zip_files] adds: exactly one line per archive
    whose extraction failed, naming the archive, in the order of the
    listing, and nothing else.  An archive of the listing has its line
    exactly when the run got past the creation of [unpacked] and the
    extraction of that archive raised, in the world the loop had reached
    when it came to it; an archive extracted without error has none.  In
    particular every entry named [*.zip] that is not a well-formed archive
    has its line, wherever it stands in the listing: the failure of one
    archive neither stops the loop nor hides another. *)
Theorem extract_zip_files_warnings self w :
  let r := extract_zip_files self w in
  let zip_files := glob (download_path self) zip_pattern (fs w) in
  let line := λ z, "Error extracting zip file: " +:+ path_str z in
  let reached := λ l1,
    ((on_fs (mkdir (unpacked_path self) true) ;; extract_loop self l1) w).2 in
  ∃ bad, bad `sublist_of` zip_files ∧
    warnings r.2 = warnings w ++ (line <$> bad) ∧
    (∀ l1 z l2, zip_files = l1 ++ z :: l2 →
       (z ∈ bad ↔
        r.1 = Ok tt ∧
        ∃ e, (extract_zip_file self z to_extract (reached l1)).1 = Raise e)) ∧
    (r.1 = Ok tt →
     ∀ z, z ∈ zip_files → (∀ ms lk, fs w !! z ≠ Some (File (Zip ms) lk)) →
          z ∈ bad).
Proof.
  intros r zip_files line reached. subst r. rewrite extract_zip_files_unfold.
  destruct (mkdir (unpacked_path self) true (fs w)) as [r0 f0] eqn:E.
  destruct (mkdir_inv _ _ _ _ E) as [(-> & _ & Hf0)|(e & -> & _)].
  2:{ exists []. simpl. rewrite app_nil_r. split; [apply sublist_nil_l|].
      split; [done|]. split; [|done]. intros l1 z l2 _. split.
      - intros Hz. by apply elem_of_nil in Hz.
      - by intros [? _]. }
  set (w0 := set_fs f0 w). simpl.
  assert (Hw0 : warnings w0 = warnings w) by done.
  assert (Hreach : ∀ l1, reached l1 =
            foldl (guarded_step (λ z, extract_zip_file self z to_extract)
                     (λ z _, "Error extracting zip file: " +:+ path_str z)) w0 l1).
  { intros l1. unfold reached.
    assert (Hm : on_fs (mkdir (unpacked_path self) true) w = (Ok tt, w0)).
    { unfold on_fs. by rewrite E. }
    rewrite (bind_Ok _ _ _ _ _ Hm). by rewrite extract_loop_run. }
  change f0 with (fs w0) in Hf0 |- *.
  assert (Hzip : ∀ z, child_of (download_path self) z = true →
                      zip_pattern (name z) = true → fs w0 !! z = fs w !! z).
  { intros z Hc Hz. destruct Hf0 as [->|[_ ->]]; [done|].
    apply lookup_insert_ne. intros <-.
    by destruct (unpacked_not_zip self (unpacked_path self)). }
  assert (Hglob : glob (download_path self) zip_pattern (fs w0) = zip_files).
  { apply glob_ext. intros q Hc Hz. by rewrite Hzip. }
  rewrite Hglob.
  destruct (extract_loop_failures self zip_files w0) as (bad & Hsub & Hw & Hbad).
  { apply NoDup_glob. }
  assert (Hiff : ∀ l1 z l2, zip_files = l1 ++ z :: l2 →
            (z ∈ bad ↔
             Ok tt = Ok tt ∧
             ∃ e, (extract_zip_file self z to_extract (reached l1)).1 = Raise e)).
  { intros l1 z l2 El. rewrite Hreach, (Hbad l1 z l2 El). tauto. }
  exists bad. split; [done|]. split; [by rewrite Hw, Hw0|]. split; [done|].
  intros _ z Hz Hna.
  destruct (list_elem_of_split _ _ Hz) as (l1 & l2 & El).
  apply (Hiff l1 z l2 El). split; [done|].
  apply elem_of_glob in Hz as (_ & Hc & Hp).
  destruct (extract_zip_file_non_archive self z to_extract (reached l1))
    as [e He]; [|exists e; by rewrite He].
  intros ms lk. rewrite (zip_child_lookup _ _ _ Hc), Hreach.
  rewrite extract_loop_keeps_archives by done. rewrite Hzip by done. apply Hna.
Qed.


(** ** A stage that halts *)

Section Halt.
Context (sj : FS → Path → Path → option FeatureClass) (load_config : M Config)
  (WebDriver WebElement : Type) (webdriver_Chrome : Path → M WebDriver)
  (driver_get : WebDriver → string → M unit)
  (find_elements : WebDriver → string → M (list WebElement))
  (click : WebElement → M unit).

(** C8: a stage that halts ends the run, without cleanup.  Whichever of the
    stages that can halt raises an Exception [e] (the construction of the
    downloader, the download, the construction of the parser, the extraction,
    the accumulation), having left the world [wf]: the driver returns
    normally, and the world it leaves is [wf] with one more printed line,
    the fixed prefix followed by the message of [e].  So no later stage has
    run: neither cleanup has removed anything, the files are those of [wf]
    (every archive and unpacked file that was there when the stage halted is
    still there), and the error is reported by that single line.  When the
    extraction or the accumulation halts, [wf] is the world that stage
    started in. *)
Theorem download_and_process_kus_halts w e wf :
  is_Exception e = true →
  (KuDownloader_init load_config _ webdriver_Chrome w = (Raise e, wf) ∨
   ∃ kd w1,
     KuDownloader_init load_config _ webdriver_Chrome w = (Ok kd, w1) ∧
     (download_all_kus _ _ driver_get find_elements click kd w1 = (Raise e, wf) ∨
      ∃ w2,
        download_all_kus _ _ driver_get find_elements click kd w1 = (Ok tt, w2) ∧
        (KUParser_init load_config w2 = (Raise e, wf) ∨
         ∃ kp w3,
           KUParser_init load_config w2 = (Ok kp, w3) ∧
           (extract_zip_files kp w3 = (Raise e, wf) ∨
            ∃ w4,
              extract_zip_files kp w3 = (Ok tt, w4) ∧
              upload_data_to_gdb sj kp w4 = (Raise e, wf))))) →
  let r := download_and_process_kus sj load_config _ _ webdriver_Chrome
             driver_get find_elements click w in
  r = (Ok tt, (print ("An error occurred: " +:+ exn_msg e) wf).2) ∧
  fs r.2 = fs wf ∧ arc r.2 = arc wf ∧ warnings r.2 = warnings wf ∧
  stdout r.2 = stdout wf ++ ["An error occurred: " +:+ exn_msg e] ∧
  (∀ kp w3, extract_zip_files kp w3 = (Raise e, wf) → wf = w3) ∧
  (∀ kp w4, upload_data_to_gdb sj kp w4 = (Raise e, wf) → wf = w4).
Proof.
  intros _ H r.
  assert (Hr : r = (Ok tt, (print ("An error occurred: " +:+ exn_msg e) wf).2)).
  { subst r. unfold download_and_process_kus. unfold try_except at 1.
    destruct H as [H1|(kd & w1 & H1 & [H2|(w2 & H2 & [H3|(kp & w3 & H3 &
                     [H4|(w4 & H4 & H5)])])])].
    - by rewrite (bind_Raise _ _ _ _ _ H1).
    - by rewrite (bind_Ok _ _ _ _ _ H1), (bind_Raise _ _ _ _ _ H2).
    - by rewrite (bind_Ok _ _ _ _ _ H1), (bind_Ok _ _ _ _ _ H2),
           (bind_Raise _ _ _ _ _ H3).
    - by rewrite (bind_Ok _ _ _ _ _ H1), (bind_Ok _ _ _ _ _ H2),
           (bind_Ok _ _ _ _ _ H3), (bind_Raise _ _ _ _ _ H4).
    - by rewrite (bind_Ok _ _ _ _ _ H1), (bind_Ok _ _ _ _ _ H2),
           (bind_Ok _ _ _ _ _ H3), (bind_Ok _ _ _ _ _ H4),
           (bind_Raise _ _ _ _ _ H5). }
  rewrite Hr. split_and!; try done.
  - intros kp w3 H4. by apply extract_zip_files_Raise in H4.
  - intros kp w4 H5. by apply upload_data_to_gdb_Raise in H5.
Qed.

End Halt.

Lemma download_and_process_kus_halts_witness :
  let w := Sample.world {[ ["data"] := Dir ]} (Sample.arc_with None ∅ false) in
  let e := ExecuteError "ERROR 000732: Output folder does not exist" in
  let wf := (extract_zip_files Sample.kp w).2 in
  let r := download_and_process_kus Sample.join_tool Browser.load_config _ _
             Browser.Chrome Browser.driver_get Browser.find_elements
             Browser.click w in
  r = (Ok tt, (print ("An error occurred: " +:+ exn_msg e) wf).2) ∧
  fs r.2 = fs wf ∧ arc r.2 = arc wf ∧ warnings r.2 = warnings wf ∧
  stdout r.2 = stdout wf ++ ["An error occurred: " +:+ exn_msg e] ∧
  (∀ kp w3, extract_zip_files kp w3 = (Raise e, wf) → wf = w3) ∧
  (∀ kp w4, upload_data_to_gdb Sample.join_tool kp w4 = (Raise e, wf) → wf = w4).
Proof.
  intros w e wf.
  apply (download_and_process_kus_halts Sample.join_tool Browser.load_config
           _ _ Browser.Chrome Browser.driver_get Browser.find_elements
           Browser.click w e wf).
  - by vm_compute.
  - right.
    exists {| kd_download_path := ["data"];
              kd_driver := ["Name"; "Parent Directory"; "100.zip"; "101.zip"];
              kd_download_list := [] |}, w.
    split; [by vm_compute|]. right. exists w. split; [by vm_compute|].
    right. exists Sample.kp, w. split; [by vm_compute|].
    right. exists wf. split; by vm_compute.
Defined.


(** ** Errors of single items *)





